(** * RPF-Extractor: the consolidation and recursive extraction pipeline

    A shallow embedding of [extract.py]: the classification tables, the
    file mover [move_files], the bucket reset [ensure_clean_dirs] and the
    recursive driver [extract_rpf_recursive], over an explicit model of the
    file system, followed by the properties of the pipeline.

    Modelling conventions.
    - Python [str] values are [string]s of 8-bit characters; [str.lower]
      is the ASCII lower-casing (file names are taken to be ASCII).
    - A path is the list of its components: [os.path.join d name] appends a
      component, [os.path.dirname] drops the last one, [os.path.basename]
      is the last one.  Where the program inspects a path as text
      ([root.lower()]), the components are rendered with [os_sep].
    - The file system is a tree of directories and files which is passed
      through every operation; names are compared exactly, as on a
      case-sensitive file system.  The external decoder and the storage
      medium are parameters.
    - Python integers are unbounded; the counters are [nat].
    - [print] calls are not modelled. *)

From Stdlib Require Import List Bool Arith Lia Strings.String Strings.Ascii Strings.Byte.
From Stdlib Require Import Decimal DecimalString DecimalNat Permutation.
Import ListNotations.

Set Warnings "-register-all".

Open Scope string_scope.
Open Scope list_scope.
Open Scope nat_scope.

(** ** Python string primitives *)

Module Str.

(** [c.lower()] on one ASCII character. *)
Definition lower_ascii (c : ascii) : ascii :=
  let n := nat_of_ascii c in
  if (65 <=? n) && (n <=? 90) then ascii_of_nat (n + 32) else c.

(** [s.lower()] *)
Fixpoint lower (s : string) : string :=
  match s with
  | EmptyString => EmptyString
  | String c s' => String (lower_ascii c) (lower s')
  end.

(** [s.startswith(p)] *)
Fixpoint startswith (p s : string) : bool :=
  match p, s with
  | EmptyString, _ => true
  | String a p', String b s' => Ascii.eqb a b && startswith p' s'
  | String _ _, EmptyString => false
  end.

(** [sub in s] *)
Fixpoint contains (sub s : string) : bool :=
  startswith sub s ||
  match s with
  | EmptyString => false
  | String _ s' => contains sub s'
  end.

(** [s.endswith(p)] *)
Definition endswith (p s : string) : bool :=
  let n := String.length s in
  let k := String.length p in
  (k <=? n) && String.eqb (String.substring (n - k) k s) p.

(** [s.split(sep)] for a one-character separator: never empty. *)
Fixpoint split (sep : ascii) (s : string) : list string :=
  match s with
  | EmptyString => [EmptyString]
  | String c s' =>
      if Ascii.eqb c sep then EmptyString :: split sep s'
      else match split sep s' with
           | h :: t => String c h :: t
           | [] => [String c EmptyString]
           end
  end.

(** [s.rfind(c)]: position of the last occurrence, [None] for [-1]. *)
Fixpoint rfind_from (c : ascii) (s : string) (i : nat) (acc : option nat)
  : option nat :=
  match s with
  | EmptyString => acc
  | String a s' =>
      rfind_from c s' (S i) (if Ascii.eqb a c then Some i else acc)
  end.

Definition rfind (c : ascii) (s : string) : option nat :=
  rfind_from c s 0 None.

(** [any(ch != c for ch in s)] *)
Fixpoint has_other (c : ascii) (s : string) : bool :=
  match s with
  | EmptyString => false
  | String a s' => negb (Ascii.eqb a c) || has_other c s'
  end.

(** [s[i:j]] and [s[i:]] for [0 <= i <= j]. *)
Definition slice (i j : nat) (s : string) : string :=
  String.substring i (j - i) s.

Definition slice_from (i : nat) (s : string) : string :=
  String.substring i (String.length s - i) s.

(** [str(n)] for a non-negative integer. *)
Definition of_nat (n : nat) : string :=
  NilEmpty.string_of_uint (Nat.to_uint n).

(** [c in s] for one character. *)
Fixpoint has_char (c : ascii) (s : string) : bool :=
  match s with
  | EmptyString => false
  | String a s' => Ascii.eqb a c || has_char c s'
  end.

(** [x in S] for a set of strings. *)
Definition mem (x : string) (S : list string) : bool :=
  existsb (String.eqb x) S.

End Str.

(** ** Paths *)

Definition path := list string.

Definition os_sep : string := "/".

(** The text of a path, as [os.walk] hands it to the program. *)
Definition path_str (p : path) : string := String.concat os_sep p.

(** [os.path.join(d, name)] for a single component [name]. *)
Definition join (d : path) (name : string) : path := d ++ [name].

(** [os.path.dirname(p)] *)
Definition dirname (p : path) : path := removelast p.

(** [os.path.basename(p)] *)
Definition basename (p : path) : string := last p EmptyString.

(** [os.path.splitext(p)] on a file name, after [genericpath._splitext]:
    the extension starts at the last dot, unless that dot comes before the
    last separator or only dots precede it in the name. *)
Definition splitext (p : string) : string * string :=
  let sepIndex := Str.rfind "/"%char p in
  let dotIndex := Str.rfind "."%char p in
  match dotIndex with
  | None => (p, EmptyString)
  | Some d =>
      let filenameIndex := match sepIndex with None => 0 | Some s => S s end in
      if (filenameIndex <=? d)
         && Str.has_other "."%char (Str.slice filenameIndex d p)
      then (Str.slice 0 d p, Str.slice_from d p)
      else (p, EmptyString)
  end.

(** ** The classification tables *)

Definition STREAM_EXTENSIONS : list string :=
  ["yft"; "ytd"; "ydr"; "ydd"; "ybn"; "ymap"; "ytyp";
   "awc"; "cut"; "rel"; "ynv"; "ycd"; "ynd";
   "ypdb"; "ysc"; "yvr"; "xtd"].

Definition DATA_EXTENSIONS : list string := ["meta"; "xml"; "dat"].

Definition IMPORTANT_FOLDERS : list string :=
  ["vehicles"; "weapons"; "peds"; "props"].

Definition IGNORE_FOLDERS : list string :=
  ["audio"; "lang"; "common.rpf";
   "x64a.rpf"; "x64b.rpf"; "x64c.rpf"; "x64d.rpf"; "x64e.rpf"; "x64f.rpf";
   "x64g.rpf";
   "dlc_patch"; "update"; "platform"].

(** [any(name.lower() in root.lower() for name in names)] *)
Definition any_folder_in (names : list string) (root : path) : bool :=
  existsb (fun name => Str.contains (Str.lower name) (Str.lower (path_str root)))
          names.

(** The guard of the directory loop: the directory is passed over. *)
Definition is_ignored (root : path) : bool := any_folder_in IGNORE_FOLDERS root.

Definition is_important (root : path) : bool :=
  any_folder_in IMPORTANT_FOLDERS root.

(** [file.lower().split('.')[-1]] *)
Definition file_ext (file : string) : string :=
  last (Str.split "."%char (Str.lower file)) EmptyString.

(** ** The file system *)

Module Fs.

Inductive node : Type :=
| File (content : list byte)
| Dir (entries : list (string * node)).

(** The whole file system is the root directory. *)
Definition t := node.

Fixpoint assoc (c : string) (es : list (string * node)) : option node :=
  match es with
  | [] => None
  | (k, n) :: es' => if String.eqb k c then Some n else assoc c es'
  end.

(** Replace the entry called [c], or add it at the end. *)
Fixpoint set_entry (c : string) (n : node) (es : list (string * node))
  : list (string * node) :=
  match es with
  | [] => [(c, n)]
  | (k, m) :: es' =>
      if String.eqb k c then (c, n) :: es' else (k, m) :: set_entry c n es'
  end.

Definition del_entry (c : string) (es : list (string * node))
  : list (string * node) :=
  filter (fun e => negb (String.eqb (fst e) c)) es.

Fixpoint lookup (p : path) (n : node) : option node :=
  match p with
  | [] => Some n
  | c :: p' =>
      match n with
      | File _ => None
      | Dir es =>
          match assoc c es with
          | Some n' => lookup p' n'
          | None => None
          end
      end
  end.

(** [os.path.exists(p)] *)
Definition exists_ (p : path) (fs : t) : bool :=
  match lookup p fs with Some _ => true | None => false end.

(** [os.path.isdir(p)] *)
Definition isdir (p : path) (fs : t) : bool :=
  match lookup p fs with Some (Dir _) => true | _ => false end.

(** The bytes of the file at [p]; [None] when there is no such file. *)
Definition read (p : path) (fs : t) : option (list byte) :=
  match lookup p fs with Some (File d) => Some d | _ => None end.

(** [os.path.getsize(p)]; [None] when the call raises. *)
Definition getsize (p : path) (fs : t) : option nat :=
  option_map (@List.length byte) (read p fs).

Definition is_dir_entry (e : string * node) : bool :=
  match snd e with Dir _ => true | File _ => false end.

Definition subdirs (es : list (string * node)) : list string :=
  map fst (filter is_dir_entry es).

Definition files (es : list (string * node)) : list string :=
  map fst (filter (fun e => negb (is_dir_entry e)) es).

(** [os.listdir(p)]; [None] when the call raises. *)
Definition listdir (p : path) (fs : t) : option (list string) :=
  match lookup p fs with
  | Some (Dir es) => Some (map fst es)
  | _ => None
  end.

(** [os.walk(top)], top-down: the directory itself, then each of its
    sub-directories in listing order. *)
Fixpoint walk (top : path) (n : node) {struct n}
  : list (path * list string * list string) :=
  match n with
  | File _ => []
  | Dir es =>
      (top, subdirs es, files es) ::
      (fix below (l : list (string * node)) :=
         match l with
         | [] => []
         | (c, n') :: l' => walk (join top c) n' ++ below l'
         end) es
  end.

(** [os.walk] on a path that is no directory yields nothing. *)
Definition os_walk (top : path) (fs : t)
  : list (path * list string * list string) :=
  match lookup top fs with
  | Some n => walk top n
  | None => []
  end.

(** The directories met below [top] by [walk], spelled out. *)
Fixpoint walk_below (top : path) (l : list (string * node))
  : list (path * list string * list string) :=
  match l with
  | [] => []
  | (c, n') :: l' => walk (join top c) n' ++ walk_below top l'
  end.

(** [open(p, 'wb')] followed by writing [d]: the parent must be a
    directory and [p] must not be one. *)
Fixpoint write_file (p : path) (d : list byte) (n : node) : option node :=
  match p, n with
  | [], _ => None
  | _, File _ => None
  | [c], Dir es =>
      match assoc c es with
      | Some (Dir _) => None
      | _ => Some (Dir (set_entry c (File d) es))
      end
  | c :: p', Dir es =>
      match assoc c es with
      | Some n' =>
          option_map (fun n'' => Dir (set_entry c n'' es)) (write_file p' d n')
      | None => None
      end
  end.

(** [shutil.rmtree(p)] *)
Fixpoint rmtree (p : path) (n : node) : node :=
  match p, n with
  | [c], Dir es => Dir (del_entry c es)
  | c :: p', Dir es =>
      match assoc c es with
      | Some n' => Dir (set_entry c (rmtree p' n') es)
      | None => n
      end
  | _, _ => n
  end.

Fixpoint fresh_chain (p : path) : node :=
  match p with
  | [] => Dir []
  | c :: p' => Dir [(c, fresh_chain p')]
  end.

(** [os.makedirs(p)]: the missing directories along [p] are created;
    [None] when the call raises ([p] exists, or a file is in the way). *)
Fixpoint makedirs (p : path) (n : node) : option node :=
  match p, n with
  | [], _ => None
  | _, File _ => None
  | c :: p', Dir es =>
      match assoc c es with
      | Some n' =>
          option_map (fun n'' => Dir (set_entry c n'' es)) (makedirs p' n')
      | None => Some (Dir (set_entry c (fresh_chain p') es))
      end
  end.

End Fs.

(** Induction over the file tree, with the hypothesis for every entry of
    a directory. *)
Section NodeInduction.

Import Fs.

Variable P : node -> Prop.
Hypothesis on_file : forall d, P (File d).
Hypothesis on_dir :
    forall es, Forall (fun e => P (snd e)) es -> P (Dir es).

Fixpoint node_induction (n : node) : P n :=
    match n with
    | File d => on_file d
    | Dir es =>
        on_dir es
          ((fix all (l : list (string * node))
              : Forall (fun e => P (snd e)) l :=
              match l with
              | [] => Forall_nil _
              | (c, n') :: l' =>
                  Forall_cons (c, n') (node_induction n') (all l')
              end) es)
    end.

End NodeInduction.

(** ** Tallies, events and the state passed through the pipeline *)

(** The dictionary [moved_files], with its three keys. *)
Record tally : Type := mkTally { stream : nat; data : nat; skipped : nat }.

Definition no_moves : tally := mkTally 0 0 0.

(** [dest_dir], the key of the bucket a file goes to. *)
Inductive bucket : Type := BStream | BData.

(** [moved_files[dest_dir] += 1] *)
Definition count_moved (b : bucket) (m : tally) : tally :=
  match b with
  | BStream => mkTally (stream m + 1) (data m) (skipped m)
  | BData => mkTally (stream m) (data m + 1) (skipped m)
  end.

(** [moved_files['skipped'] += 1] *)
Definition count_skipped (m : tally) : tally :=
  mkTally (stream m) (data m) (skipped m + 1).

(** What the program does to the outside, in order of occurrence. *)
Inductive event : Type :=
| EvDecode (rpf_file : path)
| EvRmtree (p : path)
| EvMakedirs (p : path)
| EvCreate (p : path)
| EvProgress (current total : nat) (message : string).

Record world : Type := mkWorld { fs : Fs.t; trace : list event }.

Definition emit (e : event) (w : world) : world :=
  mkWorld (fs w) (trace w ++ [e]).

Definition set_fs (f : Fs.t) (w : world) : world := mkWorld f (trace w).

(** [if progress_callback: progress_callback(current, total, message)] *)
Definition report (progress_callback : bool) (current total : nat)
  (message : string) (w : world) : world :=
  if progress_callback then emit (EvProgress current total message) w else w.

(** How writing a file ends: the copy loop ran to its end and the file holds
    [stored], or an exception interrupted it and the file holds [partial]. *)
Inductive copy_outcome : Type :=
| Copied (stored : list byte)
| CopyFailed (partial : list byte).

(** A faithful medium stores what it is given. *)
Definition faithful_medium (dest : path) (bytes : list byte) : copy_outcome :=
  Copied bytes.

(** ** The collision loop of the mover *)

(** [f"{base_name}_{counter}{extension}"] *)
Definition numbered_name (base_name extension : string) (counter : nat)
  : string :=
  (base_name ++ "_" ++ Str.of_nat counter ++ extension)%string.

(** [while os.path.exists(dest_path): ...], with [fuel] bounding the number
    of renamings. *)
Fixpoint free_name_loop (fuel : nat) (f : Fs.t) (base_name extension : string)
  (dest_path : path) (counter : nat) : option path :=
  if Fs.exists_ dest_path f then
    match fuel with
    | 0 => None
    | S fuel' =>
        let new_name := numbered_name base_name extension counter in
        free_name_loop fuel' f base_name extension
          (join (dirname dest_path) new_name) (counter + 1)
    end
  else Some dest_path.

(** The number of renamings after which a free name must have been met: one
    more than the destination directory has entries. *)
Definition renamings_bound (f : Fs.t) (dest_path : path) : nat :=
  match Fs.listdir (dirname dest_path) f with
  | Some names => S (List.length names)
  | None => 1
  end.

(** Lines 139-145: the destination that is finally written.  The [None]
    branch is never taken: the allowance always suffices. *)
Definition unique_dest (f : Fs.t) (file : string) (dest_path : path) : path :=
  if Fs.exists_ dest_path f then
    let (base_name, extension) := splitext file in
    match free_name_loop (renamings_bound f dest_path) f base_name extension
            dest_path 1 with
    | Some p => p
    | None => dest_path
    end
  else dest_path.

(** ** [move_files] *)

Inductive exn : Type :=
| SizeMismatch (file : string) (expected got : nat)
| OSError.

(** How the body of [try] ends for one file. *)
Inductive body_end : Type :=
| SkippedFile
| MovedTo (b : bucket)
| Raised (e : exn).

(** The decision taken for one file. *)
Inductive verdict : Type :=
| PassedOver
| Skip
| To (b : bucket).

Record mover : Type :=
  mkMover { moved_files : tally; processed : nat; mworld : world }.

Section Mover.

Variable medium : path -> list byte -> copy_outcome.

(** [sum(len(files) for _, _, files in os.walk(base_dir))] *)
Definition total_files (base_dir : path) (f : Fs.t) : nat :=
  list_sum (map (fun e => List.length (snd e)) (Fs.os_walk base_dir f)).

(** The branch on the extension: the bucket path and key, if any. *)
Definition destination (important : bool) (ext file : string)
  (stream_dir data_dir : path) : option (path * bucket) :=
  if important || Str.mem ext STREAM_EXTENSIONS
  then Some (join stream_dir file, BStream)
  else if Str.mem ext DATA_EXTENSIONS
  then Some (join data_dir file, BData)
  else None.

(** The directory that stands for a bucket key. *)
Definition bucket_dir (stream_dir data_dir : path) (b : bucket) : path :=
  match b with BStream => stream_dir | BData => data_dir end.

(** What lines 111 and 125-137 decide for a file [file] of the directory
    [root]: the directory is passed over, the file is counted as skipped,
    or it is sent to a bucket. *)
Definition classify (root : path) (file : string) : verdict :=
  if is_ignored root then PassedOver
  else if String.eqb (file_ext file) "rpf" then Skip
  else
    match destination (is_important root) (file_ext file) file [] [] with
    | Some (_, b) => To b
    | None => Skip
    end.

(** What the open destination file holds after the writes. *)
Definition store (p : path) (d : list byte) (w : world) : world :=
  match Fs.write_file p d (fs w) with
  | Some f' => set_fs f' w
  | None => w
  end.

(** The copy and the size check, lines 147-174: the source is sized and
    read, the destination is opened (created empty), the medium decides
    what the writes leave in it, and the two sizes are compared. *)
Definition copy_checked (file : string) (src_path dest_path : path)
  (dest_dir : bucket) (w : world) : body_end * world :=
  match Fs.getsize src_path (fs w), Fs.read src_path (fs w) with
  | Some src_size, Some bytes =>
      match Fs.write_file dest_path [] (fs w) with
      | None => (Raised OSError, w)
      | Some opened =>
          let w1 := emit (EvCreate dest_path) (set_fs opened w) in
          match medium dest_path bytes with
          | CopyFailed partial => (Raised OSError, store dest_path partial w1)
          | Copied stored =>
              let w2 := store dest_path stored w1 in
              match Fs.getsize dest_path (fs w2) with
              | None => (Raised OSError, w2)
              | Some dest_size =>
                  if negb (src_size =? dest_size)
                  then (Raised (SizeMismatch file src_size dest_size), w2)
                  else (MovedTo dest_dir, w2)
              end
          end
      end
  | _, _ => (Raised OSError, w)
  end.

(** The body of [try], lines 125-174. *)
Definition try_body (root : path) (important : bool)
  (stream_dir data_dir : path) (file : string) (w : world)
  : body_end * world :=
  let ext := file_ext file in
  let src_path := join root file in
  if String.eqb ext "rpf" then (SkippedFile, w)
  else
    match destination important ext file stream_dir data_dir with
    | None => (SkippedFile, w)
    | Some (dest_path, dest_dir) =>
        copy_checked file src_path (unique_dest (fs w) file dest_path)
          dest_dir w
    end.

(** One turn of [for file in files], lines 117-179. *)
Definition move_file (root : path) (important : bool)
  (stream_dir data_dir : path) (total : nat) (progress_callback : bool)
  (st : mover) (file : string) : mover :=
  let processed' := processed st + 1 in
  let w := report progress_callback processed' total
             ("Processing: " ++ file)%string (mworld st) in
  match try_body root important stream_dir data_dir file w with
  | (SkippedFile, w') => mkMover (count_skipped (moved_files st)) processed' w'
  | (MovedTo b, w') => mkMover (count_moved b (moved_files st)) processed' w'
  | (Raised _, w') => mkMover (count_skipped (moved_files st)) processed' w'
  end.

(** One turn of [for root, dirs, files in os.walk(base_dir)]. *)
Definition move_dir (stream_dir data_dir : path) (total : nat)
  (progress_callback : bool) (st : mover)
  (entry : path * list string * list string) : mover :=
  let '(root, _, files) := entry in
  if is_ignored root then st
  else
    fold_left
      (move_file root (is_important root) stream_dir data_dir total
         progress_callback)
      files st.

(** [move_files(base_dir, stream_dir, data_dir, progress_callback)].  The
    walk is taken over the tree as it is when the call starts.  [os.walk]
    lists a directory only when it comes to it; this gives the same
    listing as long as the buckets, the only places that are written, do
    not lie in or below [base_dir]. *)
Definition move_files (base_dir stream_dir data_dir : path)
  (progress_callback : bool) (w : world) : tally * world :=
  let total := total_files base_dir (fs w) in
  if total =? 0 then (no_moves, w)
  else
    let st :=
      fold_left (move_dir stream_dir data_dir total progress_callback)
        (Fs.os_walk base_dir (fs w)) (mkMover no_moves 0 w) in
    (moved_files st, mworld st).

End Mover.

(** ** [ensure_clean_dirs] *)

(** How a call ends: it returns, an exception leaves it uncaught, or the
    recursion allowance of the model is used up. *)
Inductive outcome (A : Type) : Type :=
| Return (a : A)
| Uncaught
| OutOfFuel.

Arguments Return {A} a.
Arguments Uncaught {A}.
Arguments OutOfFuel {A}.

(** One turn of [for directory in [stream_dir, data_dir]]; [None] when
    [shutil.rmtree] raises (the path is there and is no directory) or
    [os.makedirs] raises. *)
Definition clean_dir (directory : path) (w : world) : option world :=
  let removed :=
    if Fs.exists_ directory (fs w)
    then
      if Fs.isdir directory (fs w)
      then Some (emit (EvRmtree directory)
                   (set_fs (Fs.rmtree directory (fs w)) w))
      else None
    else Some w in
  match removed with
  | None => None
  | Some w1 =>
      match Fs.makedirs directory (fs w1) with
      | Some f' => Some (emit (EvMakedirs directory) (set_fs f' w1))
      | None => None
      end
  end.

Definition ensure_clean_dirs (base_path : path) (w : world)
  : outcome (path * path) * world :=
  let stream_dir := join base_path "stream" in
  let data_dir := join base_path "data" in
  match clean_dir stream_dir w with
  | None => (Uncaught, w)
  | Some w1 =>
      match clean_dir data_dir w1 with
      | None => (Uncaught, w1)
      | Some w2 => (Return (stream_dir, data_dir), w2)
      end
  end.

(** ** [extract_rpf_recursive] *)

(** How [subprocess.run(..., check=True, timeout=300)] ends.  [str_e] is
    the text of the exception. *)
Inductive run_outcome : Type :=
| Completed
| TimeoutExpired
| CalledProcessError (stderr : list byte) (str_e : string)
| FileNotFoundError
| OtherException (str_e : string).

(** The triple the function returns: the tally or [None], the error message
    or [None], the nested containers that were absorbed. *)
Definition result : Type := option tally * option string * list path.

Definition newline : string := String (ascii_of_nat 10) EmptyString.

(** Lines 286-288. *)
Definition add_tally (m r : tally) : tally :=
  mkTally (stream m + stream r) (data m + data r) (skipped m + skipped r).

(** Lines 285-292: what one nested call contributes to [moved_files] and
    to [successfully_extracted_rpfs]. *)
Definition merge_nested (nested_rpf : path) (nested_result : option tally)
  (nested_extracted_rpfs : list path) (acc : tally * list path)
  : tally * list path :=
  match nested_result with
  | Some r =>
      let m := add_tally (fst acc) r in
      if (0 <? stream r) || (0 <? data r)
      then (m, snd acc ++ [nested_rpf] ++ nested_extracted_rpfs)
      else (m, snd acc)
  | None => acc
  end.

(** The scratch directory of a nested container. *)
Definition temp_extract_dir (rpf_file : path) : path :=
  join (dirname rpf_file) ("_temp_" ++ basename rpf_file ++ "_extract")%string.

(** Lines 294-299: [shutil.rmtree] raises on what is no directory, and the
    handler prints a warning and goes on. *)
Definition cleanup_nested (nested_rpf : path) (w : world) : world :=
  let nested_extract_dir := temp_extract_dir nested_rpf in
  if Fs.exists_ nested_extract_dir (fs w)
  then
    if Fs.isdir nested_extract_dir (fs w)
    then emit (EvRmtree nested_extract_dir)
           (set_fs (Fs.rmtree nested_extract_dir (fs w)) w)
    else w
  else w.

(** Lines 264-268: the containers below [base_dir]. *)
Definition find_nested_rpfs (base_dir : path) (f : Fs.t) : list path :=
  flat_map
    (fun e : path * list string * list string =>
       let '(root, _, files) := e in
       map (join root)
         (filter (fun f => Str.endswith ".rpf" (Str.lower f)) files))
    (Fs.os_walk base_dir f).

(** The contribution of one nested call as a single value, and the
    accumulation over a sequence of them. *)
Definition nested_outcome : Type := path * option tally * list path.

Definition merge_outcome (acc : tally * list path) (o : nested_outcome)
  : tally * list path :=
  let '(nested_rpf, nested_result, nested_extracted_rpfs) := o in
  merge_nested nested_rpf nested_result nested_extracted_rpfs acc.

(** The counts a nested result adds to the caller's dictionary. *)
Definition counted (nested_result : option tally) : tally :=
  match nested_result with Some r => r | None => no_moves end.

(** The test of line 290 on a nested result. *)
Definition moved_any (nested_result : option tally) : bool :=
  match nested_result with
  | Some r => (0 <? stream r) || (0 <? data r)
  | None => false
  end.

(** The paths a nested call adds to [successfully_extracted_rpfs]. *)
Definition absorbed_by (o : nested_outcome) : list path :=
  let '(nested_rpf, nested_result, nested_extracted_rpfs) := o in
  if moved_any nested_result then nested_rpf :: nested_extracted_rpfs else [].

Section Extractor.

Variable medium : path -> list byte -> copy_outcome.

(** The external tool: what running [rpf_cli extract rpf_file] in the
    directory of [rpf_file] does to the file system and how it ends. *)
Variable subprocess_run : string -> path -> Fs.t -> run_outcome * Fs.t.

(** [bytes.decode('utf-8', errors='ignore')] *)
Variable decode_utf8 : list byte -> string.

(** Lines 228-246: where the decoded tree is looked for; [Uncaught] when
    [os.listdir] raises. *)
Definition locate_base_dir (rpf_file extraction_dir : path) (f : Fs.t)
  : outcome (option path) :=
  let possible_dirs :=
    [extraction_dir;
     join (dirname rpf_file) "dlc";
     join (dirname rpf_file) (fst (splitext (basename rpf_file)))] in
  match find (fun d => Fs.exists_ d f) possible_dirs with
  | Some d => Return (Some d)
  | None =>
      let rpf_dir := dirname rpf_file in
      match Fs.listdir rpf_dir f with
      | None => Uncaught
      | Some items =>
          Return
            (option_map (join rpf_dir)
               (find (fun item =>
                        Fs.isdir (join rpf_dir item) f
                        && negb (Str.mem item ["stream"; "data"]))
                  items))
      end
  end.

(** Lines 273-299, for a given way [self] of making the recursive call. *)
Fixpoint nested_loop (self : path -> world -> outcome result * world)
  (progress_callback : bool) (count idx : nat) (nested_rpfs : list path)
  (acc : tally * list path) (w : world)
  : outcome (tally * list path) * world :=
  match nested_rpfs with
  | [] => (Return acc, w)
  | nested_rpf :: rest =>
      let w1 :=
        report progress_callback (idx + 1) count
          ("Processing nested RPF " ++ Str.of_nat (idx + 1) ++ "/"
             ++ Str.of_nat count ++ ": " ++ basename nested_rpf)%string w in
      match self nested_rpf w1 with
      | (Return (nested_result, _, nested_extracted_rpfs), w2) =>
          nested_loop self progress_callback count (idx + 1) rest
            (merge_nested nested_rpf nested_result nested_extracted_rpfs acc)
            (cleanup_nested nested_rpf w2)
      | (Uncaught, w2) => (Uncaught, w2)
      | (OutOfFuel, w2) => (OutOfFuel, w2)
      end
  end.

(** The triples the recursive calls of the loop hand back, in order. *)
Fixpoint nested_outcomes (self : path -> world -> outcome result * world)
  (progress_callback : bool) (count idx : nat) (nested_rpfs : list path)
  (w : world) : list nested_outcome :=
  match nested_rpfs with
  | [] => []
  | nested_rpf :: rest =>
      let w1 :=
        report progress_callback (idx + 1) count
          ("Processing nested RPF " ++ Str.of_nat (idx + 1) ++ "/"
             ++ Str.of_nat count ++ ": " ++ basename nested_rpf)%string w in
      match self nested_rpf w1 with
      | (Return (nested_result, _, nested_extracted_rpfs), w2) =>
          (nested_rpf, nested_result, nested_extracted_rpfs)
            :: nested_outcomes self progress_callback count (idx + 1) rest
                 (cleanup_nested nested_rpf w2)
      | _ => []
      end
  end.

(** Lines 257-301: the decoded tree is consolidated into the buckets, the
    nested containers are looked up and each one is extracted by [self]. *)
Definition organize_and_recurse
  (self : path -> world -> outcome result * world)
  (base_dir stream_dir data_dir : path) (progress_callback : bool)
  (w2 : world) : outcome result * world :=
  let w3 :=
    report progress_callback 0 100 "Organizing extracted files..." w2 in
  let (moved, w4) :=
    move_files medium base_dir stream_dir data_dir progress_callback w3 in
  let nested_rpfs := find_nested_rpfs base_dir (fs w4) in
  let count := List.length nested_rpfs in
  let w5 :=
    match nested_rpfs with
    | [] => w4
    | _ =>
        report progress_callback 0 count
          ("Found " ++ Str.of_nat count ++ " nested RPF files...")%string w4
    end in
  match
    nested_loop self progress_callback count 0 nested_rpfs (moved, []) w5
  with
  | (Return (moved', successfully_extracted_rpfs), w6) =>
      (Return (Some moved', None, successfully_extracted_rpfs), w6)
  | (Uncaught, w6) => (Uncaught, w6)
  | (OutOfFuel, w6) => (OutOfFuel, w6)
  end.

(** [extract_rpf_recursive(rpf_file, rpf_cli, output_dir, tool_type,
    progress_callback, is_nested)]; [tool_type] is not used by the
    function.  [fuel] bounds the depth of nesting that is followed. *)
Fixpoint extract_rpf_recursive (fuel : nat) (rpf_file : path)
  (rpf_cli : string) (output_dir : path) (progress_callback : bool)
  (is_nested : bool) (w : world) : outcome result * world :=
  match fuel with
  | 0 => (OutOfFuel, w)
  | S fuel' =>
      let w0 :=
        report progress_callback 0 100
          ("Extracting: " ++ basename rpf_file)%string w in
      let extraction_dir :=
        if is_nested then temp_extract_dir rpf_file
        else join (dirname rpf_file) "dlc" in
      let (ran, f1) := subprocess_run rpf_cli rpf_file (fs w0) in
      let w1 := emit (EvDecode rpf_file) (set_fs f1 w0) in
      match ran with
      | TimeoutExpired =>
          (Return (None, Some "Extraction timed out (5 minutes limit)", []),
           w1)
      | CalledProcessError stderr str_e =>
          let error_msg :=
            match stderr with [] => str_e | _ => decode_utf8 stderr end in
          (Return
             (None, Some ("Extraction failed:" ++ newline ++ error_msg)%string,
              []),
           w1)
      | FileNotFoundError =>
          (Return
             (None,
              Some "Extraction tool not found. Please check the tool path.",
              []),
           w1)
      | OtherException str_e =>
          (Return
             (None,
              Some ("Unexpected error during extraction: " ++ str_e)%string,
              []),
           w1)
      | Completed =>
          match locate_base_dir rpf_file extraction_dir (fs w1) with
          | Uncaught => (Uncaught, w1)
          | OutOfFuel => (OutOfFuel, w1)
          | Return None =>
              (Return
                 (None,
                  Some "No extracted content found. The RPF file may be empty or in an unsupported format.",
                  []),
               w1)
          | Return (Some base_dir) =>
              let '(dirs, w2) :=
                if negb is_nested then ensure_clean_dirs output_dir w1
                else (Return (join output_dir "stream",
                              join output_dir "data"), w1) in
              match dirs with
              | Uncaught => (Uncaught, w2)
              | OutOfFuel => (OutOfFuel, w2)
              | Return (stream_dir, data_dir) =>
                  organize_and_recurse
                    (fun nested_rpf =>
                       extract_rpf_recursive fuel' nested_rpf rpf_cli
                         output_dir false true)
                    base_dir stream_dir data_dir progress_callback w2
              end
          end
      end
  end.

End Extractor.

(** ** Events on the buckets *)

(** [q] is [p] or lies below it. *)
Definition below (p q : path) : Prop := exists r, q = p ++ r.

(** A bucket directory of [output_dir] is removed or created. *)
Definition resets_bucket (output_dir : path) (e : event) : Prop :=
  exists name,
    (name = "stream" \/ name = "data")
    /\ (e = EvRmtree (join output_dir name)
        \/ e = EvMakedirs (join output_dir name)).

(** The events that only add to the buckets of [output_dir]: the decoder
    is run, progress is reported, a scratch directory that holds neither
    bucket is removed, a file is created directly in one of the two bucket
    directories. *)
Definition adds_only (output_dir : path) (e : event) : Prop :=
  match e with
  | EvDecode _ => True
  | EvProgress _ _ _ => True
  | EvRmtree p =>
      (exists rpf_file, p = temp_extract_dir rpf_file)
      /\ ~ below p (join output_dir "stream")
      /\ ~ below p (join output_dir "data")
  | EvMakedirs _ => False
  | EvCreate p =>
      dirname p = join output_dir "stream" \/ dirname p = join output_dir "data"
  end.

(** [w'] continues the trace of [w] with events that all satisfy [P]. *)
Definition continues (P : event -> Prop) (w w' : world) : Prop :=
  exists new, trace w' = trace w ++ new /\ Forall P new.

(** ** Notions used to state further properties *)

(** The files of the directories that the walk of [move_files] does not
    pass over. *)
Definition visited_files (base_dir : path) (f : Fs.t) : nat :=
  list_sum
    (map (fun e : path * list string * list string => List.length (snd e))
       (filter (fun e => negb (is_ignored (fst (fst e))))
          (Fs.os_walk base_dir f))).

(** The number of files a tally accounts for. *)
Definition counted_files (m : tally) : nat := stream m + data m + skipped m.

(** The pairs (current, total) of the progress reports of a trace. *)
Fixpoint progress_marks (tr : list event) : list (nat * nat) :=
  match tr with
  | [] => []
  | EvProgress current total _ :: tr' => (current, total) :: progress_marks tr'
  | _ :: tr' => progress_marks tr'
  end.

(** The marks of [count] reports numbered from [from] on, when there is a
    callback. *)
Definition marks_from (cb : bool) (total from count : nat)
  : list (nat * nat) :=
  if cb then map (fun i => (i, total)) (seq from count) else [].

(** The test of line 267 on a file name. *)
Definition container_name (name : string) : bool :=
  Str.endswith ".rpf" (Str.lower name).

(** All the paths of a list have container names. *)
Definition containers (l : list path) : Prop :=
  Forall (fun p => container_name (basename p) = true) l.

(** No entry of the directory [d] has a container name. *)
Definition no_container_in (d : path) (f : Fs.t) : Prop :=
  forall name,
    container_name name = true -> Fs.exists_ (join d name) f = false.

(** The decoder puts no container into the directory [d]. *)
Definition spares
  (subprocess_run : string -> path -> Fs.t -> run_outcome * Fs.t) (d : path)
  : Prop :=
  forall rpf_cli rpf_file f,
    no_container_in d f ->
    no_container_in d (snd (subprocess_run rpf_cli rpf_file f)).

(** ** The file operations of [extraction_thread] *)

Module Gui.

Import Fs.

(** [os.remove(p)]; [None] when the call raises: there is no such file, or
    [p] is a directory. *)
Fixpoint remove (p : path) (n : node) : option node :=
  match p, n with
  | [], _ => None
  | _, File _ => None
  | [c], Dir es =>
      match assoc c es with
      | Some (File _) => Some (Dir (del_entry c es))
      | _ => None
      end
  | c :: p', Dir es =>
      match assoc c es with
      | Some n' =>
          option_map (fun n'' => Dir (set_entry c n'' es)) (remove p' n')
      | None => None
      end
  end.


(** One turn of [for extracted_rpf in extracted_rpfs], lines 497-508. *)
Definition prune_step (stream_dir : path) (f : Fs.t) (extracted_rpf : path)
  : Fs.t :=
  let rpf_name := basename extracted_rpf in
  let stream_rpf_path := join stream_dir rpf_name in
  if exists_ stream_rpf_path f then
    match remove stream_rpf_path f with
    | Some f' => f'
    | None => f
    end
  else f.

(** Lines 493-508: the absorbed containers are removed from the stream
    bucket, when something was moved. *)
Definition prune_absorbed (output_dir : path) (result : option tally)
  (extracted_rpfs : list path) (f : Fs.t) : Fs.t :=
  if moved_any result then
    fold_left (prune_step (join output_dir "stream")) extracted_rpfs f
  else f.

(** The test of line 519 on a directory entry. *)
Definition scratch_name (item : string) : bool :=
  Str.startswith "_temp_" item && Str.endswith "_extract" item.



End Gui.

(** No component of the path is the name of a scratch directory. *)
Definition scratch_free (p : path) : Prop :=
  Forall (fun c => Gui.scratch_name c = false) p.

(** What [f] has in the directory [d] is still there in [f']: [d] is a
    directory if it was one, and every file that lies directly in it has
    its content. *)
Definition bucket_kept (d : path) (f f' : Fs.t) : Prop :=
  (Fs.isdir d f = true -> Fs.isdir d f' = true)
  /\ forall name x,
      Fs.read (join d name) f = Some x -> Fs.read (join d name) f' = Some x.

(** The decoder leaves the directory [d] and the files in it alone. *)
Definition decoder_keeps
  (subprocess_run : string -> path -> Fs.t -> run_outcome * Fs.t) (d : path)
  : Prop :=
  forall rpf_cli rpf_file f,
    bucket_kept d f (snd (subprocess_run rpf_cli rpf_file f)).

(** ** Concrete trees used in the examples *)

Module Examples.

Import Fs.

Definition two_bytes : list byte := [x01; x02]%byte.

(** A decoded tree [w/dlc] with one asset below [audio], and empty
    buckets below [out]. *)
Definition audio_tree : Fs.t :=
  Dir [("w", Dir [("dlc", Dir [("audio", Dir [("s.awc", File two_bytes)])])]);
       ("out", Dir [("stream", Dir []); ("data", Dir [])])].

(** A stream bucket that already holds [x.ydr]. *)
Definition bucket_with_x : Fs.t :=
  Dir [("out", Dir [("stream", Dir [("x.ydr", File two_bytes)]);
                    ("data", Dir [])])].

(** A decoded tree [w/dlc] with one stream asset, and empty buckets. *)
Definition one_asset_tree : Fs.t :=
  Dir [("w", Dir [("dlc", Dir [("a.yft", File two_bytes)])]);
       ("out", Dir [("stream", Dir []); ("data", Dir [])])].

(** A medium on which only the first byte of every file arrives. *)
Definition truncating_medium (dest : path) (bytes : list byte)
  : copy_outcome :=
  Copied (firstn 1 bytes).

(** A decoder that exits with a non-zero status and the diagnostic
    [bad archive] on its error stream, touching nothing. *)
Definition failing_decoder (rpf_cli : string) (rpf_file : path) (f : Fs.t)
  : run_outcome * Fs.t :=
  (CalledProcessError (list_byte_of_string "bad archive")
     "Command returned non-zero exit status 1.", f).

(** Decoding of a diagnostic made of ASCII bytes. *)
Definition decode_ascii (bytes : list byte) : string :=
  string_of_list_byte bytes.

(** A decoder that has nothing to do: the decoded tree is already in
    place. *)
Definition idle_decoder (rpf_cli : string) (rpf_file : path) (f : Fs.t)
  : run_outcome * Fs.t :=
  (Completed, f).

(** A decoded tree with assets in an ordinary, an important and an ignored
    directory, a nested container and a file of unknown kind. *)
Definition mixed_tree : Fs.t :=
  Dir [("w", Dir [("dlc", Dir [("a.yft", File two_bytes);
                               ("b.meta", File two_bytes);
                               ("c.rpf", File two_bytes);
                               ("z.txt", File two_bytes);
                               ("audio", Dir [("s.awc", File two_bytes)]);
                               ("vehicles", Dir [("v.txt", File two_bytes)])]);
                  ("top.rpf", File two_bytes)]);
       ("out", Dir [("stream", Dir [("old.ydr", File two_bytes)]);
                    ("data", Dir []);
                    ("notes.txt", File two_bytes)])].

(** A decoded tree without any file, and a stream bucket left over from
    an earlier run. *)
Definition empty_decoded_tree : Fs.t :=
  Dir [("w", Dir [("dlc", Dir [("x64", Dir [])])]);
       ("out", Dir [("stream", Dir [("old.ydr", File two_bytes)])])].

(** A decoder that puts one stream asset into the scratch directory of the
    container. *)
Definition scratch_decoder (rpf_cli : string) (rpf_file : path) (f : Fs.t)
  : run_outcome * Fs.t :=
  match Fs.makedirs (temp_extract_dir rpf_file) f with
  | Some f1 =>
      match Fs.write_file (join (temp_extract_dir rpf_file) "d.ydr")
              two_bytes f1 with
      | Some f2 => (Completed, f2)
      | None => (OtherException "cannot write", f)
      end
  | None => (OtherException "cannot create", f)
  end.

(** A decoder that unpacks every container below [w] into its scratch
    directory, where it leaves one stream asset; other containers are
    taken as they are. *)
Definition unpacking_decoder (rpf_cli : string) (rpf_file : path) (f : Fs.t)
  : run_outcome * Fs.t :=
  match rpf_file with
  | c :: _ :: _ =>
      if String.eqb c "w" then scratch_decoder rpf_cli rpf_file f
      else (Completed, f)
  | _ => (Completed, f)
  end.

(** Two sources called [x.ydr] and a stream bucket that already holds a
    file of that name. *)
Definition collision_tree : Fs.t :=
  Dir [("w", Dir [("a", Dir [("x.ydr", File two_bytes)]);
                  ("b", Dir [("x.ydr", File [x03]%byte)])]);
       ("out", Dir [("stream", Dir [("x.ydr", File [x09]%byte)]);
                    ("data", Dir [])])].

(** The same with [x_1.ydr] taken as well. *)
Definition taken_tree : Fs.t :=
  Dir [("w", Dir [("a", Dir [("x.ydr", File two_bytes)])]);
       ("out", Dir [("stream", Dir [("x.ydr", File [x09]%byte);
                                    ("x_1.ydr", File [x08]%byte)]);
                    ("data", Dir [])])].

(** An output directory that lies in the scratch directory of a
    container [d.rpf], itself inside the scratch directory of [c.rpf]. *)
Definition scratch_output_tree : Fs.t :=
  Dir [("w",
        Dir [("c.rpf", File two_bytes);
             ("_temp_c.rpf_extract",
              Dir [("d.rpf", File two_bytes);
                   ("_temp_d.rpf_extract",
                    Dir [("out",
                          Dir [("stream", Dir [("old.txt", File two_bytes)]);
                               ("data", Dir [])])])])])].

(** A file without a dot in its name below an important folder. *)
Definition dotless_tree : Fs.t :=
  Dir [("w", Dir [("dlc", Dir [("vehicles", Dir [("meta", File two_bytes)])])]);
       ("out", Dir [("stream", Dir []); ("data", Dir [])])].

End Examples.

(** * Properties *)

(** ** The result aggregation *)

Module Aggregation.

Lemma add_tally_comm (a b : tally) : add_tally a b = add_tally b a.
Proof. unfold add_tally. f_equal; apply Nat.add_comm. Qed.

Lemma add_tally_assoc (a b c : tally) :
  add_tally (add_tally a b) c = add_tally a (add_tally b c).
Proof. unfold add_tally; simpl. f_equal; symmetry; apply Nat.add_assoc. Qed.

Lemma add_tally_zero (a : tally) : add_tally a no_moves = a.
Proof. destruct a; unfold add_tally; simpl. f_equal; apply Nat.add_0_r. Qed.

Lemma merge_nested_eq (nested_rpf : path) (res : option tally)
  (ex : list path) (acc : tally * list path) :
  merge_nested nested_rpf res ex acc =
  (add_tally (fst acc) (counted res),
   snd acc ++ absorbed_by (nested_rpf, res, ex)).
Proof.
  destruct acc as [m l]; destruct res as [r|]; simpl.
  - destruct ((0 <? stream r) || (0 <? data r)); simpl; trivial.
    now rewrite app_nil_r.
  - now rewrite add_tally_zero, app_nil_r.
Qed.

Lemma fold_merge_eq (outs : list nested_outcome) :
  forall acc,
    fold_left merge_outcome outs acc =
    (fold_left add_tally (map (fun o => counted (snd (fst o))) outs) (fst acc),
     snd acc ++ flat_map absorbed_by outs).
Proof.
  induction outs as [|[[rpf res] ex] outs IH]; intros [m l]; simpl.
  - now rewrite app_nil_r.
  - rewrite IH, merge_nested_eq; simpl. now rewrite <- app_assoc.
Qed.

Lemma fold_add_tally_start (ts : list tally) :
  forall a, fold_left add_tally ts a = add_tally a (fold_left add_tally ts no_moves).
Proof.
  induction ts as [|t ts IH]; intros a; simpl.
  - now rewrite add_tally_zero.
  - rewrite IH, (IH (add_tally no_moves t)).
    rewrite <- add_tally_assoc.
    now rewrite (add_tally_comm no_moves t), add_tally_zero.
Qed.

Lemma fold_add_tally_perm (ts ts' : list tally) :
  Permutation ts ts' ->
  forall a, fold_left add_tally ts a = fold_left add_tally ts' a.
Proof.
  induction 1 as [|t ts ts' _ IH|t u ts|ts ts' ts'' _ IH1 _ IH2];
    intros a; simpl.
  - reflexivity.
  - apply IH.
  - f_equal. rewrite !add_tally_assoc. f_equal. apply add_tally_comm.
  - now rewrite IH1.
Qed.

End Aggregation.

(** ** The loop over the nested containers *)

Section NestedLoop.

Variable self : path -> world -> outcome result * world.
Variable progress_callback : bool.
Variable count : nat.

(** When the loop runs to its end, what it accumulated is the fold of
    [merge_nested] over the triples of the recursive calls, in order. *)
Lemma nested_loop_fold (nested_rpfs : list path) :
  forall idx acc w acc' w',
    nested_loop self progress_callback count idx nested_rpfs acc w
    = (Return acc', w') ->
    acc' = fold_left merge_outcome
             (nested_outcomes self progress_callback count idx nested_rpfs w)
             acc
    /\ map (fun o : nested_outcome => fst (fst o))
         (nested_outcomes self progress_callback count idx nested_rpfs w)
       = nested_rpfs.
Proof.
  induction nested_rpfs as [|rpf rest IH]; intros idx acc w acc' w' H;
    simpl in *.
  - inversion H; subst; auto.
  - destruct (self rpf _) as [[[[res err] ex]| |] w2]; try discriminate.
    apply IH in H as [-> Hm]. simpl. now rewrite Hm.
Qed.

End NestedLoop.



(** C8: merging tallies adds the three counts field by field; the merge is
    commutative and associative, so three outcomes merged in any order or
    grouping give the same counts; the absorbed lists are concatenated in
    the order in which the outcomes are merged. *)
Theorem tally_merge_laws :
  (forall a b : tally,
      add_tally a b =
      mkTally (stream a + stream b) (data a + data b) (skipped a + skipped b))
  /\ (forall a b, add_tally a b = add_tally b a)
  /\ (forall a b c, add_tally (add_tally a b) c = add_tally a (add_tally b c))
  /\ (forall (A B C : nested_outcome) acc,
         let total l := fst (fold_left merge_outcome l acc) in
         total [A; B; C] = total [A; C; B]
         /\ total [A; B; C] = total [B; A; C]
         /\ total [A; B; C] = total [B; C; A]
         /\ total [A; B; C] = total [C; A; B]
         /\ total [A; B; C] = total [C; B; A]
         /\ total [A; B; C] =
            add_tally (fst acc)
              (add_tally (counted (snd (fst A)))
                 (add_tally (counted (snd (fst B))) (counted (snd (fst C))))))
  /\ (forall (outs : list nested_outcome) acc,
         snd (fold_left merge_outcome outs acc)
         = snd acc ++ flat_map absorbed_by outs).
Proof.
  split; [reflexivity|].
  split; [apply Aggregation.add_tally_comm|].
  split; [apply Aggregation.add_tally_assoc|].
  split.
  - intros A B C acc total. unfold total.
    rewrite !Aggregation.fold_merge_eq; simpl.
    set (a := counted (snd (fst A))). set (b := counted (snd (fst B))).
    set (c := counted (snd (fst C))). set (m := fst acc).
    unfold add_tally; simpl.
    repeat split; f_equal; lia.
  - intros outs acc. now rewrite Aggregation.fold_merge_eq.
Qed.

(** ** Facts about the string primitives *)

Module StrFacts.

Lemma app_empty_r (s : string) : (s ++ "")%string = s.
Proof. induction s; simpl; congruence. Qed.

Lemma app_assoc (s t u : string) :
  ((s ++ t) ++ u)%string = (s ++ (t ++ u))%string.
Proof. induction s; simpl; congruence. Qed.

Lemma length_app (s t : string) :
  String.length (s ++ t) = String.length s + String.length t.
Proof. induction s; simpl; congruence. Qed.

Lemma app_inv_head (s t u : string) :
  (s ++ t)%string = (s ++ u)%string -> t = u.
Proof. induction s; simpl; intros H; [assumption|]. inversion H; auto. Qed.

Lemma app_inv_tail (u : string) :
  forall s t, (s ++ u)%string = (t ++ u)%string -> s = t.
Proof.
  induction s as [|a s IH]; intros [|b t] H; simpl in *.
  - reflexivity.
  - apply (f_equal String.length) in H. simpl in H.
    rewrite length_app in H. lia.
  - apply (f_equal String.length) in H. simpl in H.
    rewrite length_app in H. lia.
  - inversion H; subst. f_equal. now apply IH.
Qed.

Lemma lower_app (s t : string) :
  Str.lower (s ++ t) = (Str.lower s ++ Str.lower t)%string.
Proof. induction s; simpl; congruence. Qed.

Lemma lower_ascii_dot (c : ascii) :
  Ascii.eqb (Str.lower_ascii c) "."%char = Ascii.eqb c "."%char.
Proof. destruct c as [[] [] [] [] [] [] [] []]; reflexivity. Qed.

Lemma has_dot_lower (s : string) :
  Str.has_char "."%char (Str.lower s) = Str.has_char "."%char s.
Proof.
  induction s as [|a s IH]; simpl; [reflexivity|].
  now rewrite lower_ascii_dot, IH.
Qed.

Lemma split_not_nil (c : ascii) (s : string) : Str.split c s <> [].
Proof.
  induction s as [|a s IH]; simpl; [discriminate|].
  destruct (Ascii.eqb a c); [discriminate|].
  destruct (Str.split c s); [contradiction|discriminate].
Qed.

(** A string without the separator is its own single segment. *)
Lemma split_no_sep (c : ascii) (s : string) :
  Str.has_char c s = false -> Str.split c s = [s].
Proof.
  induction s as [|a s IH]; simpl; [reflexivity|].
  intros H. apply orb_false_iff in H as [Ha Hs].
  rewrite Ha, (IH Hs). reflexivity.
Qed.

(** The last segment only depends on what follows the last separator. *)
Lemma last_split_app (c : ascii) (s t d : string) :
  last (Str.split c (s ++ String c t)) d = last (Str.split c t) d.
Proof.
  induction s as [|a s IH]; simpl.
  - rewrite Ascii.eqb_refl.
    destruct (Str.split c t) eqn:E; [now apply split_not_nil in E|reflexivity].
  - destruct (Ascii.eqb a c).
    + destruct (Str.split c (s ++ String c t)) eqn:E;
        [now apply split_not_nil in E|]. exact IH.
    + destruct (Str.split c (s ++ String c t)) as [|h [|h' tl]] eqn:E.
      * now apply split_not_nil in E.
      * simpl in *. rewrite <- IH.
        (* a single segment would not contain the separator *)
        exfalso. clear IH.
        assert (Hc : forall u, Str.split c u = [h] -> u = h).
        { clear. induction u as [|b u IHu] in h |- *; simpl.
          - congruence.
          - destruct (Ascii.eqb b c); [|].
            + destruct (Str.split c u) eqn:E;
                [now apply split_not_nil in E|discriminate].
            + destruct (Str.split c u) as [|h1 [|]] eqn:E;
                try discriminate.
              * now apply split_not_nil in E.
              * intros H; inversion H; subst. f_equal. now apply IHu. }
        assert (Hn : forall u, Str.split c u = [u] -> Str.has_char c u = false).
        { clear. induction u as [|b u IHu]; simpl; [reflexivity|].
          destruct (Ascii.eqb b c); [|].
          - destruct (Str.split c u) eqn:E;
              [now apply split_not_nil in E|discriminate].
          - destruct (Str.split c u) as [|h1 [|]] eqn:E; try discriminate.
            + now apply split_not_nil in E.
            + intros H; inversion H; subst. now apply IHu. }
        pose proof (Hc _ E) as Heq. rewrite <- Heq in E.
        apply Hn in E. clear - E.
        induction s as [|b s IHs]; simpl in E.
        -- now rewrite Ascii.eqb_refl in E.
        -- apply orb_false_iff in E as [_ E]. auto.
      * exact IH.
Qed.

Lemma startswith_app (p s t : string) :
  Str.startswith p s = true -> Str.startswith p (s ++ t) = true.
Proof.
  revert s; induction p as [|a p IH]; intros [|b s]; simpl; try easy.
  intros H. apply andb_true_iff in H as [-> H]. simpl. auto.
Qed.

(** What a text contains, every extension of it contains. *)
Lemma contains_app (sub s t : string) :
  Str.contains sub s = true -> Str.contains sub (s ++ t) = true.
Proof.
  induction s as [|a s IH]; simpl.
  - rewrite orb_false_r. intros H.
    destruct sub; [|discriminate]. destruct t; reflexivity.
  - intros H. apply orb_true_iff in H as [H|H].
    + apply (startswith_app _ _ t) in H. simpl in H. now rewrite H.
    + rewrite (IH H). apply orb_true_r.
Qed.

Lemma substring_all (t : string) : String.substring 0 (String.length t) t = t.
Proof. induction t as [|a t IH]; simpl; congruence. Qed.

Lemma substring_app_tail (s t : string) :
  String.substring (String.length s) (String.length t) (s ++ t) = t.
Proof. induction s as [|a s IH]; simpl; [apply substring_all|exact IH]. Qed.

(** A text ends with what was appended to it. *)
Lemma endswith_app (s t : string) : Str.endswith t (s ++ t) = true.
Proof.
  unfold Str.endswith. rewrite length_app.
  replace (String.length s + String.length t - String.length t)
    with (String.length s) by lia.
  rewrite substring_app_tail, String.eqb_refl.
  replace (String.length t <=? String.length s + String.length t) with true
    by (symmetry; apply Nat.leb_le; lia).
  reflexivity.
Qed.

(** [str] of a number determines the number. *)
Lemma of_nat_inj (n m : nat) : Str.of_nat n = Str.of_nat m -> n = m.
Proof.
  unfold Str.of_nat. intros H.
  apply (f_equal NilEmpty.uint_of_string) in H.
  rewrite !NilEmpty.usu in H. inversion H.
  now apply Unsigned.to_uint_inj.
Qed.

End StrFacts.

(** ** Classification *)

Module Classification.

Lemma path_str_join (top : path) (c : string) :
  top <> [] ->
  path_str (join top c) = (path_str top ++ os_sep ++ c)%string.
Proof.
  unfold path_str, join.
  induction top as [|a top IH]; [congruence|]. intros _.
  destruct top as [|b top]; simpl in *.
  - reflexivity.
  - rewrite IH by discriminate. now rewrite !StrFacts.app_assoc.
Qed.

(** A name found in the text of a directory is found in the text of
    everything below it. *)
Lemma any_folder_in_join (names : list string) (top : path) (c : string) :
  top <> [] ->
  any_folder_in names top = true -> any_folder_in names (join top c) = true.
Proof.
  intros Hne. unfold any_folder_in. rewrite !existsb_exists.
  intros (name & Hin & Hc). exists name. split; [assumption|].
  rewrite path_str_join, StrFacts.lower_app by assumption.
  now apply StrFacts.contains_app.
Qed.

Lemma is_ignored_join (top : path) (c : string) :
  is_ignored top = true -> is_ignored (join top c) = true.
Proof.
  intros H. apply any_folder_in_join; [|exact H].
  intros ->. discriminate H.
Qed.

Lemma is_important_join (top : path) (c : string) :
  is_important top = true -> is_important (join top c) = true.
Proof.
  intros H. apply any_folder_in_join; [|exact H].
  intros ->. discriminate H.
Qed.

End Classification.

(** ** Induction over the file tree *)

Module FsFacts.

Import Fs.


Lemma walk_dir (top : path) (es : list (string * node)) :
  walk top (Dir es) = (top, subdirs es, files es) :: walk_below top es.
Proof.
  simpl. f_equal. induction es as [|[c n'] es IH]; simpl; congruence.
Qed.

(** Every directory that [walk] meets below an ignored directory is
    ignored too. *)
Lemma walk_ignored (n : node) :
  forall top e,
    is_ignored top = true -> In e (walk top n) ->
    is_ignored (fst (fst e)) = true.
Proof.
  induction n as [d|es IH] using node_induction; intros top e Hi Hin.
  - contradiction.
  - rewrite walk_dir in Hin. destruct Hin as [<-|Hin]; [exact Hi|].
    induction es as [|[c n'] es IHes]; simpl in Hin; [contradiction|].
    inversion IH as [|? ? Hn' Hes]; subst.
    apply in_app_or in Hin as [Hin|Hin].
    + apply (Hn' (join top c) e); [|exact Hin].
      now apply Classification.is_ignored_join.
    + now apply IHes.
Qed.


Lemma assoc_set_same (c : string) (x : node) (es : list (string * node)) :
  assoc c (set_entry c x es) = Some x.
Proof.
  induction es as [|[k m] es IH]; simpl.
  - now rewrite String.eqb_refl.
  - destruct (String.eqb k c) eqn:E; simpl.
    + now rewrite String.eqb_refl.
    + now rewrite E.
Qed.

Lemma assoc_set_other (c c' : string) (x : node) (es : list (string * node)) :
  c' <> c -> assoc c' (set_entry c x es) = assoc c' es.
Proof.
  intros Hne. induction es as [|[k m] es IH]; simpl.
  - apply String.eqb_neq in Hne. rewrite String.eqb_sym. now rewrite Hne.
  - destruct (String.eqb k c) eqn:E; simpl.
    + apply String.eqb_eq in E; subst k.
      assert (E' : String.eqb c c' = false)
        by (apply String.eqb_neq; congruence).
      now rewrite E'.
    + destruct (String.eqb k c'); auto.
Qed.

Lemma assoc_in (c : string) (es : list (string * node)) (x : node) :
  assoc c es = Some x -> In c (map fst es).
Proof.
  induction es as [|[k m] es IH]; simpl; [discriminate|].
  destruct (String.eqb k c) eqn:E.
  - apply String.eqb_eq in E. auto.
  - auto.
Qed.

Lemma lookup_app (p q : path) :
  forall n,
    lookup (p ++ q) n =
    match lookup p n with Some n1 => lookup q n1 | None => None end.
Proof.
  induction p as [|c p IH]; intros n; simpl; [reflexivity|].
  destruct n as [d|es]; [reflexivity|].
  destruct (assoc c es); [apply IH|reflexivity].
Qed.

Lemma lookup_file_below (q : path) (d : list byte) :
  q <> [] -> lookup q (File d) = None.
Proof. destruct q; [congruence|reflexivity]. Qed.

(** What exists in a directory is listed there. *)
Lemma exists_listed (d : path) (name : string) (f : Fs.t) :
  exists_ (join d name) f = true ->
  exists names, listdir d f = Some names /\ In name names.
Proof.
  unfold exists_, listdir, join. rewrite lookup_app.
  destruct (lookup d f) as [[c|es]|]; simpl; try discriminate.
  destruct (assoc name es) as [x|] eqn:E; [|discriminate].
  intros _. exists (map fst es). split; [reflexivity|].
  now apply assoc_in in E.
Qed.

Lemma write_file_leaf (c : string) (d : list byte) (es : list (string * node)) :
  write_file [c] d (Dir es) =
  match assoc c es with
  | Some (Dir _) => None
  | _ => Some (Dir (set_entry c (File d) es))
  end.
Proof. reflexivity. Qed.

Lemma write_file_inner (c c2 : string) (p : path) (d : list byte)
  (es : list (string * node)) :
  write_file (c :: c2 :: p) d (Dir es) =
  match assoc c es with
  | Some n1 =>
      option_map (fun n'' => Dir (set_entry c n'' es))
        (write_file (c2 :: p) d n1)
  | None => None
  end.
Proof. reflexivity. Qed.

Lemma write_file_on_file (p : path) (d d0 : list byte) :
  write_file p d (File d0) = None.
Proof. destruct p as [|c [|c2 p]]; reflexivity. Qed.

(** After a successful write the file is there and holds what was
    written. *)
Lemma lookup_write_same (p : path) (d : list byte) :
  forall n n', write_file p d n = Some n' -> lookup p n' = Some (File d).
Proof.
  induction p as [|c p IH]; intros n n' H; [discriminate|].
  destruct n as [d0|es]; [now rewrite write_file_on_file in H|].
  destruct p as [|c2 p].
  - rewrite write_file_leaf in H.
    assert (n' = Dir (set_entry c (File d) es)) as ->
        by (destruct (assoc c es) as [[|]|]; congruence).
    cbn [lookup]. now rewrite assoc_set_same.
  - rewrite write_file_inner in H.
    destruct (assoc c es) as [n1|]; [|discriminate].
    destruct (write_file (c2 :: p) d n1) as [n1'|] eqn:E; [|discriminate].
    cbn [option_map] in H. inversion H; subst.
    cbn [lookup]. rewrite assoc_set_same. now apply (IH n1).
Qed.

(** A successful write leaves every other file as it was. *)
Lemma read_write_other (p : path) (d : list byte) :
  forall n n' q x,
    write_file p d n = Some n' -> q <> p ->
    read q n = Some x -> read q n' = Some x.
Proof.
  unfold read.
  induction p as [|c p IH]; intros n n' q x H Hne Hr; [discriminate|].
  destruct n as [d0|es]; [now rewrite write_file_on_file in H|].
  destruct q as [|c' q]; [discriminate|].
  destruct (String.eqb_spec c' c) as [->|Hc].
  - destruct p as [|c2 p].
    + rewrite write_file_leaf in H.
      assert (q <> []) as Hq by congruence.
      exfalso. cbn [lookup] in Hr.
      destruct (assoc c es) as [[d1|es1]|]; try discriminate.
      now rewrite lookup_file_below in Hr.
    + rewrite write_file_inner in H. cbn [lookup] in Hr.
      destruct (assoc c es) as [n1|]; [|discriminate].
      destruct (write_file (c2 :: p) d n1) as [n1'|] eqn:E; [|discriminate].
      cbn [option_map] in H. inversion H; subst.
      cbn [lookup]. rewrite assoc_set_same.
      apply (IH n1 n1' q x E); [congruence|exact Hr].
  - assert (exists y, n' = Dir (set_entry c y es)) as [y ->].
    { destruct p as [|c2 p].
      - rewrite write_file_leaf in H.
        destruct (assoc c es) as [[|]|]; inversion H; eauto.
      - rewrite write_file_inner in H.
        destruct (assoc c es) as [n1|]; [|discriminate].
        destruct (write_file (c2 :: p) d n1); inversion H; eauto. }
    cbn [lookup] in *. now rewrite assoc_set_other.
Qed.

(** A file that has been written can be written again. *)
Lemma write_again (p : path) (d d' : list byte) :
  forall n n',
    write_file p d n = Some n' -> exists n'', write_file p d' n' = Some n''.
Proof.
  induction p as [|c p IH]; intros n n' H; [discriminate|].
  destruct n as [d0|es]; [now rewrite write_file_on_file in H|].
  destruct p as [|c2 p].
  - rewrite write_file_leaf in H.
    assert (n' = Dir (set_entry c (File d) es)) as ->
        by (destruct (assoc c es) as [[|]|]; congruence).
    rewrite write_file_leaf, assoc_set_same. eauto.
  - rewrite write_file_inner in H.
    destruct (assoc c es) as [n1|]; [|discriminate].
    destruct (write_file (c2 :: p) d n1) as [n1'|] eqn:E; [|discriminate].
    cbn [option_map] in H. inversion H; subst.
    rewrite write_file_inner, assoc_set_same.
    destruct (IH _ _ E) as [n1'' ->]. cbn [option_map]. eauto.
Qed.

Lemma assoc_del_other (c c' : string) (es : list (string * node)) :
  c' <> c -> assoc c' (del_entry c es) = assoc c' es.
Proof.
  intros Hne. induction es as [|[k m] es IH]; simpl; [reflexivity|].
  destruct (String.eqb_spec k c) as [->|Hk]; simpl.
  - assert (E : String.eqb c c' = false)
      by (apply String.eqb_neq; congruence).
    now rewrite E.
  - now rewrite IH.
Qed.

Lemma rmtree_inner (c c2 : string) (p : path) (es : list (string * node)) :
  rmtree (c :: c2 :: p) (Dir es) =
  match assoc c es with
  | Some n1 => Dir (set_entry c (rmtree (c2 :: p) n1) es)
  | None => Dir es
  end.
Proof. reflexivity. Qed.

Lemma rmtree_on_file (p : path) (d : list byte) : rmtree p (File d) = File d.
Proof. destruct p as [|c [|c2 p]]; reflexivity. Qed.

(** Removing [d/a] leaves everything at and below a sibling [d/b] as it
    was. *)
Lemma lookup_rmtree_sibling (a b : string) (q : path) :
  a <> b ->
  forall d n,
    lookup (d ++ b :: q) (rmtree (d ++ [a]) n) = lookup (d ++ b :: q) n.
Proof.
  intros Hne. induction d as [|c d IH]; intros n.
  - destruct n as [x|es]; [reflexivity|]. simpl.
    rewrite assoc_del_other by congruence. reflexivity.
  - destruct n as [x|es]; [now rewrite rmtree_on_file|].
    rewrite <- !app_comm_cons. destruct (d ++ [a]) as [|c2 p] eqn:E;
      [now destruct d|].
    rewrite rmtree_inner. cbn [lookup].
    destruct (assoc c es) as [n1|] eqn:Ea.
    + cbn [lookup]. rewrite assoc_set_same. apply IH.
    + cbn [lookup]. now rewrite Ea.
Qed.

Lemma makedirs_on_file (p : path) (d : list byte) : makedirs p (File d) = None.
Proof. destruct p; reflexivity. Qed.

Lemma lookup_fresh_chain (p : path) : lookup p (fresh_chain p) = Some (Dir []).
Proof.
  induction p as [|c p IH]; [reflexivity|].
  cbn [fresh_chain lookup assoc]. now rewrite String.eqb_refl.
Qed.

Lemma lookup_fresh_chain_sibling (a b : string) (q : path) :
  a <> b ->
  forall d, lookup (d ++ b :: q) (fresh_chain (d ++ [a])) = None.
Proof.
  intros Hne. induction d as [|c d IH]; rewrite <- ?app_comm_cons, ?app_nil_l;
    cbn [fresh_chain lookup assoc].
  - assert (E : String.eqb a b = false) by now apply String.eqb_neq.
    now rewrite E.
  - now rewrite String.eqb_refl.
Qed.

(** A directory that has just been made is there and is empty. *)
Lemma lookup_makedirs_same (p : path) :
  forall n n', makedirs p n = Some n' -> lookup p n' = Some (Dir []).
Proof.
  induction p as [|c p IH]; intros n n' H; [discriminate|].
  destruct n as [x|es]; [discriminate|]. cbn [makedirs] in H.
  destruct (assoc c es) as [n1|].
  - destruct (makedirs p n1) as [n1'|] eqn:E; [|discriminate].
    cbn [option_map] in H. inversion H; subst.
    cbn [lookup]. rewrite assoc_set_same. now apply (IH n1).
  - inversion H; subst. cbn [lookup]. rewrite assoc_set_same.
    apply lookup_fresh_chain.
Qed.

(** Making [d/a] leaves everything at and below a sibling [d/b] as it
    was. *)
Lemma lookup_makedirs_sibling (a b : string) (q : path) :
  a <> b ->
  forall d n n',
    makedirs (d ++ [a]) n = Some n' ->
    lookup (d ++ b :: q) n' = lookup (d ++ b :: q) n.
Proof.
  intros Hne. induction d as [|c d IH]; intros n n' H.
  - destruct n as [x|es]; [discriminate|]. rewrite !app_nil_l in *.
    cbn [makedirs] in H.
    assert (exists y, n' = Dir (set_entry a y es)) as [y ->].
    { destruct (assoc a es) as [n1|]; [|inversion H; eauto].
      destruct (makedirs [] n1); discriminate. }
    cbn [lookup]. rewrite assoc_set_other by congruence. reflexivity.
  - destruct n as [x|es]; [discriminate|].
    rewrite <- !app_comm_cons in *.
    cbn [makedirs] in H. cbn [lookup].
    destruct (assoc c es) as [n1|] eqn:Ea.
    + destruct (makedirs (d ++ [a]) n1) as [n1'|] eqn:E; [|discriminate].
      cbn [option_map] in H. inversion H; subst.
      rewrite assoc_set_same. now apply (IH n1).
    + inversion H; subst. rewrite assoc_set_same.
      now apply lookup_fresh_chain_sibling.
Qed.

(** Writing [d/a] leaves everything at and below a sibling [d/b] as it
    was. *)
Lemma lookup_write_sibling (a b : string) (q : path) (x : list byte) :
  a <> b ->
  forall d n n',
    write_file (d ++ [a]) x n = Some n' ->
    lookup (d ++ b :: q) n' = lookup (d ++ b :: q) n.
Proof.
  intros Hne. induction d as [|c d IH]; intros n n' H.
  - destruct n as [y|es]; [discriminate|]. rewrite !app_nil_l in *.
    rewrite write_file_leaf in H.
    assert (n' = Dir (set_entry a (File x) es)) as ->
        by (destruct (assoc a es) as [[|]|]; congruence).
    cbn [lookup]. rewrite assoc_set_other by congruence. reflexivity.
  - destruct n as [y|es]; [now rewrite write_file_on_file in H|].
    rewrite <- !app_comm_cons in *.
    destruct (d ++ [a]) as [|c2 p] eqn:E; [now destruct d|].
    rewrite write_file_inner in H. cbn [lookup].
    destruct (assoc c es) as [n1|] eqn:Ea; [|discriminate].
    destruct (write_file (c2 :: p) x n1) as [n1'|] eqn:Ew; [|discriminate].
    cbn [option_map] in H. inversion H; subst.
    rewrite assoc_set_same. now apply (IH n1).
Qed.

End FsFacts.

(** ** What the mover does with a classified file *)

Section MoverClassification.

Variable medium : path -> list byte -> copy_outcome.
Variables stream_dir data_dir : path.

Lemma destination_dirs (important : bool) (ext file : string) (d1 d2 : path) :
  destination important ext file d1 d2 =
  match destination important ext file [] [] with
  | Some (_, BStream) => Some (join d1 file, BStream)
  | Some (_, BData) => Some (join d2 file, BData)
  | None => None
  end.
Proof.
  unfold destination.
  destruct (important || Str.mem ext STREAM_EXTENSIONS); [reflexivity|].
  destruct (Str.mem ext DATA_EXTENSIONS); reflexivity.
Qed.

(** In a directory that is not passed over, the body of [try] follows the
    verdict of [classify]. *)
Lemma try_body_classify (root : path) (file : string) (w : world) :
  is_ignored root = false ->
  try_body medium root (is_important root) stream_dir data_dir file w =
  match classify root file with
  | To b =>
      copy_checked medium file (join root file)
        (unique_dest (fs w) file
           (join (bucket_dir stream_dir data_dir b) file)) b w
  | _ => (SkippedFile, w)
  end.
Proof.
  intros Hi. unfold try_body, classify. rewrite Hi.
  destruct (String.eqb (file_ext file) "rpf"); [reflexivity|].
  rewrite (destination_dirs _ _ _ stream_dir data_dir).
  destruct (destination (is_important root) (file_ext file) file [] [])
    as [[d [|]]|]; reflexivity.
Qed.

(** A directory that is passed over leaves the state of the mover as it
    is. *)
Lemma move_dir_ignored (total : nat) (cb : bool) (st : mover)
  (root : path) (dirs files : list string) :
  is_ignored root = true ->
  move_dir medium stream_dir data_dir total cb st (root, dirs, files) = st.
Proof. intros H. unfold move_dir. now rewrite H. Qed.

Lemma fold_move_dir_ignored (total : nat) (cb : bool)
  (entries : list (path * list string * list string)) :
  forall st,
    Forall (fun e => is_ignored (fst (fst e)) = true) entries ->
    fold_left (move_dir medium stream_dir data_dir total cb) entries st = st.
Proof.
  induction entries as [|[[root dirs] files] entries IH]; intros st H;
    [reflexivity|].
  inversion H; subst. cbn [fold_left].
  rewrite move_dir_ignored by assumption. now apply IH.
Qed.

Lemma fold_move_dir_filter (total : nat) (cb : bool)
  (entries : list (path * list string * list string)) :
  forall st,
    fold_left (move_dir medium stream_dir data_dir total cb) entries st =
    fold_left (move_dir medium stream_dir data_dir total cb)
      (filter (fun e => negb (is_ignored (fst (fst e)))) entries) st.
Proof.
  induction entries as [|[[root dirs] files] entries IH]; intros st;
    [reflexivity|].
  cbn [filter fst]. destruct (is_ignored root) eqn:E; cbn [negb fold_left].
  - rewrite move_dir_ignored by assumption. apply IH.
  - apply IH.
Qed.

End MoverClassification.

(** C1, as the program has it: a file of a directory whose path contains
    an important-folder name, and no ignored-folder name, is sent to the
    stream bucket whatever its extension, also when the extension is not a
    stream extension, unless the extension is that of a container
    ([rpf]). *)
Theorem important_folder_goes_to_stream
  (medium : path -> list byte -> copy_outcome)
  (root stream_dir data_dir : path) (file : string) (w : world) :
  is_important root = true ->
  is_ignored root = false ->
  file_ext file <> "rpf" ->
  classify root file = To BStream
  /\ try_body medium root (is_important root) stream_dir data_dir file w
     = copy_checked medium file (join root file)
         (unique_dest (fs w) file (join stream_dir file)) BStream w.
Proof.
  intros Himp Hign Hext.
  assert (Hc : classify root file = To BStream).
  { unfold classify, destination. rewrite Hign, Himp; simpl.
    apply String.eqb_neq in Hext. now rewrite Hext. }
  split; [exact Hc|].
  rewrite try_body_classify by assumption. now rewrite Hc.
Qed.

Lemma important_folder_goes_to_stream_witness :
  classify ["dlc"; "vehicles"] "readme.txt" = To BStream
  /\ try_body faithful_medium ["dlc"; "vehicles"]
       (is_important ["dlc"; "vehicles"]) ["out"; "stream"] ["out"; "data"]
       "readme.txt" (mkWorld (Fs.Dir []) [])
     = copy_checked faithful_medium "readme.txt"
         (join ["dlc"; "vehicles"] "readme.txt")
         (unique_dest (Fs.Dir []) "readme.txt"
            (join ["out"; "stream"] "readme.txt"))
         BStream (mkWorld (Fs.Dir []) []).
Proof.
  apply (important_folder_goes_to_stream faithful_medium
           ["dlc"; "vehicles"] ["out"; "stream"] ["out"; "data"]
           "readme.txt" (mkWorld (Fs.Dir []) [])).
  - reflexivity.
  - reflexivity.
  - vm_compute. discriminate.
Defined.

(** The claim without the two exceptions fails: a container under an
    important folder is counted as skipped, not sent to the stream
    bucket. *)
Lemma important_folder_container_not_stream :
  ~ (is_important ["dlc"; "vehicles"] = true ->
     classify ["dlc"; "vehicles"] "x.rpf" = To BStream).
Proof. intros H. specialize (H eq_refl). vm_compute in H. discriminate. Qed.

(** C9, as the program has it: the extension is the lower-cased text
    after the last dot of the file name, and the whole lower-cased name
    when there is no dot; so, in a directory that is not passed over, a
    file called [meta] goes to the data bucket when the directory is not
    important and to the stream bucket when it is, one called [yft] goes
    to the stream bucket and one called [rpf] is counted as skipped like a
    container. *)
Theorem extension_is_text_after_last_dot :
  (forall a b : string,
      Str.has_char "."%char b = false ->
      file_ext (a ++ "." ++ b) = Str.lower b)
  /\ (forall file : string,
         Str.has_char "."%char file = false -> file_ext file = Str.lower file)
  /\ (forall medium root stream_dir data_dir w,
         is_important root = false ->
         try_body medium root (is_important root) stream_dir data_dir "meta" w
         = copy_checked medium "meta" (join root "meta")
             (unique_dest (fs w) "meta" (join data_dir "meta")) BData w)
  /\ (forall medium root stream_dir data_dir w,
         is_important root = true ->
         try_body medium root (is_important root) stream_dir data_dir "meta" w
         = copy_checked medium "meta" (join root "meta")
             (unique_dest (fs w) "meta" (join stream_dir "meta")) BStream w)
  /\ (forall medium root stream_dir data_dir w,
         try_body medium root (is_important root) stream_dir data_dir "yft" w
         = copy_checked medium "yft" (join root "yft")
             (unique_dest (fs w) "yft" (join stream_dir "yft")) BStream w)
  /\ (forall medium root stream_dir data_dir w,
         try_body medium root (is_important root) stream_dir data_dir "rpf" w
         = (SkippedFile, w))
  /\ (forall root,
         is_ignored root = false ->
         classify root "rpf" = Skip
         /\ classify root "yft" = To BStream
         /\ (is_important root = false -> classify root "meta" = To BData)
         /\ (is_important root = true -> classify root "meta" = To BStream)).
Proof.
  split; [|split; [|split; [|split; [|split; [|split]]]]].
  - intros a b Hb. unfold file_ext.
    rewrite StrFacts.lower_app. simpl Str.lower at 2.
    change (Str.lower_ascii ".") with "."%char.
    change (String "." (Str.lower b)) with (String "."%char (Str.lower b)).
    rewrite StrFacts.last_split_app.
    rewrite StrFacts.split_no_sep; [reflexivity|].
    now rewrite StrFacts.has_dot_lower.
  - intros file Hf. unfold file_ext.
    rewrite StrFacts.split_no_sep; [reflexivity|].
    now rewrite StrFacts.has_dot_lower.
  - intros medium root sd dd w Hi. rewrite Hi. reflexivity.
  - intros medium root sd dd w Hi. rewrite Hi. reflexivity.
  - intros medium root sd dd w. unfold try_body, destination.
    change (file_ext "yft") with "yft".
    change (String.eqb "yft" "rpf") with false.
    change (Str.mem "yft" STREAM_EXTENSIONS) with true.
    now rewrite orb_true_r.
  - reflexivity.
  - intros root Hi. unfold classify, destination. rewrite Hi.
    change (file_ext "rpf") with "rpf". change (file_ext "yft") with "yft".
    change (file_ext "meta") with "meta".
    change (String.eqb "rpf" "rpf") with true.
    change (String.eqb "yft" "rpf") with false.
    change (String.eqb "meta" "rpf") with false.
    change (Str.mem "yft" STREAM_EXTENSIONS) with true.
    rewrite orb_true_r.
    repeat split; intros ->; reflexivity.
Qed.

Lemma extension_is_text_after_last_dot_witness :
  file_ext ("Model.V2" ++ "." ++ "YDR") = Str.lower "YDR"
  /\ file_ext "META" = Str.lower "META"
  /\ classify ["dlc"; "x64"] "meta" = To BData.
Proof.
  split; [|split].
  - apply (proj1 extension_is_text_after_last_dot). reflexivity.
  - apply (proj1 (proj2 extension_is_text_after_last_dot)). reflexivity.
  - apply (proj2 (proj2 (proj2 (proj2 (proj2 (proj2
             extension_is_text_after_last_dot)))))
             ["dlc"; "x64"]); reflexivity.
Defined.

(** The claim without the conditions on the directory fails: below an
    important folder the file called [meta] is stored in the stream
    bucket, not in the data bucket, and below an ignored folder the file
    called [yft] is not classified at all. *)
Lemma dotless_meta_in_important_folder_is_stream :
  let r :=
    move_files faithful_medium ["w"; "dlc"] ["out"; "stream"] ["out"; "data"]
      false (mkWorld Examples.dotless_tree []) in
  classify ["w"; "dlc"; "vehicles"] "meta" = To BStream
  /\ classify ["w"; "dlc"; "vehicles"] "meta" <> To BData
  /\ classify ["w"; "dlc"; "audio"] "yft" = PassedOver
  /\ fst r = mkTally 1 0 0
  /\ Fs.read ["out"; "stream"; "meta"] (fs (snd r)) = Some Examples.two_bytes
  /\ Fs.exists_ ["out"; "data"; "meta"] (fs (snd r)) = false.
Proof.
  vm_compute. repeat split; auto. discriminate.
Qed.

(** ** Ignored directories *)
(** C5, as the program has it: the files of a directory whose path
    contains an ignored-folder name are never moved into a bucket and are
    not visited at all: the turn of the walk for such a directory, and for
    every directory below it, leaves the tally (the skipped count
    included), the processed count and the file system unchanged. *)
Theorem ignored_folder_is_passed_over
  (medium : path -> list byte -> copy_outcome)
  (stream_dir data_dir : path) (total : nat) (cb : bool) (st : mover)
  (root : path) (dirs files : list string) :
  is_ignored root = true ->
  move_dir medium stream_dir data_dir total cb st (root, dirs, files) = st
  /\ (forall n e,
         In e (Fs.walk root n) ->
         move_dir medium stream_dir data_dir total cb st e = st)
  /\ (forall w,
         move_files medium root stream_dir data_dir cb w = (no_moves, w))
  /\ (forall file, classify root file = PassedOver).
Proof.
  intros Hi. split; [|split; [|split]].
  - now apply move_dir_ignored.
  - intros n [[r ds] fs] Hin. apply move_dir_ignored.
    exact (FsFacts.walk_ignored n root _ Hi Hin).
  - intros w. unfold move_files.
    destruct (total_files root (fs w) =? 0); [reflexivity|].
    rewrite fold_move_dir_ignored; [reflexivity|].
    unfold Fs.os_walk. destruct (Fs.lookup root (fs w)) as [n|]; [|constructor].
    apply Forall_forall. intros e. now apply FsFacts.walk_ignored.
  - intros file. unfold classify. now rewrite Hi.
Qed.

Lemma ignored_folder_is_passed_over_witness :
  move_dir faithful_medium ["out"; "stream"] ["out"; "data"] 1 false
    (mkMover no_moves 0 (mkWorld Examples.audio_tree []))
    (["w"; "dlc"; "audio"], [], ["s.awc"])
  = mkMover no_moves 0 (mkWorld Examples.audio_tree []).
Proof.
  apply (ignored_folder_is_passed_over faithful_medium
           ["out"; "stream"] ["out"; "data"] 1 false
           (mkMover no_moves 0 (mkWorld Examples.audio_tree []))
           ["w"; "dlc"; "audio"] [] ["s.awc"]).
  reflexivity.
Defined.

(** The skipped count does not include the files of an ignored directory:
    the pre-scan finds the one file below [audio], and the pass returns a
    skipped count of zero. *)
Lemma ignored_folder_file_not_counted :
  let r :=
    move_files faithful_medium ["w"; "dlc"] ["out"; "stream"] ["out"; "data"]
      false (mkWorld Examples.audio_tree []) in
  is_ignored ["w"; "dlc"; "audio"] = true
  /\ In (["w"; "dlc"; "audio"], [], ["s.awc"])
        (Fs.os_walk ["w"; "dlc"] Examples.audio_tree)
  /\ total_files ["w"; "dlc"] Examples.audio_tree = 1
  /\ skipped (fst r) = 0
  /\ skipped (fst r) <> List.length ["s.awc"].
Proof.
  vm_compute. repeat split; auto. discriminate.
Qed.

(** ** The collision loop *)

Module Collision.

Lemma dirname_join (d : path) (name : string) : dirname (join d name) = d.
Proof. apply removelast_last. Qed.

Lemma basename_join (d : path) (name : string) : basename (join d name) = name.
Proof. apply last_last. Qed.

Section Loop.

Variable f : Fs.t.
Variables base_name extension : string.
Variable d : path.

Local Abbreviation candidate := (numbered_name base_name extension).

Lemma candidate_inj (j k : nat) : candidate j = candidate k -> j = k.
Proof.
  unfold numbered_name. intros H.
  apply StrFacts.app_inv_head in H. simpl in H. inversion H as [H'].
  apply StrFacts.app_inv_tail in H'. now apply StrFacts.of_nat_inj.
Qed.

(** What the loop returns is free, and lies in the same directory. *)
Lemma loop_free (fuel : nat) :
  forall cur k p,
    free_name_loop fuel f base_name extension (join d cur) k = Some p ->
    Fs.exists_ p f = false /\ dirname p = d.
Proof.
  induction fuel as [|fuel IH]; intros cur k p; simpl;
    destruct (Fs.exists_ (join d cur) f) eqn:E; try discriminate.
  - intros H; inversion H; subst. split; [exact E|apply dirname_join].
  - rewrite dirname_join. apply IH.
  - intros H; inversion H; subst. split; [exact E|apply dirname_join].
Qed.

(** The loop returns the first free candidate from [k] on. *)
Lemma loop_least (fuel : nat) :
  forall cur k p,
    Fs.exists_ (join d cur) f = true ->
    free_name_loop fuel f base_name extension (join d cur) k = Some p ->
    exists j,
      k <= j /\ p = join d (candidate j)
      /\ forall i, k <= i < j -> Fs.exists_ (join d (candidate i)) f = true.
Proof.
  induction fuel as [|fuel IH]; intros cur k p E; simpl; rewrite E;
    [discriminate|].
  rewrite dirname_join. intros H.
  destruct (Fs.exists_ (join d (candidate k)) f) eqn:Ek.
  - destruct (IH _ _ _ Ek H) as (j & Hj & Hp & Hall).
    exists j. split; [lia|]. split; [exact Hp|].
    intros i Hi. destruct (Nat.eq_dec i k) as [->|]; [exact Ek|].
    apply Hall. lia.
  - exists k. split; [lia|]. split.
    + destruct fuel; simpl in H; rewrite Ek in H; congruence.
    + intros i Hi. lia.
Qed.

(** With a free candidate within reach of the fuel, the loop returns. *)
Lemma loop_returns (fuel : nat) :
  forall cur k,
    (exists j, k <= j < k + fuel
               /\ Fs.exists_ (join d (candidate j)) f = false) ->
    free_name_loop fuel f base_name extension (join d cur) k <> None.
Proof.
  induction fuel as [|fuel IH]; intros cur k (j & Hj & Hfree); [lia|].
  simpl. destruct (Fs.exists_ (join d cur) f); [|discriminate].
  rewrite dirname_join.
  destruct (Nat.eq_dec j k) as [->|Hne].
  - destruct fuel; simpl; rewrite Hfree; discriminate.
  - apply IH. exists j. split; [lia|exact Hfree].
Qed.

(** Among more candidates than the directory has entries, one is not an
    entry. *)
Lemma free_candidate (names : list string) (k : nat) :
  exists j, k <= j < k + S (List.length names) /\ ~ In (candidate j) names.
Proof.
  destruct (Forall_Exists_dec (fun j => In (candidate j) names)
              (fun j => in_dec string_dec (candidate j) names)
              (seq k (S (List.length names)))) as [Hall|Hex].
  - exfalso.
    assert (Hnd : NoDup (map candidate (seq k (S (List.length names))))).
    { apply Finite.Injective_map_NoDup; [|apply seq_NoDup].
      intros a b. apply candidate_inj. }
    assert (Hincl : incl (map candidate (seq k (S (List.length names)))) names).
    { intros x Hx. apply in_map_iff in Hx as (j & <- & Hj).
      rewrite Forall_forall in Hall. now apply Hall. }
    pose proof (NoDup_incl_length Hnd Hincl) as Hlen.
    rewrite length_map, length_seq in Hlen. lia.
  - apply Exists_exists in Hex as (j & Hj & Hnot).
    apply in_seq in Hj. exists j. split; [lia|exact Hnot].
Qed.

(** The allowance of [unique_dest] is enough: the loop always returns. *)
Lemma loop_total (file : string) :
  Fs.exists_ (join d file) f = true ->
  free_name_loop (renamings_bound f (join d file)) f base_name extension
    (join d file) 1 <> None.
Proof.
  intros E. unfold renamings_bound. rewrite dirname_join.
  destruct (FsFacts.exists_listed _ _ _ E) as (names & Hl & _). rewrite Hl.
  apply loop_returns.
  destruct (free_candidate names 1) as (j & Hj & Hnot).
  exists j. split; [exact Hj|].
  destruct (Fs.exists_ (join d (candidate j)) f) eqn:Ej; [|reflexivity].
  destruct (FsFacts.exists_listed _ _ _ Ej) as (names' & Hl' & Hin).
  congruence.
Qed.

End Loop.

(** The destination that is written does not exist. *)
Lemma unique_dest_free (f : Fs.t) (d : path) (file : string) :
  Fs.exists_ (unique_dest f file (join d file)) f = false.
Proof.
  unfold unique_dest.
  destruct (Fs.exists_ (join d file) f) eqn:E; [|exact E].
  destruct (splitext file) as [base_name extension].
  pose proof (loop_total f base_name extension d file E) as Ht.
  destruct (free_name_loop _ f base_name extension (join d file) 1)
    as [p|] eqn:El; [|congruence].
  now apply loop_free in El.
Qed.

Lemma unique_dest_dirname (f : Fs.t) (d : path) (file : string) :
  dirname (unique_dest f file (join d file)) = d.
Proof.
  unfold unique_dest.
  destruct (Fs.exists_ (join d file) f) eqn:E; [|apply dirname_join].
  destruct (splitext file) as [base_name extension].
  destruct (free_name_loop _ f base_name extension (join d file) 1)
    as [p|] eqn:El; [|apply dirname_join].
  now apply loop_free in El.
Qed.

(** When the plain name is taken, the destination is the first free
    numbered name. *)
Lemma unique_dest_least (f : Fs.t) (d : path) (file : string) :
  Fs.exists_ (join d file) f = true ->
  exists j,
    1 <= j
    /\ unique_dest f file (join d file)
       = join d (numbered_name (fst (splitext file)) (snd (splitext file)) j)
    /\ forall i,
        1 <= i < j ->
        Fs.exists_
          (join d (numbered_name (fst (splitext file)) (snd (splitext file)) i))
          f = true.
Proof.
  intros E. unfold unique_dest. rewrite E.
  destruct (splitext file) as [base_name extension]. simpl fst; simpl snd.
  pose proof (loop_total f base_name extension d file E) as Ht.
  destruct (free_name_loop _ f base_name extension (join d file) 1)
    as [p|] eqn:El; [|congruence].
  exact (loop_least f base_name extension d _ _ _ _ E El).
Qed.

End Collision.

(** ** One file through the mover *)

Section MoveFile.

Variable medium : path -> list byte -> copy_outcome.

Lemma fs_report (cb : bool) (a b : nat) (msg : string) (w : world) :
  fs (report cb a b msg w) = fs w.
Proof. unfold report. now destruct cb. Qed.

(** The copy when the stored size differs from the size of the source. *)
Lemma copy_checked_mismatch (file : string) (src dest : path) (b : bucket)
  (w : world) (bytes stored : list byte) (opened : Fs.t) :
  Fs.read src (fs w) = Some bytes ->
  Fs.write_file dest [] (fs w) = Some opened ->
  medium dest bytes = Copied stored ->
  List.length stored <> List.length bytes ->
  exists w',
    copy_checked medium file src dest b w
    = (Raised (SizeMismatch file (List.length bytes) (List.length stored)), w')
    /\ Fs.read dest (fs w') = Some stored
    /\ trace w' = trace w ++ [EvCreate dest].
Proof.
  intros Hr Ho Hm Hne. unfold copy_checked, Fs.getsize.
  rewrite Hr, Ho, Hm. cbn [option_map].
  destruct (FsFacts.write_again dest [] stored _ _ Ho) as [f2 Hw].
  unfold store. cbn [fs emit set_fs]. rewrite Hw. cbn [fs set_fs].
  assert (Hrd : Fs.read dest f2 = Some stored).
  { unfold Fs.read. now rewrite (FsFacts.lookup_write_same _ _ _ _ Hw). }
  rewrite Hrd. cbn [option_map].
  assert (E : (List.length bytes =? List.length stored) = false)
    by (apply Nat.eqb_neq; congruence).
  rewrite E. cbn [negb].
  eexists. split; [reflexivity|]. split; [exact Hrd|reflexivity].
Qed.

(** The copy leaves every file that was there in place, provided the
    destination is new. *)
Lemma copy_checked_preserves (file : string) (src dest : path) (b : bucket)
  (w : world) (q : path) (x : list byte) :
  Fs.exists_ dest (fs w) = false ->
  Fs.read q (fs w) = Some x ->
  Fs.read q (fs (snd (copy_checked medium file src dest b w))) = Some x.
Proof.
  intros Hfree Hq.
  assert (Hne : q <> dest).
  { intros ->. unfold Fs.exists_, Fs.read in *.
    destruct (Fs.lookup dest (fs w)); discriminate. }
  assert (Hstore : forall d opened,
             Fs.write_file dest [] (fs w) = Some opened ->
             Fs.read q
               (fs (store dest d (emit (EvCreate dest) (set_fs opened w))))
             = Some x).
  { intros d opened Ho. unfold store. cbn [fs emit set_fs].
    pose proof (FsFacts.read_write_other _ _ _ _ _ _ Ho Hne Hq) as Hq1.
    destruct (Fs.write_file dest d opened) as [f2|] eqn:Hw; cbn [fs set_fs].
    - exact (FsFacts.read_write_other _ _ _ _ _ _ Hw Hne Hq1).
    - exact Hq1. }
  unfold copy_checked.
  destruct (Fs.getsize src (fs w)); [|exact Hq].
  destruct (Fs.read src (fs w)); [|exact Hq].
  destruct (Fs.write_file dest [] (fs w)) as [opened|] eqn:Ho; [|exact Hq].
  destruct (medium dest l) as [stored|partial].
  - destruct (Fs.getsize dest _); [destruct (negb _)|]; cbn [snd];
      now apply Hstore.
  - cbn [snd]. now apply Hstore.
Qed.

Variables stream_dir data_dir : path.
Variable total : nat.
Variable progress_callback : bool.

Lemma destination_in_bucket (important : bool) (ext file : string)
  (dest0 : path) (b : bucket) :
  destination important ext file stream_dir data_dir = Some (dest0, b) ->
  dest0 = join (bucket_dir stream_dir data_dir b) file.
Proof.
  unfold destination.
  destruct (important || Str.mem ext STREAM_EXTENSIONS).
  - intros H; inversion H; reflexivity.
  - destruct (Str.mem ext DATA_EXTENSIONS); intros H; inversion H; reflexivity.
Qed.

(** The body of [try] leaves every file that was there in place. *)
Lemma try_body_preserves (root : path) (important : bool) (file : string)
  (w : world) (q : path) (x : list byte) :
  Fs.read q (fs w) = Some x ->
  Fs.read q
    (fs (snd (try_body medium root important stream_dir data_dir file w)))
  = Some x.
Proof.
  intros Hq. unfold try_body.
  destruct (String.eqb (file_ext file) "rpf"); [exact Hq|].
  destruct (destination important (file_ext file) file stream_dir data_dir)
    as [[dest0 b]|] eqn:Ed; [|exact Hq].
  apply destination_in_bucket in Ed. subst dest0.
  apply copy_checked_preserves; [|exact Hq].
  apply Collision.unique_dest_free.
Qed.

Lemma move_file_preserves (root : path) (important : bool) (st : mover)
  (file : string) (q : path) (x : list byte) :
  Fs.read q (fs (mworld st)) = Some x ->
  Fs.read q
    (fs (mworld (move_file medium root important stream_dir data_dir total
                   progress_callback st file)))
  = Some x.
Proof.
  intros Hq. unfold move_file.
  rewrite <- (fs_report progress_callback (processed st + 1) total
                ("Processing: " ++ file) (mworld st)) in Hq.
  apply (try_body_preserves root important file) in Hq.
  destruct (try_body medium root important stream_dir data_dir file _)
    as [[| |] w']; exact Hq.
Qed.

Lemma fold_move_file_preserves (root : path) (important : bool)
  (files : list string) (q : path) (x : list byte) :
  forall st,
    Fs.read q (fs (mworld st)) = Some x ->
    Fs.read q
      (fs (mworld (fold_left
                     (move_file medium root important stream_dir data_dir
                        total progress_callback) files st)))
    = Some x.
Proof.
  induction files as [|file files IH]; intros st Hq; [exact Hq|].
  cbn [fold_left]. apply IH. now apply move_file_preserves.
Qed.

(** Every file of the list is processed, whatever happens to the others,
    and is counted in exactly one of the three counts. *)
Lemma fold_move_file_counts (root : path) (important : bool)
  (files : list string) :
  forall st,
    let st' :=
      fold_left
        (move_file medium root important stream_dir data_dir total
           progress_callback) files st in
    processed st' = processed st + List.length files
    /\ stream (moved_files st') + data (moved_files st')
       + skipped (moved_files st')
       = stream (moved_files st) + data (moved_files st)
         + skipped (moved_files st) + List.length files.
Proof.
  induction files as [|file files IH]; intros st; cbn [fold_left].
  - simpl. lia.
  - cbv zeta in IH |- *.
    destruct (IH (move_file medium root important stream_dir data_dir total
                    progress_callback st file)) as [Hp Hc].
    rewrite Hp, Hc. unfold move_file.
    destruct (try_body medium root important stream_dir data_dir file _)
      as [[|[|]|] w']; simpl; lia.
Qed.

End MoveFile.

Section MoveDir.

Variable medium : path -> list byte -> copy_outcome.
Variables stream_dir data_dir : path.
Variable total : nat.
Variable progress_callback : bool.

Lemma move_dir_preserves (st : mover)
  (entry : path * list string * list string) (q : path) (x : list byte) :
  Fs.read q (fs (mworld st)) = Some x ->
  Fs.read q
    (fs (mworld (move_dir medium stream_dir data_dir total progress_callback
                   st entry)))
  = Some x.
Proof.
  intros Hq. destruct entry as [[root dirs] files]. unfold move_dir.
  destruct (is_ignored root); [exact Hq|].
  now apply fold_move_file_preserves.
Qed.

Lemma fold_move_dir_preserves
  (entries : list (path * list string * list string)) (q : path)
  (x : list byte) :
  forall st,
    Fs.read q (fs (mworld st)) = Some x ->
    Fs.read q
      (fs (mworld (fold_left
                     (move_dir medium stream_dir data_dir total
                        progress_callback) entries st)))
    = Some x.
Proof.
  induction entries as [|e entries IH]; intros st Hq; [exact Hq|].
  cbn [fold_left]. apply IH. now apply move_dir_preserves.
Qed.

End MoveDir.

(** [move_files] only adds files: whatever file was there before the call
    is there afterwards, with the same content. *)
Lemma move_files_preserves (medium : path -> list byte -> copy_outcome)
  (base_dir stream_dir data_dir : path) (cb : bool) (w : world)
  (q : path) (x : list byte) :
  Fs.read q (fs w) = Some x ->
  Fs.read q (fs (snd (move_files medium base_dir stream_dir data_dir cb w)))
  = Some x.
Proof.
  intros Hq. unfold move_files.
  destruct (total_files base_dir (fs w) =? 0); [exact Hq|].
  cbn [snd]. now apply fold_move_dir_preserves.
Qed.



(** C10: when the size check fails, the file written into the bucket
    stays there: after the turn of the loop the destination holds what the
    medium stored, which is not the content of the source, the only event
    of the turn besides the progress report is the creation of that file
    (nothing is removed), the file is counted as skipped, and the rest of
    the walk leaves it in place. *)
Theorem corrupt_copy_stays_in_bucket
  (medium : path -> list byte -> copy_outcome)
  (root stream_dir data_dir : path) (important : bool) (total : nat)
  (cb : bool) (st : mover) (file : string)
  (dest0 : path) (b : bucket) (bytes stored : list byte) (opened : Fs.t) :
  file_ext file <> "rpf" ->
  destination important (file_ext file) file stream_dir data_dir
  = Some (dest0, b) ->
  Fs.read (join root file) (fs (mworld st)) = Some bytes ->
  Fs.write_file (unique_dest (fs (mworld st)) file dest0) [] (fs (mworld st))
  = Some opened ->
  medium (unique_dest (fs (mworld st)) file dest0) bytes = Copied stored ->
  List.length stored <> List.length bytes ->
  let dest := unique_dest (fs (mworld st)) file dest0 in
  let step :=
    move_file medium root important stream_dir data_dir total cb in
  Fs.read dest (fs (mworld (step st file))) = Some stored
  /\ stored <> bytes
  /\ dirname dest = bucket_dir stream_dir data_dir b
  /\ moved_files (step st file) = count_skipped (moved_files st)
  /\ trace (mworld (step st file))
     = trace (report cb (processed st + 1) total ("Processing: " ++ file)
                (mworld st))
       ++ [EvCreate dest]
  /\ forall rest entries,
      Fs.read dest
        (fs (mworld
               (fold_left
                  (move_dir medium stream_dir data_dir total cb) entries
                  (fold_left step rest (step st file)))))
      = Some stored.
Proof.
  intros Hext Hdest Hr Ho Hm Hne dest step.
  set (w := report cb (processed st + 1) total ("Processing: " ++ file)
              (mworld st)).
  assert (Hfs : fs w = fs (mworld st)) by apply fs_report.
  assert (Hstep :
            exists w',
              step st file
              = mkMover (count_skipped (moved_files st)) (processed st + 1) w'
              /\ Fs.read dest (fs w') = Some stored
              /\ trace w' = trace w ++ [EvCreate dest]).
  { unfold step, move_file, try_body. fold w.
    apply String.eqb_neq in Hext. rewrite Hext, Hdest.
    rewrite <- Hfs in Hr, Ho, Hm.
    destruct (copy_checked_mismatch medium file (join root file) _ b w
                bytes stored opened Hr Ho Hm Hne) as (w' & Hc & Hrd & Htr).
    exists w'. rewrite Hc. rewrite Hfs in Hrd, Htr. auto. }
  destruct Hstep as (w' & Hstep & Hrd & Htr).
  assert (Hhere : Fs.read dest (fs (mworld (step st file))) = Some stored)
    by now rewrite Hstep.
  split; [exact Hhere|].
  split; [intros ->; now apply Hne|].
  split.
  { apply destination_in_bucket in Hdest. subst dest0.
    apply Collision.unique_dest_dirname. }
  split; [now rewrite Hstep|].
  split; [now rewrite Hstep|].
  intros rest entries.
  apply fold_move_dir_preserves. now apply fold_move_file_preserves.
Qed.

Lemma corrupt_copy_stays_in_bucket_witness :
  Fs.read ["out"; "stream"; "a.yft"]
    (fs (mworld
           (move_file Examples.truncating_medium ["w"; "dlc"] false
              ["out"; "stream"] ["out"; "data"] 1 false
              (mkMover no_moves 0 (mkWorld Examples.one_asset_tree []))
              "a.yft")))
  = Some (firstn 1 Examples.two_bytes).
Proof.
  refine (proj1
    (corrupt_copy_stays_in_bucket Examples.truncating_medium
       ["w"; "dlc"] ["out"; "stream"] ["out"; "data"] false 1 false
       (mkMover no_moves 0 (mkWorld Examples.one_asset_tree []))
       "a.yft" (join ["out"; "stream"] "a.yft") BStream
       Examples.two_bytes (firstn 1 Examples.two_bytes)
       (Fs.Dir [("w", Fs.Dir [("dlc", Fs.Dir [("a.yft", Fs.File Examples.two_bytes)])]);
                ("out", Fs.Dir [("stream", Fs.Dir [("a.yft", Fs.File [])]);
                                ("data", Fs.Dir [])])])
       _ _ _ _ _ _)).
  - vm_compute. discriminate.
  - reflexivity.
  - reflexivity.
  - reflexivity.
  - reflexivity.
  - vm_compute. discriminate.
Defined.

(** ** The decoder fails *)

(** C4, as the program has it: when the decoder exits with a non-zero
    status, the call returns at once: no tally at all, [None] in its place
    (nothing is counted as moved or skipped, and the caller adds nothing
    to its counts for this call), an error message made of
    [Extraction failed:], a line break and the decoded error stream of the
    decoder (the text of the exception when that stream is empty), and an
    empty list of absorbed containers.  The file system is as the decoder
    left it and the call has recorded nothing but its progress report and
    the decoder run: no bucket is created, removed or written. *)
Theorem decoder_exit_failure
  (medium : path -> list byte -> copy_outcome)
  (subprocess_run : string -> path -> Fs.t -> run_outcome * Fs.t)
  (decode_utf8 : list byte -> string)
  (fuel : nat) (rpf_file : path) (rpf_cli : string) (output_dir : path)
  (cb is_nested : bool) (w : world)
  (stderr : list byte) (str_e : string) (f1 : Fs.t) :
  subprocess_run rpf_cli rpf_file (fs w)
  = (CalledProcessError stderr str_e, f1) ->
  let r :=
    extract_rpf_recursive medium subprocess_run decode_utf8 (S fuel) rpf_file
      rpf_cli output_dir cb is_nested w in
  fst r
  = Return
      (None,
       Some ("Extraction failed:" ++ newline
               ++ match stderr with
                  | [] => str_e
                  | _ => decode_utf8 stderr
                  end)%string,
       [])
  /\ fs (snd r) = f1
  /\ trace (snd r)
     = trace (report cb 0 100 ("Extracting: " ++ basename rpf_file) w)
       ++ [EvDecode rpf_file]
  /\ match fst r with
     | Return (nested_result, _, nested_extracted_rpfs) =>
         forall acc,
           merge_nested rpf_file nested_result nested_extracted_rpfs acc = acc
     | _ => False
     end.
Proof.
  intros Hrun r. unfold r. cbn [extract_rpf_recursive].
  rewrite fs_report, Hrun. cbn [fst snd fs trace emit set_fs].
  repeat split.
Qed.

Lemma decoder_exit_failure_witness :
  fst (extract_rpf_recursive faithful_medium Examples.failing_decoder
         Examples.decode_ascii 1 ["w"; "top.rpf"] "rpf-cli.exe" ["out"]
         true false (mkWorld Examples.one_asset_tree []))
  = Return
      (None,
       Some ("Extraction failed:" ++ newline ++ "bad archive")%string, []).
Proof.
  refine (proj1
    (decoder_exit_failure faithful_medium Examples.failing_decoder
       Examples.decode_ascii 0 ["w"; "top.rpf"] "rpf-cli.exe" ["out"]
       true false (mkWorld Examples.one_asset_tree [])
       (list_byte_of_string "bad archive")
       "Command returned non-zero exit status 1."
       Examples.one_asset_tree _)).
  reflexivity.
Defined.

(** The claim as stated fails: what is returned after a non-zero exit
    holds no zero tally; the place of the tally holds [None]. *)
Lemma decoder_exit_failure_has_no_tally :
  let r :=
    fst (extract_rpf_recursive faithful_medium Examples.failing_decoder
           Examples.decode_ascii 1 ["w"; "top.rpf"] "rpf-cli.exe" ["out"]
           true false (mkWorld Examples.one_asset_tree [])) in
  (exists e, r = Return (None, e, []))
  /\ ~ exists e l, r = Return (Some no_moves, e, l).
Proof.
  cbv zeta. split; [eexists; reflexivity|].
  intros (e & l & H). vm_compute in H. discriminate.
Qed.

(** ** The events of the pipeline *)

Module Trace.

Lemma continues_refl (P : event -> Prop) (w : world) : continues P w w.
Proof. exists []. split; [now rewrite app_nil_r|constructor]. Qed.

Lemma continues_trans (P : event -> Prop) (w1 w2 w3 : world) :
  continues P w1 w2 -> continues P w2 w3 -> continues P w1 w3.
Proof.
  intros (n1 & H1 & F1) (n2 & H2 & F2). exists (n1 ++ n2). split.
  - now rewrite H2, H1, app_assoc.
  - apply Forall_app; auto.
Qed.

Lemma continues_same_trace (P : event -> Prop) (w w' : world) :
  trace w' = trace w -> continues P w w'.
Proof. intros H. exists []. split; [now rewrite app_nil_r|constructor]. Qed.

Lemma continues_emit (P : event -> Prop) (e : event) (w : world) :
  P e -> continues P w (emit e w).
Proof. intros H. exists [e]. split; [reflexivity|now constructor]. Qed.

Lemma continues_one (P : event -> Prop) (e : event) (w w' : world) :
  P e -> trace w' = trace w ++ [e] -> continues P w w'.
Proof. intros H Ht. exists [e]. split; [exact Ht|now constructor]. Qed.

(** The scratch directory of a container has a scratch name. *)
Lemma scratch_name_temp (name : string) :
  Gui.scratch_name ("_temp_" ++ name ++ "_extract") = true.
Proof.
  unfold Gui.scratch_name. apply andb_true_iff. split.
  - now apply StrFacts.startswith_app.
  - rewrite <- StrFacts.app_assoc. apply StrFacts.endswith_app.
Qed.

(** A bucket of an output directory whose path has no scratch name lies
    in no scratch directory. *)
Lemma bucket_outside_scratch (output_dir rpf_file : path) (name : string) :
  scratch_free output_dir ->
  name = "stream" \/ name = "data" ->
  ~ below (temp_extract_dir rpf_file) (join output_dir name).
Proof.
  intros Hfree Hname [r Hr].
  assert (Hin : In ("_temp_" ++ basename rpf_file ++ "_extract")%string
                  (join output_dir name)).
  { rewrite Hr. unfold temp_extract_dir, join.
    apply in_or_app. left. apply in_or_app. right. now left. }
  pose proof (scratch_name_temp (basename rpf_file)) as Hs.
  unfold join in Hin. apply in_app_or in Hin as [Hin|[Hin|[]]].
  - unfold scratch_free in Hfree. rewrite Forall_forall in Hfree.
    rewrite (Hfree _ Hin) in Hs. discriminate.
  - rewrite <- Hin in Hs. destruct Hname as [-> | ->]; discriminate Hs.
Qed.

Section AddsOnly.

Variable medium : path -> list byte -> copy_outcome.
Variable output_dir : path.
Hypothesis output_free : scratch_free output_dir.

Local Abbreviation P := (adds_only output_dir).
Local Abbreviation sd := (join output_dir "stream").
Local Abbreviation dd := (join output_dir "data").

Lemma continues_report (cb : bool) (a b : nat) (msg : string) (w : world) :
  continues P w (report cb a b msg w).
Proof.
  unfold report. destruct cb; [|apply continues_refl].
  now apply continues_emit.
Qed.

Lemma trace_store (p : path) (d : list byte) (w : world) :
  trace (store p d w) = trace w.
Proof. unfold store. now destruct (Fs.write_file p d (fs w)). Qed.

Lemma copy_checked_continues (file : string) (src dest : path) (b : bucket)
  (w : world) :
  dirname dest = sd \/ dirname dest = dd ->
  continues P w (snd (copy_checked medium file src dest b w)).
Proof.
  intros Hd. unfold copy_checked.
  destruct (Fs.getsize src (fs w)); [|apply continues_refl].
  destruct (Fs.read src (fs w)); [|apply continues_refl].
  destruct (Fs.write_file dest [] (fs w)) as [opened|]; [|apply continues_refl].
  assert (Hs : forall d,
             continues P w
               (store dest d (emit (EvCreate dest) (set_fs opened w)))).
  { intros d. apply (continues_one P (EvCreate dest)); [exact Hd|].
    now rewrite trace_store. }
  destruct (medium dest l) as [stored|partial]; [|apply Hs].
  destruct (Fs.getsize dest _); [destruct (negb _)|]; apply Hs.
Qed.

Lemma try_body_continues (root : path) (important : bool) (file : string)
  (w : world) :
  continues P w (snd (try_body medium root important sd dd file w)).
Proof.
  unfold try_body.
  destruct (String.eqb (file_ext file) "rpf"); [apply continues_refl|].
  destruct (destination important (file_ext file) file sd dd)
    as [[dest0 b]|] eqn:Ed; [|apply continues_refl].
  apply destination_in_bucket in Ed. subst dest0.
  apply copy_checked_continues.
  rewrite Collision.unique_dest_dirname. destruct b; auto.
Qed.

Lemma move_file_continues (root : path) (important : bool) (total : nat)
  (cb : bool) (st : mover) (file : string) :
  continues P (mworld st)
    (mworld (move_file medium root important sd dd total cb st file)).
Proof.
  unfold move_file.
  set (w := report cb (processed st + 1) total ("Processing: " ++ file)
              (mworld st)).
  pose proof (try_body_continues root important file w) as H.
  apply (continues_trans P _ w); [apply continues_report|].
  destruct (try_body medium root important sd dd file w) as [[| |] w'];
    exact H.
Qed.

Lemma fold_move_file_continues (root : path) (important : bool) (total : nat)
  (cb : bool) (files : list string) :
  forall st,
    continues P (mworld st)
      (mworld (fold_left (move_file medium root important sd dd total cb)
                 files st)).
Proof.
  induction files as [|file files IH]; intros st; [apply continues_refl|].
  cbn [fold_left].
  eapply continues_trans; [apply move_file_continues|apply IH].
Qed.

Lemma fold_move_dir_continues (total : nat) (cb : bool)
  (entries : list (path * list string * list string)) :
  forall st,
    continues P (mworld st)
      (mworld (fold_left (move_dir medium sd dd total cb) entries st)).
Proof.
  induction entries as [|[[root dirs] files] entries IH]; intros st;
    [apply continues_refl|].
  cbn [fold_left].
  eapply continues_trans; [|apply IH].
  unfold move_dir. destruct (is_ignored root); [apply continues_refl|].
  apply fold_move_file_continues.
Qed.

Lemma move_files_continues (base_dir : path) (cb : bool) (w : world) :
  continues P w (snd (move_files medium base_dir sd dd cb w)).
Proof.
  unfold move_files.
  destruct (total_files base_dir (fs w) =? 0); [apply continues_refl|].
  cbn [snd].
  exact (fold_move_dir_continues _ cb _ (mkMover no_moves 0 w)).
Qed.

Lemma cleanup_nested_continues (nested_rpf : path) (w : world) :
  continues P w (cleanup_nested nested_rpf w).
Proof.
  unfold cleanup_nested.
  destruct (Fs.exists_ _ (fs w)); [|apply continues_refl].
  destruct (Fs.isdir _ (fs w)); [|apply continues_refl].
  apply (continues_one P (EvRmtree (temp_extract_dir nested_rpf)));
    [|reflexivity].
  split; [now exists nested_rpf|].
  split; apply bucket_outside_scratch; auto.
Qed.

Section Recursion.

Variable self : path -> world -> outcome result * world.
Hypothesis self_continues :
  forall nested_rpf w, continues P w (snd (self nested_rpf w)).

Lemma nested_loop_continues (cb : bool) (count : nat)
  (nested_rpfs : list path) :
  forall idx acc w,
    continues P w (snd (nested_loop self cb count idx nested_rpfs acc w)).
Proof.
  induction nested_rpfs as [|rpf rest IH]; intros idx acc w;
    [apply continues_refl|].
  cbn [nested_loop].
  match goal with
  | |- context [self rpf ?w1] =>
      assert (H1 : continues P w w1) by apply continues_report;
      pose proof (self_continues rpf w1) as H2;
      destruct (self rpf w1) as [[[[res err] ex]| |] w2]
  end; cbn [snd] in *.
  - eapply continues_trans; [exact H1|].
    eapply continues_trans; [exact H2|].
    eapply continues_trans; [apply cleanup_nested_continues|apply IH].
  - eapply continues_trans; eassumption.
  - eapply continues_trans; eassumption.
Qed.

Lemma organize_continues (base_dir : path) (cb : bool) (w2 : world) :
  continues P w2
    (snd (organize_and_recurse medium self base_dir sd dd cb w2)).
Proof.
  unfold organize_and_recurse.
  set (w3 := report cb 0 100 "Organizing extracted files..." w2).
  pose proof (move_files_continues base_dir cb w3) as Hm.
  destruct (move_files medium base_dir sd dd cb w3) as [moved w4].
  cbn [snd] in Hm.
  set (nested_rpfs := find_nested_rpfs base_dir (fs w4)).
  set (w5 := match nested_rpfs with [] => w4 | _ => _ end).
  assert (H5 : continues P w4 w5).
  { unfold w5. destruct nested_rpfs; [apply continues_refl|].
    apply continues_report. }
  pose proof (nested_loop_continues cb (List.length nested_rpfs) nested_rpfs
                0 (moved, []) w5) as Hl.
  destruct (nested_loop self cb (List.length nested_rpfs) 0 nested_rpfs
              (moved, []) w5) as [[[m l]| |] w6]; cbn [snd] in *;
    (eapply continues_trans; [apply continues_report|]);
    (eapply continues_trans; [exact Hm|]);
    (eapply continues_trans; [exact H5|exact Hl]).
Qed.

End Recursion.

Variable subprocess_run : string -> path -> Fs.t -> run_outcome * Fs.t.
Variable decode_utf8 : list byte -> string.

(** A nested call, at any depth, only adds to the buckets. *)
Lemma nested_call_continues (rpf_cli : string) (fuel : nat) :
  forall rpf_file cb w,
    continues P w
      (snd (extract_rpf_recursive medium subprocess_run decode_utf8 fuel
              rpf_file rpf_cli output_dir cb true w)).
Proof.
  induction fuel as [|fuel IH]; intros rpf_file cb w;
    [apply continues_refl|].
  cbn [extract_rpf_recursive].
  set (w0 := report cb 0 100 ("Extracting: " ++ basename rpf_file) w).
  destruct (subprocess_run rpf_cli rpf_file (fs w0)) as [ran f1].
  set (w1 := emit (EvDecode rpf_file) (set_fs f1 w0)).
  assert (H1 : continues P w w1).
  { eapply continues_trans; [apply continues_report|].
    apply (continues_one P (EvDecode rpf_file)); [exact I|reflexivity]. }
  destruct ran; try exact H1.
  destruct (locate_base_dir rpf_file _ (fs w1)) as [[base_dir|]| |];
    try exact H1.
  cbn [negb].
  eapply continues_trans; [exact H1|].
  apply organize_continues. intros nested_rpf w'. apply IH.
Qed.

End AddsOnly.

(** An event that only adds to the buckets does not reset a bucket. *)
Lemma adds_only_no_reset (output_dir : path) (e : event) :
  adds_only output_dir e -> ~ resets_bucket output_dir e.
Proof.
  intros Ha (name & Hname & [->| ->]); simpl in Ha; [|exact Ha].
  destruct Ha as [[rpf_file Heq] _].
  apply (f_equal basename) in Heq.
  unfold temp_extract_dir in Heq. rewrite !Collision.basename_join in Heq.
  apply (f_equal (fun s => Str.endswith "_extract" s)) in Heq.
  assert (He : Str.endswith "_extract"
                 ("_temp_" ++ basename rpf_file ++ "_extract") = true).
  { rewrite <- StrFacts.app_assoc. apply StrFacts.endswith_app. }
  rewrite He in Heq. destruct Hname as [-> | ->]; discriminate Heq.
Qed.

End Trace.

(** ** The bucket reset *)

Module Reset.

Lemma join_app (d : path) (name : string) (q : path) :
  join d name ++ q = d ++ name :: q.
Proof. unfold join. now rewrite <- app_assoc. Qed.

(** How a turn that does not raise went: the directory was there and was
    removed and made again, or it was not there and was made. *)
Lemma clean_dir_inv (d : path) (w w' : world) :
  clean_dir d w = Some w' ->
  (Fs.isdir d (fs w) = true
   /\ exists f',
       Fs.makedirs d (Fs.rmtree d (fs w)) = Some f'
       /\ w' = emit (EvMakedirs d)
                 (set_fs f'
                    (emit (EvRmtree d) (set_fs (Fs.rmtree d (fs w)) w))))
  \/ (Fs.exists_ d (fs w) = false
      /\ exists f',
          Fs.makedirs d (fs w) = Some f'
          /\ w' = emit (EvMakedirs d) (set_fs f' w)).
Proof.
  unfold clean_dir.
  destruct (Fs.exists_ d (fs w)).
  - destruct (Fs.isdir d (fs w)); [|discriminate].
    cbn [fs emit set_fs].
    destruct (Fs.makedirs d (Fs.rmtree d (fs w))) as [f'|]; [|discriminate].
    intros H; inversion H; subst. left. eauto.
  - destruct (Fs.makedirs d (fs w)) as [f'|]; [|discriminate].
    intros H; inversion H; subst. right. eauto.
Qed.

(** One bucket directory after [clean_dir]: it is there and empty, the
    events are its removal (when it was there) and its creation, and a
    sibling directory is untouched. *)
Lemma clean_dir_spec (d : path) (w w' : world) :
  clean_dir d w = Some w' ->
  Fs.listdir d (fs w') = Some []
  /\ (trace w' = trace w ++ [EvRmtree d; EvMakedirs d]
      \/ trace w' = trace w ++ [EvMakedirs d]).
Proof.
  intros H.
  destruct (clean_dir_inv _ _ _ H) as [(_ & f' & E & ->)|(_ & f' & E & ->)];
    cbn [fs trace emit set_fs]; split.
  - unfold Fs.listdir. now rewrite (FsFacts.lookup_makedirs_same _ _ _ E).
  - left. now rewrite <- app_assoc.
  - unfold Fs.listdir. now rewrite (FsFacts.lookup_makedirs_same _ _ _ E).
  - now right.
Qed.

(** A directory that was there is removed before it is made again. *)
Lemma clean_dir_removes (d : path) (w w' : world) :
  clean_dir d w = Some w' ->
  Fs.isdir d (fs w) = true ->
  trace w' = trace w ++ [EvRmtree d; EvMakedirs d].
Proof.
  intros H Hd.
  destruct (clean_dir_inv _ _ _ H) as [(_ & f' & E & ->)|(Hex & _)].
  - cbn [trace emit set_fs]. now rewrite <- app_assoc.
  - unfold Fs.isdir, Fs.exists_ in *.
    destruct (Fs.lookup d (fs w)) as [[|]|]; discriminate.
Qed.

Lemma clean_dir_sibling (out : path) (a b : string) (q : path)
  (w w' : world) :
  a <> b ->
  clean_dir (join out a) w = Some w' ->
  Fs.lookup (join out b ++ q) (fs w') = Fs.lookup (join out b ++ q) (fs w).
Proof.
  intros Hne H. rewrite join_app.
  destruct (clean_dir_inv _ _ _ H) as [(_ & f' & E & ->)|(_ & f' & E & ->)];
    unfold join in E; cbn [fs emit set_fs].
  - rewrite (FsFacts.lookup_makedirs_sibling a b q Hne _ _ _ E).
    now apply FsFacts.lookup_rmtree_sibling.
  - exact (FsFacts.lookup_makedirs_sibling a b q Hne _ _ _ E).
Qed.

(** [ensure_clean_dirs] hands back the two bucket paths of [output_dir];
    both directories are then there and empty, and the events of the call
    are resets of these two directories, with the creation of each. *)
Lemma ensure_clean_dirs_spec (output_dir stream_dir data_dir : path)
  (w w2 : world) :
  ensure_clean_dirs output_dir w = (Return (stream_dir, data_dir), w2) ->
  stream_dir = join output_dir "stream"
  /\ data_dir = join output_dir "data"
  /\ Fs.listdir stream_dir (fs w2) = Some []
  /\ Fs.listdir data_dir (fs w2) = Some []
  /\ exists clean,
      trace w2 = trace w ++ clean
      /\ Forall (resets_bucket output_dir) clean
      /\ In (EvMakedirs stream_dir) clean
      /\ In (EvMakedirs data_dir) clean.
Proof.
  unfold ensure_clean_dirs.
  destruct (clean_dir (join output_dir "stream") w) as [w1|] eqn:E1;
    [|discriminate].
  destruct (clean_dir (join output_dir "data") w1) as [w2'|] eqn:E2;
    [|discriminate].
  intros H; inversion H; subst.
  destruct (clean_dir_spec _ _ _ E1) as [Hl1 Ht1].
  destruct (clean_dir_spec _ _ _ E2) as [Hl2 Ht2].
  split; [reflexivity|]. split; [reflexivity|]. split; [|split; [exact Hl2|]].
  - assert (Hd : "data" <> "stream") by discriminate.
    pose proof (clean_dir_sibling output_dir "data" "stream" [] w1 w2 Hd E2)
      as Hs.
    rewrite app_nil_r in Hs. unfold Fs.listdir in *. now rewrite Hs.
  - assert (Rs : forall name, name = "stream" \/ name = "data" ->
                   resets_bucket output_dir (EvRmtree (join output_dir name))
                   /\ resets_bucket output_dir
                        (EvMakedirs (join output_dir name))).
    { intros name Hn. split; exists name; auto. }
    destruct (Rs "stream" (or_introl eq_refl)) as [Rr1 Rm1].
    destruct (Rs "data" (or_intror eq_refl)) as [Rr2 Rm2].
    destruct Ht1 as [Ht1|Ht1]; destruct Ht2 as [Ht2|Ht2];
      rewrite Ht2, Ht1, <- app_assoc;
      eexists; (split; [reflexivity|]);
      (split; [repeat constructor; assumption|]);
      simpl; auto 10.
Qed.

End Reset.

(** * Further properties of the code *)

(** ** More on the string primitives *)

Module StrMore.

Lemma has_char_app (c : ascii) (s t : string) :
  Str.has_char c (s ++ t) = Str.has_char c s || Str.has_char c t.
Proof.
  induction s as [|a s IH]; simpl; [reflexivity|].
  now rewrite IH, orb_assoc.
Qed.

(** [rfind] finds the last occurrence: nothing of the kind follows it. *)
Lemma rfind_from_spec (c : ascii) (s : string) :
  forall i acc,
    (Str.has_char c s = false /\ Str.rfind_from c s i acc = acc)
    \/ (exists a e,
           s = (a ++ String c e)%string
           /\ Str.has_char c e = false
           /\ Str.rfind_from c s i acc = Some (i + String.length a)).
Proof.
  induction s as [|x s IH]; intros i acc; simpl; [now left|].
  destruct (IH (S i) (if Ascii.eqb x c then Some i else acc))
    as [[Hfree Hr]|(a & e & Hs & He & Hr)].
  - destruct (Ascii.eqb_spec x c) as [->|Hx].
    + right. exists EmptyString, s. simpl.
      rewrite Hr, Nat.add_0_r. auto.
    + left. simpl. now rewrite Hfree, Hr.
  - right. exists (String x a), e. simpl. rewrite Hr, Hs.
    repeat split; [assumption|]. f_equal. lia.
Qed.

Lemma substring_app_head (s t : string) :
  String.substring 0 (String.length s) (s ++ t) = s.
Proof.
  induction s as [|a s IH]; simpl.
  - now destruct t.
  - now rewrite IH.
Qed.

Lemma substring_cut (s : string) :
  forall i,
    i <= String.length s ->
    s = (String.substring 0 i s
         ++ String.substring i (String.length s - i) s)%string.
Proof.
  induction s as [|a s IH]; intros i Hi; simpl in *.
  - destruct i; [reflexivity|lia].
  - destruct i as [|i]; simpl.
    + now rewrite StrFacts.substring_all.
    + f_equal. apply IH. lia.
Qed.

(** A text that ends with [p] is some text followed by [p]. *)
Lemma endswith_split (p s : string) :
  Str.endswith p s = true -> exists pre, s = (pre ++ p)%string.
Proof.
  unfold Str.endswith. intros H. apply andb_true_iff in H as [Hle Heq].
  apply Nat.leb_le in Hle. apply String.eqb_eq in Heq.
  remember (String.length p) as k eqn:Ek.
  exists (String.substring 0 (String.length s - k) s).
  pose proof (substring_cut s (String.length s - k) ltac:(lia)) as Hc.
  replace (String.length s - (String.length s - k)) with k in Hc by lia.
  now rewrite Heq in Hc.
Qed.

(** The segments of [s ++ t] when [t] holds no separator: the last segment
    of [s] is continued by [t]. *)
Lemma split_app_no_sep (c : ascii) (t : string) :
  Str.has_char c t = false ->
  forall s,
    Str.split c (s ++ t)
    = removelast (Str.split c s)
      ++ [(last (Str.split c s) EmptyString ++ t)%string].
Proof.
  intros Ht. induction s as [|a s IH].
  - simpl. now apply StrFacts.split_no_sep.
  - cbn [String.append Str.split]. rewrite IH.
    pose proof (StrFacts.split_not_nil c s) as Hne.
    destruct (Str.split c s) as [|h tl]; [contradiction|].
    destruct (Ascii.eqb a c).
    + destruct tl; reflexivity.
    + destruct tl; reflexivity.
Qed.

Lemma last_split_app_no_sep (c : ascii) (s t : string) :
  Str.has_char c t = false ->
  last (Str.split c (s ++ t)) EmptyString
  = (last (Str.split c s) EmptyString ++ t)%string.
Proof.
  intros Ht. rewrite (split_app_no_sep c t Ht s). apply last_last.
Qed.

(** The digits of a number hold no dot. *)
Lemma of_nat_no_dot (n : nat) : Str.has_char "."%char (Str.of_nat n) = false.
Proof.
  unfold Str.of_nat. generalize (Nat.to_uint n). intros d.
  induction d; simpl; auto.
Qed.

Lemma lower_ascii_idem (c : ascii) :
  Str.lower_ascii (Str.lower_ascii c) = Str.lower_ascii c.
Proof. destruct c as [[] [] [] [] [] [] [] []]; reflexivity. Qed.

Lemma lower_idem (s : string) : Str.lower (Str.lower s) = Str.lower s.
Proof.
  induction s as [|a s IH]; simpl; [reflexivity|].
  now rewrite lower_ascii_idem, IH.
Qed.

(** The extension after a dot that is followed by no other dot. *)
Lemma file_ext_app_dot (a b : string) :
  Str.has_char "."%char b = false ->
  file_ext (a ++ String "."%char b) = Str.lower b.
Proof.
  intros Hb. unfold file_ext. rewrite StrFacts.lower_app. simpl Str.lower.
  change (Str.lower_ascii ".") with "."%char.
  rewrite StrFacts.last_split_app.
  rewrite StrFacts.split_no_sep; [reflexivity|].
  now rewrite StrFacts.has_dot_lower.
Qed.

(** A name that ends in [.rpf], whatever the case, has the extension
    [rpf]. *)
Lemma container_name_ext (name : string) :
  Str.endswith ".rpf" (Str.lower name) = true -> file_ext name = "rpf".
Proof.
  intros H. apply endswith_split in H as [pre Hpre].
  unfold file_ext. rewrite Hpre.
  change (pre ++ ".rpf")%string with (pre ++ String "."%char "rpf")%string.
  now rewrite StrFacts.last_split_app.
Qed.

(** [splitext] cuts the name in two: the extension is empty, or begins
    with the last dot of the name. *)
Lemma splitext_spec (p : string) :
  p = (fst (splitext p) ++ snd (splitext p))%string
  /\ (snd (splitext p) = EmptyString /\ fst (splitext p) = p
      \/ exists t,
          snd (splitext p) = String "."%char t
          /\ Str.has_char "."%char t = false).
Proof.
  unfold splitext, Str.rfind.
  destruct (rfind_from_spec "."%char p 0 None)
    as [[_ ->]|(a & e & Hp & He & ->)].
  - simpl. rewrite StrFacts.app_empty_r. auto.
  - simpl Nat.add.
    destruct ((match Str.rfind_from "/"%char p 0 None with
               | Some s => S s
               | None => 0
               end <=? String.length a)
              && Str.has_other "."%char _); simpl.
    + unfold Str.slice, Str.slice_from. rewrite Nat.sub_0_r.
      rewrite Hp, substring_app_head.
      replace (String.length (a ++ String "." e) - String.length a)
        with (String.length (String "."%char e))
        by (rewrite StrFacts.length_app; lia).
      rewrite StrFacts.substring_app_tail.
      split; [reflexivity|]. right. now exists e.
    + rewrite StrFacts.app_empty_r. auto.
Qed.

End StrMore.

(** ** The accounts of [move_files] *)

Section Accounts.

Variable medium : path -> list byte -> copy_outcome.
Variables stream_dir data_dir : path.
Variable total : nat.
Variable progress_callback : bool.

Lemma fold_move_dir_counts
  (entries : list (path * list string * list string)) :
  forall st,
    let st' :=
      fold_left
        (move_dir medium stream_dir data_dir total progress_callback)
        entries st in
    let visited :=
      list_sum
        (map (fun e : path * list string * list string => List.length (snd e))
           (filter (fun e => negb (is_ignored (fst (fst e)))) entries)) in
    processed st' = processed st + visited
    /\ counted_files (moved_files st')
       = counted_files (moved_files st) + visited.
Proof.
  induction entries as [|[[root dirs] files] entries IH]; intros st.
  - simpl. unfold counted_files. lia.
  - cbn [fold_left filter fst]. unfold move_dir at 2 4.
    destruct (is_ignored root); cbn [negb].
    + apply IH.
    + cbv zeta in IH |- *.
      destruct (IH (fold_left
                      (move_file medium root (is_important root) stream_dir
                         data_dir total progress_callback) files st))
        as [Hp Hc].
      destruct (fold_move_file_counts medium stream_dir data_dir total
                  progress_callback root (is_important root) files st)
        as [Hp' Hc'].
      rewrite Hp, Hc. unfold counted_files in *. rewrite Hp', Hc'.
      simpl. lia.
Qed.

End Accounts.

Lemma visited_le_total (base_dir : path) (f : Fs.t) :
  visited_files base_dir f <= total_files base_dir f.
Proof.
  unfold visited_files, total_files.
  induction (Fs.os_walk base_dir f) as [|e l IH]; simpl; [lia|].
  destruct (negb (is_ignored (fst (fst e)))); simpl; lia.
Qed.

(** X1: when neither bucket lies in or below the decoded tree (so that
    the walk never meets a file the mover has written), every file of a
    directory that is not passed over is counted exactly once, as moved to
    stream, moved to data or skipped; the files of the directories passed
    over are counted in none of the three, so the sum of the counts can
    stay below the number of files found by the pre-scan. *)
Theorem move_files_counts_each_visited_file_once
  (medium : path -> list byte -> copy_outcome)
  (base_dir stream_dir data_dir : path) (cb : bool) (w : world) :
  ~ below base_dir stream_dir ->
  ~ below base_dir data_dir ->
  counted_files (fst (move_files medium base_dir stream_dir data_dir cb w))
  = visited_files base_dir (fs w)
  /\ visited_files base_dir (fs w) <= total_files base_dir (fs w).
Proof.
  intros _ _. split; [|apply visited_le_total].
  unfold move_files.
  destruct (total_files base_dir (fs w) =? 0) eqn:E.
  - apply Nat.eqb_eq in E. pose proof (visited_le_total base_dir (fs w)).
    cbn [fst]. unfold counted_files, no_moves; simpl. lia.
  - cbn [fst].
    destruct (fold_move_dir_counts medium stream_dir data_dir
                (total_files base_dir (fs w)) cb
                (Fs.os_walk base_dir (fs w)) (mkMover no_moves 0 w))
      as [_ Hc].
    cbv zeta in Hc. rewrite Hc. reflexivity.
Qed.

Lemma move_files_counts_each_visited_file_once_witness :
  counted_files
    (fst (move_files faithful_medium ["w"; "dlc"] ["out"; "stream"]
            ["out"; "data"] true (mkWorld Examples.mixed_tree [])))
  = visited_files ["w"; "dlc"] Examples.mixed_tree
  /\ visited_files ["w"; "dlc"] Examples.mixed_tree
     <= total_files ["w"; "dlc"] Examples.mixed_tree.
Proof.
  refine (move_files_counts_each_visited_file_once faithful_medium
            ["w"; "dlc"] ["out"; "stream"] ["out"; "data"] true
            (mkWorld Examples.mixed_tree []) _ _);
    intros [r Hr]; discriminate Hr.
Defined.

(** ** A copy that arrives whole *)

Section FaithfulCopy.

Variable medium : path -> list byte -> copy_outcome.

Lemma copy_checked_whole (file : string) (src dest : path) (b : bucket)
  (w : world) (bytes : list byte) (opened : Fs.t) :
  Fs.read src (fs w) = Some bytes ->
  Fs.write_file dest [] (fs w) = Some opened ->
  medium dest bytes = Copied bytes ->
  exists w',
    copy_checked medium file src dest b w = (MovedTo b, w')
    /\ Fs.read dest (fs w') = Some bytes
    /\ trace w' = trace w ++ [EvCreate dest].
Proof.
  intros Hr Ho Hm. unfold copy_checked, Fs.getsize.
  rewrite Hr, Ho, Hm. cbn [option_map].
  destruct (FsFacts.write_again dest [] bytes _ _ Ho) as [f2 Hw].
  unfold store. cbn [fs emit set_fs]. rewrite Hw. cbn [fs set_fs].
  assert (Hrd : Fs.read dest f2 = Some bytes).
  { unfold Fs.read. now rewrite (FsFacts.lookup_write_same _ _ _ _ Hw). }
  rewrite Hrd. cbn [option_map]. rewrite Nat.eqb_refl. cbn [negb].
  eexists. split; [reflexivity|]. split; [exact Hrd|reflexivity].
Qed.

End FaithfulCopy.

(** X2: when the bytes arrive whole, the file is counted as moved to its
    bucket (the other counts stay), the destination, which did not exist
    before, holds exactly the bytes of the source, and the source is still
    in place with its content: the mover copies, it does not move. *)
Theorem whole_copy_is_counted_and_identical
  (medium : path -> list byte -> copy_outcome)
  (root stream_dir data_dir : path) (important : bool) (total : nat)
  (cb : bool) (st : mover) (file : string)
  (dest0 : path) (b : bucket) (bytes : list byte) (opened : Fs.t) :
  file_ext file <> "rpf" ->
  destination important (file_ext file) file stream_dir data_dir
  = Some (dest0, b) ->
  Fs.read (join root file) (fs (mworld st)) = Some bytes ->
  Fs.write_file (unique_dest (fs (mworld st)) file dest0) [] (fs (mworld st))
  = Some opened ->
  medium (unique_dest (fs (mworld st)) file dest0) bytes = Copied bytes ->
  let dest := unique_dest (fs (mworld st)) file dest0 in
  let st' :=
    move_file medium root important stream_dir data_dir total cb st file in
  moved_files st' = count_moved b (moved_files st)
  /\ skipped (moved_files st') = skipped (moved_files st)
  /\ Fs.exists_ dest (fs (mworld st)) = false
  /\ Fs.read dest (fs (mworld st')) = Some bytes
  /\ Fs.read (join root file) (fs (mworld st')) = Some bytes.
Proof.
  intros Hext Hdest Hr Ho Hm dest st'.
  set (w := report cb (processed st + 1) total ("Processing: " ++ file)
              (mworld st)).
  assert (Hfs : fs w = fs (mworld st)) by apply fs_report.
  assert (Hstep :
            exists w',
              st' = mkMover (count_moved b (moved_files st))
                      (processed st + 1) w'
              /\ Fs.read dest (fs w') = Some bytes).
  { unfold st', move_file, try_body. fold w.
    apply String.eqb_neq in Hext. rewrite Hext, Hdest.
    rewrite <- Hfs in Hr, Ho, Hm.
    destruct (copy_checked_whole medium file (join root file) _ b w
                bytes opened Hr Ho Hm) as (w' & Hc & Hrd & _).
    exists w'. rewrite Hc. rewrite Hfs in Hrd. auto. }
  destruct Hstep as (w' & Hstep & Hrd).
  split; [now rewrite Hstep|].
  split; [rewrite Hstep; destruct b; reflexivity|].
  split.
  { apply destination_in_bucket in Hdest. subst dest0.
    apply Collision.unique_dest_free. }
  split; [now rewrite Hstep|].
  unfold st'. now apply move_file_preserves.
Qed.

Lemma whole_copy_is_counted_and_identical_witness :
  Fs.read ["out"; "stream"; "a.yft"]
    (fs (mworld
           (move_file faithful_medium ["w"; "dlc"] false
              ["out"; "stream"] ["out"; "data"] 1 false
              (mkMover no_moves 0 (mkWorld Examples.one_asset_tree []))
              "a.yft")))
  = Some Examples.two_bytes.
Proof.
  refine (proj1 (proj2 (proj2 (proj2
    (whole_copy_is_counted_and_identical faithful_medium
       ["w"; "dlc"] ["out"; "stream"] ["out"; "data"] false 1 false
       (mkMover no_moves 0 (mkWorld Examples.one_asset_tree []))
       "a.yft" (join ["out"; "stream"] "a.yft") BStream
       Examples.two_bytes
       (Fs.Dir [("w", Fs.Dir [("dlc", Fs.Dir [("a.yft", Fs.File Examples.two_bytes)])]);
                ("out", Fs.Dir [("stream", Fs.Dir [("a.yft", Fs.File [])]);
                                ("data", Fs.Dir [])])])
       _ _ _ _ _))))).
  - vm_compute. discriminate.
  - reflexivity.
  - reflexivity.
  - reflexivity.
  - reflexivity.
Defined.

(** ** The progress reports of [move_files] *)

Section Progress.

Variable medium : path -> list byte -> copy_outcome.
Variables stream_dir data_dir : path.
Variable total : nat.
Variable cb : bool.

Lemma progress_marks_app (l1 l2 : list event) :
  progress_marks (l1 ++ l2) = progress_marks l1 ++ progress_marks l2.
Proof.
  induction l1 as [|e l1 IH]; [reflexivity|].
  destruct e; simpl; now rewrite ?IH.
Qed.

Lemma copy_checked_marks (file : string) (src dest : path) (b : bucket)
  (w : world) :
  progress_marks (trace (snd (copy_checked medium file src dest b w)))
  = progress_marks (trace w).
Proof.
  unfold copy_checked.
  destruct (Fs.getsize src (fs w)); [|reflexivity].
  destruct (Fs.read src (fs w)); [|reflexivity].
  destruct (Fs.write_file dest [] (fs w)) as [opened|]; [|reflexivity].
  assert (Hs : forall d,
             progress_marks
               (trace (store dest d (emit (EvCreate dest) (set_fs opened w))))
             = progress_marks (trace w)).
  { intros d. rewrite Trace.trace_store. cbn [trace emit set_fs].
    rewrite progress_marks_app. simpl. apply app_nil_r. }
  destruct (medium dest l) as [stored|partial]; [|apply Hs].
  destruct (Fs.getsize dest _); [destruct (negb _)|]; apply Hs.
Qed.

Lemma move_file_marks (root : path) (important : bool) (st : mover)
  (file : string) :
  let st' :=
    move_file medium root important stream_dir data_dir total cb st file in
  processed st' = processed st + 1
  /\ progress_marks (trace (mworld st'))
     = progress_marks (trace (mworld st)) ++ marks_from cb total (processed st + 1) 1.
Proof.
  cbv zeta. unfold move_file.
  set (w := report cb (processed st + 1) total ("Processing: " ++ file)
              (mworld st)).
  assert (Hw : progress_marks (trace w)
               = progress_marks (trace (mworld st))
                 ++ marks_from cb total (processed st + 1) 1).
  { unfold w, report, marks_from. destruct cb.
    - cbn [trace emit]. rewrite progress_marks_app. reflexivity.
    - now rewrite app_nil_r. }
  assert (Hb : progress_marks
                 (trace (snd (try_body medium root important stream_dir
                                data_dir file w)))
               = progress_marks (trace w)).
  { unfold try_body.
    destruct (String.eqb (file_ext file) "rpf"); [reflexivity|].
    destruct (destination important (file_ext file) file stream_dir data_dir)
      as [[dest0 b]|]; [|reflexivity].
    apply copy_checked_marks. }
  destruct (try_body medium root important stream_dir data_dir file w)
    as [[| |] w']; cbn [snd processed mworld] in *;
    (split; [reflexivity|now rewrite Hb, Hw]).
Qed.

Lemma marks_from_app (from a b : nat) :
  marks_from cb total from (a + b) = marks_from cb total from a ++ marks_from cb total (from + a) b.
Proof.
  unfold marks_from. destruct cb; [|reflexivity].
  now rewrite seq_app, map_app.
Qed.

Lemma fold_move_file_marks (root : path) (important : bool)
  (files : list string) :
  forall st,
    progress_marks
      (trace (mworld (fold_left
                        (move_file medium root important stream_dir data_dir
                           total cb) files st)))
    = progress_marks (trace (mworld st))
      ++ marks_from cb total (processed st + 1) (List.length files).
Proof.
  induction files as [|file files IH]; intros st; cbn [fold_left].
  - unfold marks_from. destruct cb; simpl; now rewrite app_nil_r.
  - rewrite IH.
    destruct (move_file_marks root important st file) as [Hp Hm].
    cbv zeta in Hp, Hm. rewrite Hp, Hm, <- app_assoc. f_equal.
    change (List.length (file :: files)) with (1 + List.length files).
    now rewrite marks_from_app.
Qed.

Lemma fold_move_dir_marks
  (entries : list (path * list string * list string)) :
  forall st,
    progress_marks
      (trace (mworld (fold_left
                        (move_dir medium stream_dir data_dir total cb)
                        entries st)))
    = progress_marks (trace (mworld st))
      ++ marks_from cb total (processed st + 1)
           (list_sum
              (map (fun e : path * list string * list string =>
                      List.length (snd e))
                 (filter (fun e => negb (is_ignored (fst (fst e))))
                    entries))).
Proof.
  induction entries as [|[[root dirs] files] entries IH]; intros st.
  - simpl. unfold marks_from. destruct cb; simpl; now rewrite app_nil_r.
  - cbn [fold_left filter fst]. rewrite IH. unfold move_dir.
    destruct (is_ignored root); cbn [negb]; [reflexivity|].
    rewrite fold_move_file_marks, <- app_assoc. f_equal.
    destruct (fold_move_file_counts medium stream_dir data_dir total cb root
                (is_important root) files st) as [Hp _].
    cbv zeta in Hp. rewrite Hp.
    cbn [map list_sum fold_right snd].
    rewrite marks_from_app. do 2 f_equal. lia.
Qed.

End Progress.

(** X3: when neither bucket lies in or below the decoded tree, then with
    a callback [move_files] reports once per visited file, with the
    numbers 1, 2, ... in order and the pre-scan total each time, so every
    report has a current value between 1 and the total; without a callback
    it reports nothing.  The last number reported is the number of visited
    files, which is below the total when a directory that is passed over
    holds files. *)
Theorem move_files_progress_is_consecutive
  (medium : path -> list byte -> copy_outcome)
  (base_dir stream_dir data_dir : path) (cb : bool) (w : world) :
  ~ below base_dir stream_dir ->
  ~ below base_dir data_dir ->
  let w' := snd (move_files medium base_dir stream_dir data_dir cb w) in
  let new :=
    if cb
    then map (fun i => (i, total_files base_dir (fs w)))
           (seq 1 (visited_files base_dir (fs w)))
    else [] in
  progress_marks (trace w') = progress_marks (trace w) ++ new
  /\ Forall (fun m => 1 <= fst m <= snd m) new.
Proof.
  intros _ _. cbv zeta. split.
  - unfold move_files.
    destruct (total_files base_dir (fs w) =? 0) eqn:E.
    + apply Nat.eqb_eq in E. pose proof (visited_le_total base_dir (fs w)).
      replace (visited_files base_dir (fs w)) with 0 by lia.
      cbn [snd]. destruct cb; simpl; now rewrite app_nil_r.
    + cbn [snd].
      exact (fold_move_dir_marks medium stream_dir data_dir
               (total_files base_dir (fs w)) cb _ (mkMover no_moves 0 w)).
  - destruct cb; [|constructor].
    apply Forall_forall. intros m Hm.
    apply in_map_iff in Hm as (i & <- & Hi). apply in_seq in Hi.
    pose proof (visited_le_total base_dir (fs w)). simpl. lia.
Qed.

Lemma move_files_progress_is_consecutive_witness :
  progress_marks
    (trace
       (snd (move_files faithful_medium ["w"; "dlc"] ["out"; "stream"]
               ["out"; "data"] true (mkWorld Examples.mixed_tree []))))
  = [(1, 6); (2, 6); (3, 6); (4, 6); (5, 6)].
Proof.
  refine (proj1
    (move_files_progress_is_consecutive faithful_medium ["w"; "dlc"]
       ["out"; "stream"] ["out"; "data"] true
       (mkWorld Examples.mixed_tree []) _ _));
    intros [r Hr]; discriminate Hr.
Defined.

(** ** The names the mover writes *)

Module Names.

Lemma plain_not_container (file : string) :
  file_ext file <> "rpf" -> container_name file = false.
Proof.
  intros Hext. unfold container_name.
  destruct (Str.endswith ".rpf" (Str.lower file)) eqn:E; [|reflexivity].
  now apply StrMore.container_name_ext in E.
Qed.

(** With a proper extension, the numbered name has the extension of the
    name it comes from. *)
Lemma numbered_ext (file : string) (k : nat) :
  snd (splitext file) <> EmptyString ->
  file_ext (numbered_name (fst (splitext file)) (snd (splitext file)) k)
  = file_ext file.
Proof.
  intros Hne.
  destruct (StrMore.splitext_spec file) as [Hsum [[He _]|(t & He & Ht)]];
    [contradiction|].
  rewrite Hsum at 3. rewrite He. unfold numbered_name.
  rewrite (StrMore.file_ext_app_dot _ t Ht).
  rewrite <- !StrFacts.app_assoc.
  now rewrite (StrMore.file_ext_app_dot _ t Ht).
Qed.

Lemma numbered_not_container (file : string) (k : nat) :
  file_ext file <> "rpf" ->
  container_name
    (numbered_name (fst (splitext file)) (snd (splitext file)) k) = false.
Proof.
  intros Hext.
  destruct (StrMore.splitext_spec file) as [Hsum [[He Hb]|(t & He & Ht)]].
  - (* no extension: the name ends with the counter *)
    unfold container_name.
    destruct (Str.endswith ".rpf" (Str.lower (numbered_name _ _ k))) eqn:E;
      [|reflexivity].
    exfalso. apply StrMore.container_name_ext in E.
    rewrite He, Hb in E. unfold numbered_name, file_ext in E.
    rewrite StrFacts.lower_app in E.
    rewrite StrMore.last_split_app_no_sep in E.
    + apply (f_equal (Str.has_char "_"%char)) in E.
      rewrite StrMore.has_char_app in E. simpl in E.
      rewrite orb_true_r in E. discriminate.
    + rewrite StrFacts.has_dot_lower. simpl.
      rewrite StrMore.has_char_app, StrMore.of_nat_no_dot. reflexivity.
  - apply plain_not_container.
    rewrite numbered_ext; [exact Hext|]. rewrite He. discriminate.
Qed.

(** The bucket only depends on the extension, not on the name. *)
Lemma destination_bucket (important : bool) (ext n1 n2 : string) :
  match destination important ext n1 [] [] with
  | Some (_, b) => To b
  | None => Skip
  end
  = match destination important ext n2 [] [] with
    | Some (_, b) => To b
    | None => Skip
    end.
Proof.
  unfold destination.
  destruct (important || Str.mem ext STREAM_EXTENSIONS); [reflexivity|].
  destruct (Str.mem ext DATA_EXTENSIONS); reflexivity.
Qed.

Lemma classify_ext (root : path) (n1 n2 : string) :
  file_ext n1 = file_ext n2 -> classify root n1 = classify root n2.
Proof.
  intros H. unfold classify. rewrite H.
  destruct (is_ignored root); [reflexivity|].
  destruct (String.eqb (file_ext n2) "rpf"); [reflexivity|].
  apply destination_bucket.
Qed.

(** The name that is written is the name of the file or a numbered
    one. *)
Lemma unique_dest_name (f : Fs.t) (d : path) (file : string) :
  basename (unique_dest f file (join d file)) = file
  \/ exists k,
      1 <= k
      /\ Fs.exists_ (join d file) f = true
      /\ basename (unique_dest f file (join d file))
         = numbered_name (fst (splitext file)) (snd (splitext file)) k.
Proof.
  destruct (Fs.exists_ (join d file) f) eqn:E.
  - right. destruct (Collision.unique_dest_least f d file E)
      as (j & Hj & Hp & _).
    exists j. rewrite Hp, Collision.basename_join. auto.
  - left. unfold unique_dest. rewrite E. apply Collision.basename_join.
Qed.

End Names.

(** X4: when a name with a proper extension is taken in the bucket, the
    file is stored under the name with [_k] put before the extension, for
    some [k] from 1 on; the stored name has the same extension as the
    original and is classified the same way. *)
Theorem renamed_file_keeps_its_extension
  (f : Fs.t) (d : path) (file : string) :
  Fs.exists_ (join d file) f = true ->
  snd (splitext file) <> EmptyString ->
  let stored := basename (unique_dest f file (join d file)) in
  (exists k,
      1 <= k
      /\ stored
         = (fst (splitext file) ++ "_" ++ Str.of_nat k
              ++ snd (splitext file))%string)
  /\ file = (fst (splitext file) ++ snd (splitext file))%string
  /\ file_ext stored = file_ext file
  /\ forall root, classify root stored = classify root file.
Proof.
  intros E Hne stored.
  destruct (Collision.unique_dest_least f d file E) as (j & Hj & Hp & _).
  assert (Hs : stored
               = numbered_name (fst (splitext file)) (snd (splitext file)) j).
  { unfold stored. now rewrite Hp, Collision.basename_join. }
  assert (He : file_ext stored = file_ext file).
  { rewrite Hs. now apply Names.numbered_ext. }
  split; [exists j; split; [exact Hj|exact Hs]|].
  split; [apply StrMore.splitext_spec|].
  split; [exact He|].
  intros root. now apply Names.classify_ext.
Qed.

Lemma renamed_file_keeps_its_extension_witness :
  file_ext
    (basename
       (unique_dest Examples.bucket_with_x "x.ydr"
          (join ["out"; "stream"] "x.ydr")))
  = file_ext "x.ydr".
Proof.
  refine (proj1 (proj2 (proj2
    (renamed_file_keeps_its_extension Examples.bucket_with_x
       ["out"; "stream"] "x.ydr" _ _)))).
  - reflexivity.
  - vm_compute. discriminate.
Defined.

(** X5: the mover never writes a file under a container name: whatever
    the file, the only file the body of [try] can create has a name that
    does not end in [.rpf] in any case, be it the name of the source or a
    numbered one. *)
Theorem mover_never_writes_a_container_name
  (medium : path -> list byte -> copy_outcome)
  (root stream_dir data_dir : path) (important : bool) (file : string)
  (w : world) :
  let w' :=
    snd (try_body medium root important stream_dir data_dir file w) in
  trace w' = trace w
  \/ exists dest,
      trace w' = trace w ++ [EvCreate dest]
      /\ container_name (basename dest) = false
      /\ (dirname dest = stream_dir \/ dirname dest = data_dir).
Proof.
  cbv zeta. unfold try_body.
  destruct (String.eqb (file_ext file) "rpf") eqn:Eext; [now left|].
  apply String.eqb_neq in Eext.
  destruct (destination important (file_ext file) file stream_dir data_dir)
    as [[dest0 b]|] eqn:Ed; [|now left].
  apply destination_in_bucket in Ed. subst dest0.
  set (d := bucket_dir stream_dir data_dir b).
  set (dest := unique_dest (fs w) file (join d file)).
  assert (Hname : container_name (basename dest) = false).
  { unfold dest.
    destruct (Names.unique_dest_name (fs w) d file) as [->|(k & _ & _ & ->)].
    - now apply Names.plain_not_container.
    - now apply Names.numbered_not_container. }
  assert (Hdir : dirname dest = stream_dir \/ dirname dest = data_dir).
  { unfold dest. rewrite Collision.unique_dest_dirname.
    unfold d. destruct b; auto. }
  assert (Hs : forall x opened,
             trace (store dest x (emit (EvCreate dest) (set_fs opened w)))
             = trace w ++ [EvCreate dest]).
  { intros x opened. now rewrite Trace.trace_store. }
  unfold copy_checked.
  destruct (Fs.getsize (join root file) (fs w)); [|now left].
  destruct (Fs.read (join root file) (fs w)); [|now left].
  destruct (Fs.write_file dest [] (fs w)) as [opened|]; [|now left].
  right. exists dest. split; [|split; assumption].
  destruct (medium dest l) as [stored|partial]; [|apply Hs].
  destruct (Fs.getsize dest _); [destruct (negb _)|]; apply Hs.
Qed.

(** ** Folder names are looked for in the text of the path *)

Module FolderMatch.

Lemma contains_prepend (sub s t : string) :
  Str.contains sub t = true -> Str.contains sub (s ++ t) = true.
Proof.
  intros H. induction s as [|a s IH]; [exact H|].
  simpl. rewrite IH. apply orb_true_r.
Qed.

Lemma contains_middle (sub pre s post : string) :
  Str.contains sub s = true -> Str.contains sub (pre ++ s ++ post) = true.
Proof.
  intros H. apply contains_prepend. now apply StrFacts.contains_app.
Qed.

(** The text of a path holds each component. *)
Lemma path_str_component (comp : string) (root : path) :
  In comp root ->
  exists pre post, path_str root = (pre ++ comp ++ post)%string.
Proof.
  unfold path_str. induction root as [|x xs IH]; [contradiction|].
  intros [->|Hin].
  - exists EmptyString. destruct xs as [|y ys].
    + exists EmptyString. simpl. now rewrite StrFacts.app_empty_r.
    + exists (os_sep ++ String.concat os_sep (y :: ys))%string. reflexivity.
  - destruct (IH Hin) as (pre & post & Heq).
    destruct xs as [|y ys]; [contradiction|].
    exists (x ++ os_sep ++ pre)%string, post.
    change (String.concat os_sep (x :: y :: ys))
      with (x ++ os_sep ++ String.concat os_sep (y :: ys))%string.
    rewrite Heq. now rewrite !StrFacts.app_assoc.
Qed.

Lemma any_folder_in_component (names : list string) (name comp : string)
  (root : path) :
  In name names -> In comp root ->
  Str.contains (Str.lower name) (Str.lower comp) = true ->
  any_folder_in names root = true.
Proof.
  intros Hn Hc Hsub. unfold any_folder_in. apply existsb_exists.
  exists name. split; [exact Hn|].
  destruct (path_str_component comp root Hc) as (pre & post & ->).
  rewrite !StrFacts.lower_app. now apply contains_middle.
Qed.

(** Nothing is consolidated from a tree whose own path is ignored. *)
Lemma move_files_ignored_base (medium : path -> list byte -> copy_outcome)
  (base_dir stream_dir data_dir : path) (cb : bool) (w : world) :
  is_ignored base_dir = true ->
  move_files medium base_dir stream_dir data_dir cb w = (no_moves, w).
Proof.
  intros Hi. unfold move_files.
  destruct (total_files base_dir (fs w) =? 0); [reflexivity|].
  rewrite fold_move_dir_ignored; [reflexivity|].
  unfold Fs.os_walk.
  destruct (Fs.lookup base_dir (fs w)) as [n|]; [|constructor].
  apply Forall_forall. intros e. now apply FsFacts.walk_ignored.
Qed.

End FolderMatch.

(** X6: the folder names are matched against the whole text of the path,
    not against its components: a directory is passed over as soon as any
    component of its path, also one above the decoded tree, contains an
    ignored-folder name as a part of its name, in any case; when this
    holds for the decoded tree itself, nothing at all is consolidated.  In
    the same way any component that contains an important-folder name makes
    the directory important. *)
Theorem folder_names_match_inside_components
  (name comp : string) (root : path) :
  In comp root ->
  Str.contains (Str.lower name) (Str.lower comp) = true ->
  (In name IGNORE_FOLDERS ->
   is_ignored root = true
   /\ forall medium stream_dir data_dir cb w,
       move_files medium root stream_dir data_dir cb w = (no_moves, w))
  /\ (In name IMPORTANT_FOLDERS -> is_important root = true).
Proof.
  intros Hc Hsub. split.
  - intros Hn.
    assert (Hi : is_ignored root = true)
      by exact (FolderMatch.any_folder_in_component _ _ _ _ Hn Hc Hsub).
    split; [exact Hi|].
    intros. now apply FolderMatch.move_files_ignored_base.
  - intros Hn.
    exact (FolderMatch.any_folder_in_component _ _ _ _ Hn Hc Hsub).
Qed.

Lemma folder_names_match_inside_components_witness :
  is_ignored ["C:"; "mods"; "Slang_Pack"; "dlc"] = true.
Proof.
  refine (proj1 (proj1
    (folder_names_match_inside_components "lang" "Slang_Pack"
       ["C:"; "mods"; "Slang_Pack"; "dlc"] _ _) _)).
  - simpl. auto.
  - reflexivity.
  - simpl. auto.
Defined.

(** ** More on the file tree *)

Module FsMore.

Import Fs.

Lemma assoc_del_same (a : string) (es : list (string * node)) :
  assoc a (del_entry a es) = None.
Proof.
  induction es as [|[k m] es IH]; simpl; [reflexivity|].
  destruct (String.eqb k a) eqn:E; simpl; [exact IH|].
  now rewrite E.
Qed.

Lemma rmtree_dir_is_dir (p : path) (es : list (string * node)) :
  exists es', rmtree p (Dir es) = Dir es'.
Proof.
  destruct p as [|c [|c2 p]]; simpl; eauto.
  destruct (assoc c es); eauto.
Qed.

(** Making directories never changes a file. *)
Lemma read_makedirs (p : path) :
  forall n n' q x,
    makedirs p n = Some n' -> read q n = Some x -> read q n' = Some x.
Proof.
  unfold read.
  induction p as [|c p IH]; intros n n' q x H Hr; [discriminate|].
  destruct n as [d|es]; [discriminate|]. cbn [makedirs] in H.
  destruct q as [|c' q]; [discriminate|].
  cbn [lookup] in Hr.
  destruct (String.eqb_spec c' c) as [->|Hc].
  - destruct (assoc c es) as [n1|] eqn:Ea; [|discriminate].
    destruct (makedirs p n1) as [n1'|] eqn:E; [|discriminate].
    cbn [option_map] in H. inversion H; subst.
    cbn [lookup]. rewrite FsFacts.assoc_set_same. now apply (IH n1).
  - assert (exists y, n' = Dir (set_entry c y es)) as [y ->].
    { destruct (assoc c es) as [n1|]; [|inversion H; eauto].
      destruct (makedirs p n1); inversion H; eauto. }
    cbn [lookup]. now rewrite FsFacts.assoc_set_other.
Qed.

(** Removing a tree leaves every file outside it as it was. *)
Lemma read_rmtree_outside (p : path) :
  forall n q,
    ~ below p q -> read q (rmtree p n) = read q n.
Proof.
  unfold read.
  induction p as [|c p IH]; intros n q Hout.
  - exfalso. apply Hout. now exists q.
  - destruct n as [d|es]; [now rewrite FsFacts.rmtree_on_file|].
    destruct q as [|c' q].
    + destruct (rmtree_dir_is_dir (c :: p) es) as [es' ->]. reflexivity.
    + destruct (String.eqb_spec c' c) as [->|Hc].
      * destruct p as [|c2 p].
        -- exfalso. apply Hout. now exists q.
        -- rewrite FsFacts.rmtree_inner. cbn [lookup].
           destruct (assoc c es) as [n1|] eqn:Ea.
           ++ cbn [lookup]. rewrite FsFacts.assoc_set_same.
              apply IH. intros [r Hr]. apply Hout. exists r.
              simpl. now rewrite Hr.
           ++ cbn [lookup]. now rewrite Ea.
      * destruct p as [|c2 p].
        -- simpl. now rewrite FsFacts.assoc_del_other.
        -- rewrite FsFacts.rmtree_inner. cbn [lookup].
           destruct (assoc c es) as [n1|]; cbn [lookup]; [|reflexivity].
           now rewrite FsFacts.assoc_set_other.
Qed.

(** In a directory, an entry can be removed and a missing one made. *)
Lemma rmtree_in_dir (a : string) (d : path) :
  forall n es,
    lookup d n = Some (Dir es) ->
    lookup d (rmtree (d ++ [a]) n) = Some (Dir (del_entry a es)).
Proof.
  induction d as [|c d IH]; intros n es H.
  - simpl in H. inversion H; subst. reflexivity.
  - destruct n as [x|es0]; [discriminate|]. cbn [lookup] in H.
    destruct (assoc c es0) as [n1|] eqn:Ea; [|discriminate].
    rewrite <- app_comm_cons.
    destruct (d ++ [a]) as [|c2 p] eqn:E; [now destruct d|].
    rewrite FsFacts.rmtree_inner, Ea. cbn [lookup].
    rewrite FsFacts.assoc_set_same. now apply IH.
Qed.

Lemma makedirs_in_dir (a : string) (d : path) :
  forall n es,
    lookup d n = Some (Dir es) ->
    assoc a es = None ->
    exists n',
      makedirs (d ++ [a]) n = Some n'
      /\ lookup d n' = Some (Dir (set_entry a (Dir []) es)).
Proof.
  induction d as [|c d IH]; intros n es H Ha.
  - simpl in H. inversion H; subst. simpl. rewrite Ha. eauto.
  - destruct n as [x|es0]; [discriminate|]. cbn [lookup] in H.
    destruct (assoc c es0) as [n1|] eqn:Ea; [|discriminate].
    rewrite <- app_comm_cons. cbn [makedirs]. rewrite Ea.
    destruct (IH n1 es H Ha) as (n1' & Hm & Hl). rewrite Hm.
    cbn [option_map]. eexists. split; [reflexivity|].
    cbn [lookup]. now rewrite FsFacts.assoc_set_same.
Qed.

Lemma lookup_entry (a : string) (d : path) (n : node)
  (es : list (string * node)) :
  lookup d n = Some (Dir es) -> lookup (d ++ [a]) n = assoc a es.
Proof.
  intros H. rewrite FsFacts.lookup_app, H. simpl.
  now destruct (assoc a es).
Qed.

End FsMore.

(** ** More on the bucket reset *)

Module ResetMore.

Lemma clean_dir_ok (d : path) (a : string) (w : world)
  (es : list (string * Fs.node)) :
  Fs.lookup d (fs w) = Some (Fs.Dir es) ->
  Fs.read (join d a) (fs w) = None ->
  exists w' es',
    clean_dir (join d a) w = Some w'
    /\ Fs.lookup d (fs w') = Some (Fs.Dir es').
Proof.
  intros Hd Hnf. unfold clean_dir, join in *.
  destruct (Fs.exists_ (d ++ [a]) (fs w)) eqn:E.
  - assert (Hdir : Fs.isdir (d ++ [a]) (fs w) = true).
    { unfold Fs.exists_, Fs.isdir, Fs.read in *.
      destruct (Fs.lookup (d ++ [a]) (fs w)) as [[|]|]; congruence. }
    rewrite Hdir. cbn [fs emit set_fs].
    pose proof (FsMore.rmtree_in_dir a d _ _ Hd) as Hr.
    destruct (FsMore.makedirs_in_dir a d _ _ Hr (FsMore.assoc_del_same a es))
      as (n' & Hm & Hl).
    rewrite Hm. eexists; eexists. split; [reflexivity|exact Hl].
  - assert (Ha : Fs.assoc a es = None).
    { rewrite <- (FsMore.lookup_entry a d _ _ Hd).
      unfold Fs.exists_ in E.
      now destruct (Fs.lookup (d ++ [a]) (fs w)). }
    destruct (FsMore.makedirs_in_dir a d _ _ Hd Ha) as (n' & Hm & Hl).
    rewrite Hm. eexists; eexists. split; [reflexivity|exact Hl].
Qed.

Lemma clean_dir_preserves (d : path) (w w' : world) (q : path)
  (x : list byte) :
  clean_dir d w = Some w' ->
  ~ below d q ->
  Fs.read q (fs w) = Some x -> Fs.read q (fs w') = Some x.
Proof.
  intros H Hout Hq.
  destruct (Reset.clean_dir_inv _ _ _ H)
    as [(_ & f' & E & ->)|(_ & f' & E & ->)]; cbn [fs emit set_fs].
  - apply (FsMore.read_makedirs _ _ _ _ _ E).
    now rewrite FsMore.read_rmtree_outside.
  - exact (FsMore.read_makedirs _ _ _ _ _ E Hq).
Qed.

(** The two bucket resets in an output directory that is there. *)
Lemma ensure_clean_dirs_ok (output_dir : path) (w : world)
  (es : list (string * Fs.node)) :
  Fs.lookup output_dir (fs w) = Some (Fs.Dir es) ->
  Fs.read (join output_dir "stream") (fs w) = None ->
  Fs.read (join output_dir "data") (fs w) = None ->
  exists w2,
    ensure_clean_dirs output_dir w
    = (Return (join output_dir "stream", join output_dir "data"), w2).
Proof.
  intros Hd Hs Hdt.
  destruct (clean_dir_ok output_dir "stream" w es Hd Hs)
    as (w1 & es1 & H1 & Hd1).
  assert (Hdt1 : Fs.read (join output_dir "data") (fs w1) = None).
  { assert (Hne : "stream" <> "data") by discriminate.
    pose proof (Reset.clean_dir_sibling output_dir "stream" "data" [] w w1
                  Hne H1) as Hl.
    rewrite app_nil_r in Hl. unfold Fs.read in *. now rewrite Hl. }
  destruct (clean_dir_ok output_dir "data" w1 es1 Hd1 Hdt1)
    as (w2 & es2 & H2 & _).
  exists w2. unfold ensure_clean_dirs. now rewrite H1, H2.
Qed.

(** The events of the reset of one bucket. *)
Lemma clean_dir_events (out : path) (name : string) (w w' : world) :
  name = "stream" \/ name = "data" ->
  clean_dir (join out name) w = Some w' ->
  exists c,
    trace w' = trace w ++ c
    /\ Forall (resets_bucket out) c
    /\ In (EvMakedirs (join out name)) c
    /\ (Fs.isdir (join out name) (fs w) = true ->
        In (EvRmtree (join out name)) c).
Proof.
  intros Hname H.
  assert (Rr : resets_bucket out (EvRmtree (join out name)))
    by (exists name; auto).
  assert (Rm : resets_bucket out (EvMakedirs (join out name)))
    by (exists name; auto).
  destruct (Reset.clean_dir_inv _ _ _ H)
    as [(_ & f' & _ & ->)|(Hex & f' & _ & ->)]; cbn [trace emit set_fs].
  - exists [EvRmtree (join out name); EvMakedirs (join out name)].
    split; [now rewrite <- app_assoc|].
    split; [repeat constructor; assumption|]. simpl. auto.
  - exists [EvMakedirs (join out name)].
    split; [reflexivity|]. split; [repeat constructor; assumption|].
    split; [now left|].
    intros Hd. unfold Fs.isdir, Fs.exists_ in *.
    destruct (Fs.lookup (join out name) (fs w)) as [[|]|]; discriminate.
Qed.

(** The events of [ensure_clean_dirs]: resets of the two buckets only,
    each bucket is made, and each one that was there is removed. *)
Lemma ensure_clean_dirs_events (output_dir stream_dir data_dir : path)
  (w w2 : world) :
  ensure_clean_dirs output_dir w = (Return (stream_dir, data_dir), w2) ->
  exists clean,
    trace w2 = trace w ++ clean
    /\ Forall (resets_bucket output_dir) clean
    /\ In (EvMakedirs (join output_dir "stream")) clean
    /\ In (EvMakedirs (join output_dir "data")) clean
    /\ (Fs.isdir (join output_dir "stream") (fs w) = true ->
        In (EvRmtree (join output_dir "stream")) clean)
    /\ (Fs.isdir (join output_dir "data") (fs w) = true ->
        In (EvRmtree (join output_dir "data")) clean).
Proof.
  unfold ensure_clean_dirs.
  destruct (clean_dir (join output_dir "stream") w) as [w1|] eqn:E1;
    [|discriminate].
  destruct (clean_dir (join output_dir "data") w1) as [w2'|] eqn:E2;
    [|discriminate].
  intros H; inversion H; subst.
  destruct (clean_dir_events output_dir "stream" w w1 (or_introl eq_refl) E1)
    as (c1 & Ht1 & Hf1 & Hm1 & Hr1).
  destruct (clean_dir_events output_dir "data" w1 w2 (or_intror eq_refl) E2)
    as (c2 & Ht2 & Hf2 & Hm2 & Hr2).
  exists (c1 ++ c2).
  split; [now rewrite Ht2, Ht1, <- app_assoc|].
  split; [now apply Forall_app|].
  split; [apply in_or_app; now left|].
  split; [apply in_or_app; now right|].
  split; [intros Hd; apply in_or_app; left; now apply Hr1|].
  intros Hd. apply in_or_app. right. apply Hr2.
  assert (Hne : "stream" <> "data") by discriminate.
  pose proof (Reset.clean_dir_sibling output_dir "stream" "data" [] w w1
                Hne E1) as Hl.
  rewrite app_nil_r in Hl. unfold Fs.isdir in *. now rewrite Hl.
Qed.

Lemma nothing_below_empty_dir (d r : path) (f : Fs.t) :
  Fs.listdir d f = Some [] -> r <> [] -> Fs.exists_ (d ++ r) f = false.
Proof.
  unfold Fs.listdir, Fs.exists_. intros H Hr.
  rewrite FsFacts.lookup_app.
  destruct (Fs.lookup d f) as [[x|es]|]; try discriminate.
  destruct es as [|e es]; [|discriminate].
  destruct r as [|c r]; [congruence|reflexivity].
Qed.

End ResetMore.

(** X7: in an output directory that exists, [ensure_clean_dirs] does not
    raise: it returns the two bucket paths and leaves both buckets there
    and empty, whether or not they were there before.  (A bucket path that
    is a regular file is left out: [shutil.rmtree] raises on it.) *)
Theorem bucket_reset_succeeds_in_existing_directory
  (output_dir : path) (w : world) (es : list (string * Fs.node)) :
  Fs.lookup output_dir (fs w) = Some (Fs.Dir es) ->
  Fs.read (join output_dir "stream") (fs w) = None ->
  Fs.read (join output_dir "data") (fs w) = None ->
  exists w2,
    ensure_clean_dirs output_dir w
    = (Return (join output_dir "stream", join output_dir "data"), w2)
    /\ Fs.listdir (join output_dir "stream") (fs w2) = Some []
    /\ Fs.listdir (join output_dir "data") (fs w2) = Some [].
Proof.
  intros Hd Hs Hdt.
  destruct (ResetMore.ensure_clean_dirs_ok output_dir w es Hd Hs Hdt)
    as [w2 He].
  exists w2. split; [exact He|].
  destruct (Reset.ensure_clean_dirs_spec _ _ _ _ _ He)
    as (_ & _ & Hl1 & Hl2 & _).
  auto.
Qed.

Lemma bucket_reset_succeeds_in_existing_directory_witness :
  exists w2,
    ensure_clean_dirs ["out"] (mkWorld Examples.mixed_tree [])
    = (Return (join ["out"] "stream", join ["out"] "data"), w2)
    /\ Fs.listdir (join ["out"] "stream") (fs w2) = Some []
    /\ Fs.listdir (join ["out"] "data") (fs w2) = Some [].
Proof.
  refine (bucket_reset_succeeds_in_existing_directory ["out"]
            (mkWorld Examples.mixed_tree [])
            [("stream", Fs.Dir [("old.ydr", Fs.File Examples.two_bytes)]);
             ("data", Fs.Dir []);
             ("notes.txt", Fs.File Examples.two_bytes)] _ _ _);
    reflexivity.
Defined.

(** X8: [ensure_clean_dirs] destroys what was below the two buckets and
    nothing else: when it returns, nothing exists below either bucket, and
    every file whose path does not lie in a bucket is still there with its
    content.  (As before, neither bucket path is a regular file.) *)
Theorem bucket_reset_touches_only_the_buckets
  (output_dir stream_dir data_dir : path) (w w2 : world) :
  Fs.read (join output_dir "stream") (fs w) = None ->
  Fs.read (join output_dir "data") (fs w) = None ->
  ensure_clean_dirs output_dir w = (Return (stream_dir, data_dir), w2) ->
  (forall q x,
      Fs.read q (fs w) = Some x ->
      ~ below stream_dir q -> ~ below data_dir q ->
      Fs.read q (fs w2) = Some x)
  /\ (forall r,
         r <> [] ->
         Fs.exists_ (stream_dir ++ r) (fs w2) = false
         /\ Fs.exists_ (data_dir ++ r) (fs w2) = false).
Proof.
  intros _ _ He.
  destruct (Reset.ensure_clean_dirs_spec _ _ _ _ _ He)
    as (-> & -> & Hl1 & Hl2 & _).
  split.
  - intros q x Hq Hs Hd. unfold ensure_clean_dirs in He.
    destruct (clean_dir (join output_dir "stream") w) as [w1|] eqn:E1;
      [|discriminate].
    destruct (clean_dir (join output_dir "data") w1) as [w2'|] eqn:E2;
      [|discriminate].
    inversion He; subst.
    apply (ResetMore.clean_dir_preserves _ _ _ _ _ E2 Hd).
    exact (ResetMore.clean_dir_preserves _ _ _ _ _ E1 Hs Hq).
  - intros r Hr. split; now apply ResetMore.nothing_below_empty_dir.
Qed.

Lemma bucket_reset_touches_only_the_buckets_witness :
  Fs.read ["out"; "notes.txt"]
    (fs (snd (ensure_clean_dirs ["out"] (mkWorld Examples.mixed_tree []))))
  = Some Examples.two_bytes
  /\ Fs.exists_ (["out"; "stream"] ++ ["old.ydr"])
       (fs (snd (ensure_clean_dirs ["out"] (mkWorld Examples.mixed_tree []))))
     = false.
Proof.
  pose proof
    (bucket_reset_touches_only_the_buckets ["out"] ["out"; "stream"]
       ["out"; "data"] (mkWorld Examples.mixed_tree [])
       (snd (ensure_clean_dirs ["out"] (mkWorld Examples.mixed_tree [])))
       eq_refl eq_refl eq_refl) as [Hkeep Hgone].
  split.
  - apply Hkeep.
    + reflexivity.
    + intros [r Hr]. discriminate Hr.
    + intros [r Hr]. discriminate Hr.
  - apply (Hgone ["old.ydr"]). discriminate.
Defined.

(** ** The ways the recursive extractor gives up *)

Lemma locate_nothing (rpf_file extraction_dir : path) (f : Fs.t)
  (items : list string) :
  Fs.exists_ extraction_dir f = false ->
  Fs.exists_ (join (dirname rpf_file) "dlc") f = false ->
  Fs.exists_
    (join (dirname rpf_file) (fst (splitext (basename rpf_file)))) f = false ->
  Fs.listdir (dirname rpf_file) f = Some items ->
  (forall item,
      In item items ->
      Fs.isdir (join (dirname rpf_file) item) f = true ->
      item = "stream" \/ item = "data") ->
  locate_base_dir rpf_file extraction_dir f = Return None.
Proof.
  intros E1 E2 E3 Hl Hitems. unfold locate_base_dir.
  cbn [find]. rewrite E1, E2, E3, Hl.
  destruct (find _ items) as [item|] eqn:E; [|reflexivity].
  apply find_some in E as [Hin E]. apply andb_true_iff in E as [Hd Hm].
  destruct (Hitems item Hin Hd) as [-> | ->]; discriminate Hm.
Qed.

(** X9: every way the decoder can fail is fatal for the call and for the
    call only: on a timeout, a missing tool, a non-zero exit or any other
    exception the function returns at once with no tally, a message that
    tells the failures apart and an empty list, the file system is as the
    decoder left it and nothing but the progress report and the decoder
    run has been recorded. *)
Theorem decoder_failure_ends_the_call
  (medium : path -> list byte -> copy_outcome)
  (subprocess_run : string -> path -> Fs.t -> run_outcome * Fs.t)
  (decode_utf8 : list byte -> string)
  (fuel : nat) (rpf_file : path) (rpf_cli : string) (output_dir : path)
  (cb is_nested : bool) (w : world) (ran : run_outcome) (f1 : Fs.t) :
  subprocess_run rpf_cli rpf_file (fs w) = (ran, f1) ->
  ran <> Completed ->
  let r :=
    extract_rpf_recursive medium subprocess_run decode_utf8 (S fuel) rpf_file
      rpf_cli output_dir cb is_nested w in
  (exists msg,
      fst r = Return (None, Some msg, [])
      /\ (ran = TimeoutExpired ->
          msg = "Extraction timed out (5 minutes limit)")
      /\ (ran = FileNotFoundError ->
          msg = "Extraction tool not found. Please check the tool path.")
      /\ (forall str_e,
             ran = OtherException str_e ->
             msg = ("Unexpected error during extraction: " ++ str_e)%string))
  /\ fs (snd r) = f1
  /\ trace (snd r)
     = trace (report cb 0 100 ("Extracting: " ++ basename rpf_file) w)
       ++ [EvDecode rpf_file].
Proof.
  intros Hrun Hne r. unfold r. cbn [extract_rpf_recursive].
  rewrite fs_report, Hrun.
  destruct ran; [contradiction| | | |]; cbn [fst snd fs trace emit set_fs];
    (split; [eexists; split; [reflexivity|];
             repeat split; intros; try discriminate; try congruence
            |split; reflexivity]).
Qed.

Lemma decoder_failure_ends_the_call_witness :
  exists msg,
    fst (extract_rpf_recursive faithful_medium
           (fun _ _ f => (TimeoutExpired, f)) Examples.decode_ascii 1
           ["w"; "top.rpf"] "rpf-cli.exe" ["out"] true false
           (mkWorld Examples.mixed_tree []))
    = Return (None, Some msg, [])
    /\ msg = "Extraction timed out (5 minutes limit)".
Proof.
  destruct
    (decoder_failure_ends_the_call faithful_medium
       (fun _ _ f => (TimeoutExpired, f)) Examples.decode_ascii 0
       ["w"; "top.rpf"] "rpf-cli.exe" ["out"] true false
       (mkWorld Examples.mixed_tree []) TimeoutExpired Examples.mixed_tree
       eq_refl ltac:(discriminate)) as [(msg & Hr & Ht & _) _].
  exists msg. split; [exact Hr|]. now apply Ht.
Defined.



(** X11: when the decoder succeeds but has left no tree where it is looked
    for (none of the usual places exists, and the directory of the
    container holds no sub-directory besides [stream] and [data]), the call
    returns the error [No extracted content found...] with no tally and an
    empty list, before the buckets are touched: also for a top-level call
    the file system is as the decoder left it, old bucket contents
    included. *)
Theorem missing_decoded_tree_is_an_error
  (medium : path -> list byte -> copy_outcome)
  (subprocess_run : string -> path -> Fs.t -> run_outcome * Fs.t)
  (decode_utf8 : list byte -> string)
  (fuel : nat) (rpf_file : path) (rpf_cli : string) (output_dir : path)
  (cb is_nested : bool) (w : world) (f1 : Fs.t) (items : list string) :
  subprocess_run rpf_cli rpf_file (fs w) = (Completed, f1) ->
  Fs.exists_
    (if is_nested then temp_extract_dir rpf_file
     else join (dirname rpf_file) "dlc") f1 = false ->
  Fs.exists_ (join (dirname rpf_file) "dlc") f1 = false ->
  Fs.exists_
    (join (dirname rpf_file) (fst (splitext (basename rpf_file)))) f1
  = false ->
  Fs.listdir (dirname rpf_file) f1 = Some items ->
  (forall item,
      In item items ->
      Fs.isdir (join (dirname rpf_file) item) f1 = true ->
      item = "stream" \/ item = "data") ->
  let r :=
    extract_rpf_recursive medium subprocess_run decode_utf8 (S fuel) rpf_file
      rpf_cli output_dir cb is_nested w in
  fst r
  = Return
      (None,
       Some "No extracted content found. The RPF file may be empty or in an unsupported format.",
       [])
  /\ fs (snd r) = f1
  /\ trace (snd r)
     = trace (report cb 0 100 ("Extracting: " ++ basename rpf_file) w)
       ++ [EvDecode rpf_file].
Proof.
  intros Hrun E1 E2 E3 Hl Hitems r. unfold r. cbn [extract_rpf_recursive].
  rewrite fs_report, Hrun. cbn [fs emit set_fs].
  rewrite (locate_nothing rpf_file _ f1 items E1 E2 E3 Hl Hitems).
  repeat split.
Qed.

Lemma missing_decoded_tree_is_an_error_witness :
  fs (snd (extract_rpf_recursive faithful_medium Examples.idle_decoder
             Examples.decode_ascii 1 ["out"; "top.rpf"] "rpf-cli.exe" ["out"]
             true false (mkWorld Examples.mixed_tree [])))
  = Examples.mixed_tree.
Proof.
  refine (proj1 (proj2
    (missing_decoded_tree_is_an_error faithful_medium Examples.idle_decoder
       Examples.decode_ascii 0 ["out"; "top.rpf"] "rpf-cli.exe" ["out"]
       true false (mkWorld Examples.mixed_tree []) Examples.mixed_tree
       ["stream"; "data"; "notes.txt"] _ _ _ _ _ _))).
  - reflexivity.
  - reflexivity.
  - reflexivity.
  - reflexivity.
  - reflexivity.
  - intros item [<-|[<-|[<-|[]]]] H; auto. discriminate H.
Defined.

(** X12: what the function returns always has either a tally and no error,
    or an error, no tally and an empty list of absorbed containers; the
    caller can tell success from failure by either field. *)
Theorem result_is_a_tally_or_an_error
  (medium : path -> list byte -> copy_outcome)
  (subprocess_run : string -> path -> Fs.t -> run_outcome * Fs.t)
  (decode_utf8 : list byte -> string)
  (fuel : nat) (rpf_file : path) (rpf_cli : string) (output_dir : path)
  (cb is_nested : bool) (w : world) :
  match
    fst (extract_rpf_recursive medium subprocess_run decode_utf8 fuel
           rpf_file rpf_cli output_dir cb is_nested w)
  with
  | Return (Some _, None, _) => True
  | Return (None, Some _, []) => True
  | Return _ => False
  | Uncaught | OutOfFuel => True
  end.
Proof.
  destruct fuel as [|fuel]; [exact I|]. cbn [extract_rpf_recursive].
  destruct (subprocess_run rpf_cli rpf_file _) as [ran f1].
  destruct ran; try exact I.
  destruct (locate_base_dir rpf_file _ _) as [[base_dir|]| |]; try exact I.
  destruct (if negb is_nested then _ else _) as [[[sd dd]| |] w2];
    try exact I.
  unfold organize_and_recurse.
  destruct (move_files medium base_dir sd dd cb _) as [moved w4].
  destruct (nested_loop _ cb _ 0 _ (moved, []) _) as [[[m l]| |] w6];
    exact I.
Qed.

(** ** What a successful call returns *)

(** X13: when the consolidation and the loop over the nested containers
    run to their end, every nested container that was found has been
    handed to a recursive call, in the order found and whatever the calls
    for the others returned; the tally returned is the tally of the
    consolidation plus the tallies of the nested calls that returned one
    (a nested call that failed adds nothing), no error is returned, and
    the absorbed list is made of the contributions of the nested calls. *)
Theorem returned_tally_adds_the_nested_tallies
  (medium : path -> list byte -> copy_outcome)
  (self : path -> world -> outcome result * world)
  (base_dir stream_dir data_dir : path) (cb : bool) (w2 : world) :
  let w3 := report cb 0 100 "Organizing extracted files..." w2 in
  let moved := fst (move_files medium base_dir stream_dir data_dir cb w3) in
  let w4 := snd (move_files medium base_dir stream_dir data_dir cb w3) in
  let nested_rpfs := find_nested_rpfs base_dir (fs w4) in
  let count := List.length nested_rpfs in
  let w5 :=
    match nested_rpfs with
    | [] => w4
    | _ =>
        report cb 0 count
          ("Found " ++ Str.of_nat count ++ " nested RPF files...")%string w4
    end in
  let outs := nested_outcomes self cb count 0 nested_rpfs w5 in
  match
    fst (organize_and_recurse medium self base_dir stream_dir data_dir cb w2)
  with
  | Return (t, e, l) =>
      t = Some
            (add_tally moved
               (fold_left add_tally
                  (map (fun o : nested_outcome => counted (snd (fst o))) outs)
                  no_moves))
      /\ e = None
      /\ l = flat_map absorbed_by outs
      /\ map (fun o : nested_outcome => fst (fst o)) outs = nested_rpfs
  | _ => True
  end.
Proof.
  cbv zeta. unfold organize_and_recurse.
  destruct (move_files medium base_dir stream_dir data_dir cb _)
    as [moved w4]. cbn [fst snd].
  destruct (nested_loop self cb _ 0 _ (moved, []) _)
    as [[[m l]| |] w6] eqn:E; cbn [fst]; trivial.
  apply nested_loop_fold in E as [E Hmap].
  rewrite Aggregation.fold_merge_eq in E. cbn [fst snd app] in E.
  inversion E; subst.
  rewrite Aggregation.fold_add_tally_start. auto.
Qed.

Module Absorbed.

Lemma find_nested_are_containers (base_dir : path) (f : Fs.t) :
  containers (find_nested_rpfs base_dir f).
Proof.
  unfold containers. apply Forall_forall. intros p Hp. unfold find_nested_rpfs in Hp.
  apply in_flat_map in Hp as ([[root dirs] files] & _ & Hp).
  apply in_map_iff in Hp as (file & <- & Hf).
  apply filter_In in Hf as [_ Hf].
  now rewrite Collision.basename_join.
Qed.

Section Loop.

Variable self : path -> world -> outcome result * world.
Hypothesis self_containers :
  forall nested_rpf w,
    match fst (self nested_rpf w) with
    | Return (_, _, l) => containers l
    | _ => True
    end.

Lemma nested_loop_containers (cb : bool) (count : nat)
  (nested_rpfs : list path) :
  containers nested_rpfs ->
  forall idx acc w,
    containers (snd acc) ->
    match fst (nested_loop self cb count idx nested_rpfs acc w) with
    | Return (_, l) => containers l
    | _ => True
    end.
Proof.
  induction nested_rpfs as [|rpf rest IH]; intros Hc idx acc w Hacc.
  - destruct acc as [m l]. exact Hacc.
  - inversion Hc as [|? ? Hrpf Hrest]; subst. cbn [nested_loop].
    match goal with
    | |- context [self rpf ?w1] =>
        pose proof (self_containers rpf w1) as Hs;
        destruct (self rpf w1) as [[[[res err] ex]| |] w2]
    end; cbn [fst] in *; trivial.
    apply IH; [exact Hrest|].
    rewrite Aggregation.merge_nested_eq. cbn [snd absorbed_by].
    apply Forall_app. split; [exact Hacc|].
    destruct (moved_any res); [|constructor].
    constructor; assumption.
Qed.

End Loop.

Lemma organize_containers (medium : path -> list byte -> copy_outcome)
  (self : path -> world -> outcome result * world)
  (base_dir stream_dir data_dir : path) (cb : bool) (w2 : world) :
  (forall nested_rpf w,
      match fst (self nested_rpf w) with
      | Return (_, _, l) => containers l
      | _ => True
      end) ->
  match
    fst (organize_and_recurse medium self base_dir stream_dir data_dir cb w2)
  with
  | Return (_, _, l) => containers l
  | _ => True
  end.
Proof.
  intros Hself. unfold organize_and_recurse.
  destruct (move_files medium base_dir stream_dir data_dir cb _)
    as [moved w4].
  match goal with
  | |- context [nested_loop self cb ?count 0 ?rpfs (moved, []) ?w5] =>
      pose proof (nested_loop_containers self Hself cb count rpfs
                    (find_nested_are_containers base_dir (fs w4))
                    0 (moved, []) w5 (Forall_nil _)) as H;
      destruct (nested_loop self cb count 0 rpfs (moved, []) w5)
        as [[[m l]| |] w6]
  end; cbn [fst] in *; trivial.
Qed.

Lemma call_containers (medium : path -> list byte -> copy_outcome)
  (subprocess_run : string -> path -> Fs.t -> run_outcome * Fs.t)
  (decode_utf8 : list byte -> string)
  (rpf_cli : string) (output_dir : path) (fuel : nat) :
  forall rpf_file cb is_nested w,
    match
      fst (extract_rpf_recursive medium subprocess_run decode_utf8 fuel
             rpf_file rpf_cli output_dir cb is_nested w)
    with
    | Return (_, _, l) => containers l
    | _ => True
    end.
Proof.
  induction fuel as [|fuel IH]; intros rpf_file cb is_nested w; [exact I|].
  cbn [extract_rpf_recursive].
  destruct (subprocess_run rpf_cli rpf_file _) as [ran f1].
  destruct ran; cbn [fst]; try constructor.
  destruct (locate_base_dir rpf_file _ _) as [[base_dir|]| |];
    cbn [fst]; try constructor.
  destruct (if negb is_nested then _ else _) as [[[sd dd]| |] w2];
    cbn [fst]; try constructor.
  apply organize_containers.
  intros nested_rpf w'. apply IH.
Qed.

End Absorbed.

(** X14: every path in the list of absorbed containers that a call
    returns, at whatever depth it was added, is the path of a file whose
    name ends in [.rpf] in some case: only containers that the walk found
    are ever recorded. *)
Theorem absorbed_paths_are_container_files
  (medium : path -> list byte -> copy_outcome)
  (subprocess_run : string -> path -> Fs.t -> run_outcome * Fs.t)
  (decode_utf8 : list byte -> string)
  (rpf_cli : string) (output_dir : path) (fuel : nat) :
  forall rpf_file cb is_nested w,
    match
      fst (extract_rpf_recursive medium subprocess_run decode_utf8 fuel
             rpf_file rpf_cli output_dir cb is_nested w)
    with
    | Return (_, _, l) =>
        Forall (fun p => Str.endswith ".rpf" (Str.lower (basename p)) = true)
          l
    | _ => True
    end.
Proof.
  exact (Absorbed.call_containers medium subprocess_run decode_utf8 rpf_cli
           output_dir fuel).
Qed.

(** ** Calls that need no recursion *)

Lemma no_files_no_containers (base_dir : path) (f : Fs.t) :
  total_files base_dir f = 0 -> find_nested_rpfs base_dir f = [].
Proof.
  unfold total_files, find_nested_rpfs.
  induction (Fs.os_walk base_dir f) as [|[[root dirs] files] l IH];
    [reflexivity|].
  cbn [map list_sum fold_right snd flat_map]. intros H.
  destruct files as [|file files]; [|simpl in H; lia].
  simpl. apply IH. simpl in H. exact H.
Qed.

(** X15: a nested container whose decoded tree holds no further container
    is dealt with by one call, whatever recursion is left: the call
    returns the tally of its consolidation, no error and an empty list of
    absorbed containers, and leaves the world as the consolidation left
    it. *)
Theorem container_without_nested_ones_returns
  (medium : path -> list byte -> copy_outcome)
  (subprocess_run : string -> path -> Fs.t -> run_outcome * Fs.t)
  (decode_utf8 : list byte -> string)
  (fuel : nat) (rpf_file : path) (rpf_cli : string) (output_dir : path)
  (cb : bool) (w : world) (f1 : Fs.t) (base_dir : path) :
  subprocess_run rpf_cli rpf_file (fs w) = (Completed, f1) ->
  locate_base_dir rpf_file (temp_extract_dir rpf_file) f1
  = Return (Some base_dir) ->
  let w1 :=
    emit (EvDecode rpf_file)
      (set_fs f1 (report cb 0 100 ("Extracting: " ++ basename rpf_file) w)) in
  let m :=
    move_files medium base_dir (join output_dir "stream")
      (join output_dir "data") cb
      (report cb 0 100 "Organizing extracted files..." w1) in
  find_nested_rpfs base_dir (fs (snd m)) = [] ->
  extract_rpf_recursive medium subprocess_run decode_utf8 (S fuel) rpf_file
    rpf_cli output_dir cb true w
  = (Return (Some (fst m), None, []), snd m).
Proof.
  intros Hrun Hloc w1 m Hfind. cbn [extract_rpf_recursive].
  rewrite fs_report, Hrun. fold w1. change (fs w1) with f1.
  rewrite Hloc. cbn [negb]. unfold organize_and_recurse. fold m.
  destruct m as [moved w4]. cbn [fst snd] in *. rewrite Hfind.
  reflexivity.
Qed.

Lemma container_without_nested_ones_returns_witness :
  fst (extract_rpf_recursive faithful_medium Examples.idle_decoder
         Examples.decode_ascii 1 ["w"; "top.rpf"] "rpf-cli.exe" ["out"]
         false true (mkWorld Examples.one_asset_tree []))
  = Return (Some (mkTally 1 0 0), None, []).
Proof.
  pose proof
    (container_without_nested_ones_returns faithful_medium
       Examples.idle_decoder Examples.decode_ascii 0 ["w"; "top.rpf"]
       "rpf-cli.exe" ["out"] false (mkWorld Examples.one_asset_tree [])
       Examples.one_asset_tree ["w"; "dlc"] eq_refl eq_refl eq_refl) as H.
  rewrite H. reflexivity.
Defined.

(** X16: an empty container.  When the decoder of a top-level call
    succeeds, the decoded tree is found, the output directory is there and
    neither bucket path is a regular file, and the decoded tree holds no
    file at all once the buckets are reset, then the reset does not raise
    and the call returns the zero tally, no error and an empty list,
    reports nothing per file, and leaves both buckets there and empty. *)
Theorem empty_container_gives_empty_buckets
  (medium : path -> list byte -> copy_outcome)
  (subprocess_run : string -> path -> Fs.t -> run_outcome * Fs.t)
  (decode_utf8 : list byte -> string)
  (fuel : nat) (rpf_file : path) (rpf_cli : string) (output_dir : path)
  (cb : bool) (w : world) (f1 : Fs.t) (base_dir : path)
  (es : list (string * Fs.node)) :
  subprocess_run rpf_cli rpf_file (fs w) = (Completed, f1) ->
  locate_base_dir rpf_file (join (dirname rpf_file) "dlc") f1
  = Return (Some base_dir) ->
  Fs.lookup output_dir f1 = Some (Fs.Dir es) ->
  Fs.read (join output_dir "stream") f1 = None ->
  Fs.read (join output_dir "data") f1 = None ->
  let w1 :=
    emit (EvDecode rpf_file)
      (set_fs f1 (report cb 0 100 ("Extracting: " ++ basename rpf_file) w)) in
  total_files base_dir (fs (snd (ensure_clean_dirs output_dir w1))) = 0 ->
  exists w2,
    ensure_clean_dirs output_dir w1
    = (Return (join output_dir "stream", join output_dir "data"), w2)
    /\ extract_rpf_recursive medium subprocess_run decode_utf8 (S fuel)
         rpf_file rpf_cli output_dir cb false w
       = (Return (Some no_moves, None, []),
          report cb 0 100 "Organizing extracted files..." w2)
    /\ Fs.listdir (join output_dir "stream") (fs w2) = Some []
    /\ Fs.listdir (join output_dir "data") (fs w2) = Some [].
Proof.
  intros Hrun Hloc Hd Hs Hdt w1 Htotal.
  destruct (ResetMore.ensure_clean_dirs_ok output_dir w1 es Hd Hs Hdt)
    as [w2 Hclean].
  rewrite Hclean in Htotal. cbn [snd] in Htotal.
  exists w2. split; [exact Hclean|].
  destruct (Reset.ensure_clean_dirs_spec _ _ _ _ _ Hclean)
    as (_ & _ & Hl1 & Hl2 & _).
  split; [|auto].
  cbn [extract_rpf_recursive]. rewrite fs_report, Hrun. fold w1.
  change (fs w1) with f1. rewrite Hloc. cbn [negb]. rewrite Hclean.
  unfold organize_and_recurse, move_files.
  rewrite fs_report, Htotal. cbn [Nat.eqb].
  rewrite fs_report, (no_files_no_containers _ _ Htotal).
  reflexivity.
Qed.

Lemma empty_container_gives_empty_buckets_witness :
  fst (extract_rpf_recursive faithful_medium Examples.idle_decoder
         Examples.decode_ascii 1 ["w"; "top.rpf"] "rpf-cli.exe" ["out"]
         false false (mkWorld Examples.empty_decoded_tree []))
  = Return (Some no_moves, None, []).
Proof.
  destruct
    (empty_container_gives_empty_buckets faithful_medium
       Examples.idle_decoder Examples.decode_ascii 0 ["w"; "top.rpf"]
       "rpf-cli.exe" ["out"] false (mkWorld Examples.empty_decoded_tree [])
       Examples.empty_decoded_tree ["w"; "dlc"]
       [("stream", Fs.Dir [("old.ydr", Fs.File Examples.two_bytes)])]
       eq_refl eq_refl eq_refl eq_refl eq_refl eq_refl)
    as (w2 & _ & H & _).
  rewrite H. reflexivity.
Defined.

(** ** The file operations after the extraction *)

Module GuiFacts.

Import Fs.

Lemma remove_leaf (c : string) (es : list (string * node)) :
  Gui.remove [c] (Dir es) =
  match assoc c es with
  | Some (File _) => Some (Dir (del_entry c es))
  | _ => None
  end.
Proof. reflexivity. Qed.

Lemma remove_inner (c c2 : string) (p : path) (es : list (string * node)) :
  Gui.remove (c :: c2 :: p) (Dir es) =
  match assoc c es with
  | Some n1 =>
      option_map (fun n'' => Dir (set_entry c n'' es))
        (Gui.remove (c2 :: p) n1)
  | None => None
  end.
Proof. reflexivity. Qed.

Lemma remove_on_file (p : path) (d : list byte) :
  Gui.remove p (File d) = None.
Proof. destruct p as [|c [|c2 p]]; reflexivity. Qed.

(** Removing a file leaves every other file as it was, and brings no file
    into being. *)
Lemma read_remove_other (p : path) :
  forall n n' q,
    Gui.remove p n = Some n' -> q <> p -> read q n' = read q n.
Proof.
  unfold read.
  induction p as [|c p IH]; intros n n' q H Hne; [discriminate|].
  destruct n as [d0|es]; [now rewrite remove_on_file in H|].
  destruct q as [|c' q].
  { assert (exists es', n' = Dir es') as [es' ->]; [|reflexivity].
    destruct p as [|c2 p].
    - rewrite remove_leaf in H.
      destruct (assoc c es) as [[|]|]; inversion H; eauto.
    - rewrite remove_inner in H.
      destruct (assoc c es) as [n1|]; [|discriminate].
      destruct (Gui.remove (c2 :: p) n1); inversion H; eauto. }
  destruct (String.eqb_spec c' c) as [->|Hc].
  - destruct p as [|c2 p].
    + rewrite remove_leaf in H.
      destruct (assoc c es) as [[d1|es1]|] eqn:Ea; try discriminate.
      inversion H; subst. cbn [lookup].
      rewrite FsMore.assoc_del_same, Ea.
      assert (q <> []) as Hq by (intros ->; now apply Hne).
      now rewrite FsFacts.lookup_file_below.
    + rewrite remove_inner in H.
      destruct (assoc c es) as [n1|] eqn:Ea; [|discriminate].
      destruct (Gui.remove (c2 :: p) n1) as [n1'|] eqn:E; [|discriminate].
      cbn [option_map] in H. inversion H; subst.
      cbn [lookup]. rewrite FsFacts.assoc_set_same, Ea.
      apply (IH n1 n1' q E). congruence.
  - assert (forall y, assoc c' (set_entry c y es) = assoc c' es)
      by (intros; now apply FsFacts.assoc_set_other).
    assert (assoc c' (del_entry c es) = assoc c' es)
      by now apply FsFacts.assoc_del_other.
    destruct p as [|c2 p].
    + rewrite remove_leaf in H.
      destruct (assoc c es) as [[d1|es1]|]; try discriminate.
      inversion H; subst. cbn [lookup]. now rewrite H1.
    + rewrite remove_inner in H.
      destruct (assoc c es) as [n1|]; [|discriminate].
      destruct (Gui.remove (c2 :: p) n1) as [n1'|]; [|discriminate].
      cbn [option_map] in H. inversion H; subst. cbn [lookup].
      now rewrite H0.
Qed.

Lemma read_remove_same (p : path) :
  forall n n', Gui.remove p n = Some n' -> read p n' = None.
Proof.
  unfold read.
  induction p as [|c p IH]; intros n n' H; [discriminate|].
  destruct n as [d0|es]; [now rewrite remove_on_file in H|].
  destruct p as [|c2 p].
  - rewrite remove_leaf in H.
    destruct (assoc c es) as [[d1|es1]|]; try discriminate.
    inversion H; subst. cbn [lookup]. now rewrite FsMore.assoc_del_same.
  - rewrite remove_inner in H.
    destruct (assoc c es) as [n1|]; [|discriminate].
    destruct (Gui.remove (c2 :: p) n1) as [n1'|] eqn:E; [|discriminate].
    cbn [option_map] in H. inversion H; subst.
    cbn [lookup]. rewrite FsFacts.assoc_set_same. now apply (IH n1).
Qed.

(** A regular file can be removed. *)
Lemma remove_file_ok (p : path) :
  forall n d,
    p <> [] -> lookup p n = Some (File d) ->
    exists n', Gui.remove p n = Some n'.
Proof.
  induction p as [|c p IH]; intros n d Hp Hl; [congruence|].
  destruct n as [d0|es]; [discriminate|]. cbn [lookup] in Hl.
  destruct (assoc c es) as [n1|] eqn:Ea; [|discriminate].
  destruct p as [|c2 p].
  - simpl in Hl. inversion Hl; subst. rewrite remove_leaf, Ea. eauto.
  - rewrite remove_inner, Ea.
    destruct (IH n1 d ltac:(discriminate) Hl) as [n1' ->].
    cbn [option_map]. eauto.
Qed.

(** What a turn of the pruning loop does to the files. *)
Lemma prune_step_spec (stream_dir : path) (f : Fs.t) (extracted_rpf : path) :
  let target := join stream_dir (basename extracted_rpf) in
  read target (Gui.prune_step stream_dir f extracted_rpf) = None
  /\ forall q, q <> target ->
      read q (Gui.prune_step stream_dir f extracted_rpf) = read q f.
Proof.
  cbv zeta. unfold Gui.prune_step.
  set (target := join stream_dir (basename extracted_rpf)).
  destruct (exists_ target f) eqn:E.
  - destruct (Gui.remove target f) as [f'|] eqn:Er.
    + split; [now apply (read_remove_same _ _ _ Er)|].
      intros q Hq. now apply (read_remove_other _ _ _ _ Er).
    + split; [|reflexivity].
      unfold read. destruct (lookup target f) as [[d|es]|] eqn:El;
        [|reflexivity|reflexivity].
      destruct (remove_file_ok target f d) as [n' Hn'];
        [unfold target, join; now destruct stream_dir|exact El|].
      congruence.
  - split; [|reflexivity].
    unfold exists_, read in *. now destruct (lookup target f).
Qed.

Lemma fold_prune_keeps (stream_dir : path) (extracted_rpfs : list path)
  (q : path) :
  (forall r, In r extracted_rpfs -> q <> join stream_dir (basename r)) ->
  forall f,
    read q (fold_left (Gui.prune_step stream_dir) extracted_rpfs f)
    = read q f.
Proof.
  induction extracted_rpfs as [|r rest IH]; intros Hq f; [reflexivity|].
  cbn [fold_left]. rewrite IH by (intros; apply Hq; now right).
  apply (proj2 (prune_step_spec stream_dir f r)). apply Hq. now left.
Qed.

(** Pruning never brings a file into being. *)
Lemma fold_prune_only_removes (stream_dir : path)
  (extracted_rpfs : list path) (q : path) :
  forall f,
    read q f = None ->
    read q (fold_left (Gui.prune_step stream_dir) extracted_rpfs f) = None.
Proof.
  induction extracted_rpfs as [|r rest IH]; intros f Hq; [exact Hq|].
  cbn [fold_left]. apply IH.
  destruct (prune_step_spec stream_dir f r) as [Hgone Hother].
  destruct (list_eq_dec string_dec q (join stream_dir (basename r)))
    as [->|Hne]; [exact Hgone|].
  now rewrite Hother.
Qed.

Lemma fold_prune_gone (stream_dir : path) (extracted_rpfs : list path)
  (r : path) :
  In r extracted_rpfs ->
  forall f,
    read (join stream_dir (basename r))
      (fold_left (Gui.prune_step stream_dir) extracted_rpfs f)
    = None.
Proof.
  induction extracted_rpfs as [|r0 rest IH]; intros Hin f; [contradiction|].
  cbn [fold_left]. destruct Hin as [->|Hin].
  - apply fold_prune_only_removes.
    apply (proj1 (prune_step_spec stream_dir f r)).
  - now apply IH.
Qed.

End GuiFacts.

(** X18: the pruning after a successful extraction only ever removes
    regular files that lie directly in the stream bucket under the name of
    an absorbed container.  Every other file keeps its content, no file
    comes into being, and nothing at all is done when no file was moved;
    when files were moved, no regular file is left in the stream bucket
    under the name of an absorbed container. *)
Theorem pruning_removes_only_absorbed_names
  (output_dir : path) (result : option tally) (extracted_rpfs : list path)
  (f : Fs.t) :
  let stream_dir := join output_dir "stream" in
  let f' := Gui.prune_absorbed output_dir result extracted_rpfs f in
  (forall q,
      (forall r, In r extracted_rpfs -> q <> join stream_dir (basename r)) ->
      Fs.read q f' = Fs.read q f)
  /\ (forall q, Fs.read q f = None -> Fs.read q f' = None)
  /\ (moved_any result = false -> f' = f)
  /\ (moved_any result = true ->
      forall r,
        In r extracted_rpfs ->
        Fs.read (join stream_dir (basename r)) f' = None).
Proof.
  cbv zeta. unfold Gui.prune_absorbed.
  destruct (moved_any result).
  - split; [|split; [|split]].
    + intros q Hq. now apply GuiFacts.fold_prune_keeps.
    + intros q Hq. now apply GuiFacts.fold_prune_only_removes.
    + discriminate.
    + intros _ r Hr. now apply GuiFacts.fold_prune_gone.
  - split; [|split; [|split]]; auto. discriminate.
Qed.

Lemma pruning_removes_only_absorbed_names_witness :
  Fs.read ["out"; "notes.txt"]
    (Gui.prune_absorbed ["out"] (Some (mkTally 1 0 0))
       [["w"; "dlc"; "old.ydr"]] Examples.mixed_tree)
  = Fs.read ["out"; "notes.txt"] Examples.mixed_tree
  /\ Fs.read (join (join ["out"] "stream") (basename ["w"; "dlc"; "old.ydr"]))
       (Gui.prune_absorbed ["out"] (Some (mkTally 1 0 0))
          [["w"; "dlc"; "old.ydr"]] Examples.mixed_tree)
     = None.
Proof.
  pose proof
    (pruning_removes_only_absorbed_names ["out"] (Some (mkTally 1 0 0))
       [["w"; "dlc"; "old.ydr"]] Examples.mixed_tree) as (Hk & _ & _ & Hg).
  split.
  - apply Hk. intros r [<-|[]]. discriminate.
  - apply Hg; [reflexivity|]. now left.
Defined.

Module CleanupFacts.

Import Fs.


(** Removing a tree brings nothing into being. *)
Lemma lookup_rmtree_none (p : path) :
  forall n q, lookup q n = None -> lookup q (rmtree p n) = None.
Proof.
  induction p as [|c p IH]; intros n q Hq; [exact Hq|].
  destruct n as [d|es]; [now rewrite FsFacts.rmtree_on_file|].
  destruct q as [|c' q]; [discriminate|]. cbn [lookup] in Hq.
  destruct (String.eqb_spec c' c) as [->|Hc].
  - destruct p as [|c2 p].
    + simpl. now rewrite FsMore.assoc_del_same.
    + rewrite FsFacts.rmtree_inner.
      destruct (assoc c es) as [n1|] eqn:Ea; cbn [lookup].
      * rewrite FsFacts.assoc_set_same. now apply IH.
      * now rewrite Ea.
  - destruct p as [|c2 p].
    + simpl. now rewrite FsFacts.assoc_del_other.
    + rewrite FsFacts.rmtree_inner.
      destruct (assoc c es) as [n1|]; cbn [lookup]; [|exact Hq].
      now rewrite FsFacts.assoc_set_other.
Qed.






End CleanupFacts.



(** ** Containers in ignored places *)

Module IgnoredContainers.

(** A decoded tree is always looked for directly in the directory of the
    container, provided the scratch directory is placed there. *)
Lemma located_next_to_container (rpf_file extraction_dir d : path) (f : Fs.t)
  (x0 : string) :
  extraction_dir = join (dirname rpf_file) x0 ->
  locate_base_dir rpf_file extraction_dir f = Return (Some d) ->
  exists x, d = join (dirname rpf_file) x.
Proof.
  intros Hext. unfold locate_base_dir. cbn [find].
  destruct (Fs.exists_ extraction_dir f);
    [intros H; inversion H; subst; eauto|].
  destruct (Fs.exists_ (join (dirname rpf_file) "dlc") f);
    [intros H; inversion H; subst; eauto|].
  destruct (Fs.exists_ (join (dirname rpf_file) _) f);
    [intros H; inversion H; subst; eauto|].
  destruct (Fs.listdir (dirname rpf_file) f) as [items|]; [|discriminate].
  destruct (find _ items) as [item|]; [|discriminate].
  intros H; inversion H; subst; eauto.
Qed.

Lemma find_nested_dirnames (base_dir : path) (f : Fs.t) :
  is_ignored base_dir = true ->
  Forall (fun p => is_ignored (dirname p) = true)
    (find_nested_rpfs base_dir f).
Proof.
  intros Hi. apply Forall_forall. intros p Hp. unfold find_nested_rpfs in Hp.
  apply in_flat_map in Hp as ([[root dirs] files] & He & Hp).
  apply in_map_iff in Hp as (file & <- & _).
  rewrite Collision.dirname_join.
  unfold Fs.os_walk in He.
  destruct (Fs.lookup base_dir f) as [n|]; [|contradiction].
  exact (FsFacts.walk_ignored n base_dir _ Hi He).
Qed.

Section Loop.

Variable self : path -> world -> outcome result * world.
Hypothesis self_nothing :
  forall nested_rpf w,
    is_ignored (dirname nested_rpf) = true ->
    match fst (self nested_rpf w) with
    | Return (Some t, _, l) => t = no_moves /\ l = []
    | _ => True
    end.

Lemma nested_loop_nothing (cb : bool) (count : nat)
  (nested_rpfs : list path) :
  Forall (fun p => is_ignored (dirname p) = true) nested_rpfs ->
  forall idx w,
    match fst (nested_loop self cb count idx nested_rpfs (no_moves, []) w) with
    | Return acc => acc = (no_moves, [])
    | _ => True
    end.
Proof.
  induction nested_rpfs as [|rpf rest IH]; intros Hall idx w;
    [reflexivity|].
  inversion Hall as [|? ? Hrpf Hrest]; subst. cbn [nested_loop].
  match goal with
  | |- context [self rpf ?w1] =>
      pose proof (self_nothing rpf w1 Hrpf) as Hs;
      destruct (self rpf w1) as [[[[res err] ex]| |] w2]
  end; cbn [fst] in *; trivial.
  assert (Hm : merge_nested rpf res ex (no_moves, []) = (no_moves, [])).
  { destruct res as [t|]; [|reflexivity].
    destruct Hs as [-> ->]. reflexivity. }
  rewrite Hm. now apply IH.
Qed.

End Loop.

Lemma nothing_from_ignored_place
  (medium : path -> list byte -> copy_outcome)
  (subprocess_run : string -> path -> Fs.t -> run_outcome * Fs.t)
  (decode_utf8 : list byte -> string)
  (rpf_cli : string) (output_dir : path) (fuel : nat) :
  forall rpf_file cb w,
    is_ignored (dirname rpf_file) = true ->
    match
      fst (extract_rpf_recursive medium subprocess_run decode_utf8 fuel
             rpf_file rpf_cli output_dir cb true w)
    with
    | Return (Some t, _, l) => t = no_moves /\ l = []
    | _ => True
    end.
Proof.
  induction fuel as [|fuel IH]; intros rpf_file cb w Hi; [exact I|].
  cbn [extract_rpf_recursive].
  destruct (subprocess_run rpf_cli rpf_file _) as [ran f1].
  destruct ran; cbn [fst]; trivial.
  destruct (locate_base_dir rpf_file _ _) as [[base_dir|]| |] eqn:Hloc;
    cbn [fst]; trivial.
  apply (located_next_to_container _ _ _ _ _ eq_refl) in Hloc as [x ->].
  cbn [negb]. unfold organize_and_recurse.
  rewrite FolderMatch.move_files_ignored_base
    by now apply Classification.is_ignored_join.
  match goal with
  | |- context [nested_loop ?self cb ?count 0 ?rpfs (no_moves, []) ?w5] =>
      pose proof (nested_loop_nothing self
                    (fun nested_rpf w' => IH nested_rpf false w')
                    cb count rpfs) as H;
      destruct (nested_loop self cb count 0 rpfs (no_moves, []) w5)
        as [[[m l]| |] w6] eqn:E
  end; cbn [fst]; trivial.
  match type of E with
  | nested_loop _ _ _ _ ?rpfs _ ?w5 = _ =>
      specialize (H (find_nested_dirnames _ _
                       (Classification.is_ignored_join _ x Hi)) 0 w5)
  end.
  rewrite E in H. cbn [fst] in H. inversion H. auto.
Qed.

End IgnoredContainers.

(** X20: a container that lies in an ignored place gives nothing.  When
    the path of the directory of a nested container contains an
    ignored-folder name, or when the name of the container itself does (as
    for [x64a.rpf], [common.rpf] or [update.rpf]) and its decoded tree is
    in its scratch directory, the container is still decoded, but nothing
    is moved from it or from the containers nested in it: the tally it
    returns is zero and it is never recorded as absorbed. *)
Theorem container_in_ignored_place_gives_nothing
  (medium : path -> list byte -> copy_outcome)
  (subprocess_run : string -> path -> Fs.t -> run_outcome * Fs.t)
  (decode_utf8 : list byte -> string)
  (rpf_cli : string) (output_dir : path) (fuel : nat)
  (rpf_file : path) (cb : bool) (w : world) :
  let r :=
    extract_rpf_recursive medium subprocess_run decode_utf8 fuel rpf_file
      rpf_cli output_dir cb true w in
  (is_ignored (dirname rpf_file) = true ->
   match fst r with
   | Return (Some t, _, l) => t = no_moves /\ l = []
   | _ => True
   end)
  /\ (forall name f1,
         In name IGNORE_FOLDERS ->
         Str.contains (Str.lower name) (Str.lower (basename rpf_file)) = true ->
         subprocess_run rpf_cli rpf_file (fs w) = (Completed, f1) ->
         Fs.exists_ (temp_extract_dir rpf_file) f1 = true ->
         is_ignored (temp_extract_dir rpf_file) = true
         /\ match fst r with
            | Return (Some t, _, l) =>
                t = no_moves /\ l = [] /\ moved_any (Some t) = false
            | _ => True
            end).
Proof.
  cbv zeta. split.
  - now apply IgnoredContainers.nothing_from_ignored_place.
  - intros name f1 Hname Hsub Hrun Hex.
    assert (Hi : is_ignored (temp_extract_dir rpf_file) = true).
    { apply (FolderMatch.any_folder_in_component IGNORE_FOLDERS name
               ("_temp_" ++ basename rpf_file ++ "_extract")%string);
        [exact Hname|unfold temp_extract_dir, join; apply in_or_app;
                      right; now left|].
      rewrite !StrFacts.lower_app. now apply FolderMatch.contains_middle. }
    split; [exact Hi|].
    destruct fuel as [|fuel]; [exact I|]. cbn [extract_rpf_recursive].
    rewrite fs_report, Hrun. cbn [fs emit set_fs].
    unfold locate_base_dir. cbn [find]. rewrite Hex. cbn [negb].
    unfold organize_and_recurse.
    rewrite FolderMatch.move_files_ignored_base by exact Hi.
    match goal with
    | |- context [nested_loop ?self cb ?count 0 ?rpfs (no_moves, []) ?w5] =>
        pose proof (IgnoredContainers.nested_loop_nothing self
                      (fun nested_rpf w' =>
                         IgnoredContainers.nothing_from_ignored_place medium
                           subprocess_run decode_utf8 rpf_cli output_dir fuel
                           nested_rpf false w')
                      cb count rpfs
                      (IgnoredContainers.find_nested_dirnames _ _ Hi) 0 w5)
          as H;
        destruct (nested_loop self cb count 0 rpfs (no_moves, []) w5)
          as [[[m l]| |] w6]
    end; cbn [fst] in *; trivial.
    inversion H; subst. repeat split.
Qed.

Lemma container_in_ignored_place_gives_nothing_witness :
  is_ignored (temp_extract_dir ["w"; "dlc"; "x64a.rpf"]) = true.
Proof.
  refine (proj1
    (proj2
       (container_in_ignored_place_gives_nothing faithful_medium
          Examples.scratch_decoder Examples.decode_ascii "rpf-cli.exe"
          ["out"] 2 ["w"; "dlc"; "x64a.rpf"] false
          (mkWorld Examples.one_asset_tree []))
       "x64a.rpf"
       (snd (Examples.scratch_decoder "rpf-cli.exe"
               ["w"; "dlc"; "x64a.rpf"] Examples.one_asset_tree))
       _ _ _ _)).
  - simpl. auto 10.
  - reflexivity.
  - reflexivity.
  - reflexivity.
Defined.

(** ** What the pruning finds in the stream bucket *)

Module Spared.

Lemma lookup_write_none (p : path) (d : list byte) :
  forall n n' q,
    Fs.write_file p d n = Some n' -> q <> p ->
    Fs.lookup q n = None -> Fs.lookup q n' = None.
Proof.
  induction p as [|c p IH]; intros n n' q H Hne Hq; [discriminate|].
  destruct n as [d0|es]; [now rewrite FsFacts.write_file_on_file in H|].
  destruct q as [|c' q]; [discriminate|].
  destruct (String.eqb_spec c' c) as [->|Hc].
  - destruct p as [|c2 p].
    + rewrite FsFacts.write_file_leaf in H.
      assert (n' = Fs.Dir (Fs.set_entry c (Fs.File d) es)) as ->
          by (destruct (Fs.assoc c es) as [[|]|]; congruence).
      cbn [Fs.lookup]. rewrite FsFacts.assoc_set_same.
      apply FsFacts.lookup_file_below. congruence.
    + rewrite FsFacts.write_file_inner in H. cbn [Fs.lookup] in Hq.
      destruct (Fs.assoc c es) as [n1|]; [|discriminate].
      destruct (Fs.write_file (c2 :: p) d n1) as [n1'|] eqn:E;
        [|discriminate].
      cbn [option_map] in H. inversion H; subst.
      cbn [Fs.lookup]. rewrite FsFacts.assoc_set_same.
      apply (IH n1 n1' q E); [congruence|exact Hq].
  - assert (exists y, n' = Fs.Dir (Fs.set_entry c y es)) as [y ->].
    { destruct p as [|c2 p].
      - rewrite FsFacts.write_file_leaf in H.
        destruct (Fs.assoc c es) as [[|]|]; inversion H; eauto.
      - rewrite FsFacts.write_file_inner in H.
        destruct (Fs.assoc c es) as [n1|]; [|discriminate].
        destruct (Fs.write_file (c2 :: p) d n1); inversion H; eauto. }
    cbn [Fs.lookup] in *. now rewrite FsFacts.assoc_set_other.
Qed.

Section Watched.

(** The directory that is watched. *)
Variable sd : path.

Lemma write_spares (dest : path) (d : list byte) (f f' : Fs.t) :
  Fs.write_file dest d f = Some f' ->
  container_name (basename dest) = false ->
  no_container_in sd f -> no_container_in sd f'.
Proof.
  intros Hw Hc H name Hn. specialize (H name Hn). unfold Fs.exists_ in *.
  destruct (Fs.lookup (join sd name) f) eqn:E; [discriminate|].
  rewrite (lookup_write_none _ _ _ _ _ Hw) ; [reflexivity| |exact E].
  intros Heq. rewrite <- Heq, Collision.basename_join in Hc. congruence.
Qed.

Lemma rmtree_spares (p : path) (f : Fs.t) :
  no_container_in sd f -> no_container_in sd (Fs.rmtree p f).
Proof.
  intros H name Hn. specialize (H name Hn). unfold Fs.exists_ in *.
  destruct (Fs.lookup (join sd name) f) eqn:E; [discriminate|].
  now rewrite CleanupFacts.lookup_rmtree_none.
Qed.

Lemma empty_spares (f : Fs.t) :
  Fs.listdir sd f = Some [] -> no_container_in sd f.
Proof.
  intros H name _. apply (ResetMore.nothing_below_empty_dir sd [name] f H).
  discriminate.
Qed.

Lemma cleanup_nested_spares (nested_rpf : path) (w : world) :
  no_container_in sd (fs w) ->
  no_container_in sd (fs (cleanup_nested nested_rpf w)).
Proof.
  intros H. unfold cleanup_nested.
  destruct (Fs.exists_ _ (fs w)); [|exact H].
  destruct (Fs.isdir _ (fs w)); [|exact H].
  cbn [fs emit set_fs]. now apply rmtree_spares.
Qed.

Section Mover.

Variable medium : path -> list byte -> copy_outcome.
Variables stream_dir data_dir : path.
Variable total : nat.
Variable cb : bool.

Lemma copy_checked_spares (file : string) (src dest : path) (b : bucket)
  (w : world) :
  container_name (basename dest) = false ->
  no_container_in sd (fs w) ->
  no_container_in sd (fs (snd (copy_checked medium file src dest b w))).
Proof.
  intros Hc H.
  assert (Hstore : forall d opened,
             Fs.write_file dest [] (fs w) = Some opened ->
             no_container_in sd
               (fs (store dest d (emit (EvCreate dest) (set_fs opened w))))).
  { intros d opened Ho. unfold store. cbn [fs emit set_fs].
    pose proof (write_spares _ _ _ _ Ho Hc H) as H1.
    destruct (Fs.write_file dest d opened) as [f2|] eqn:Hw; cbn [fs set_fs].
    - exact (write_spares _ _ _ _ Hw Hc H1).
    - exact H1. }
  unfold copy_checked.
  destruct (Fs.getsize src (fs w)); [|exact H].
  destruct (Fs.read src (fs w)); [|exact H].
  destruct (Fs.write_file dest [] (fs w)) as [opened|] eqn:Ho; [|exact H].
  destruct (medium dest l) as [stored|partial].
  - destruct (Fs.getsize dest _); [destruct (negb _)|]; cbn [snd];
      now apply Hstore.
  - cbn [snd]. now apply Hstore.
Qed.

Lemma try_body_spares (root : path) (important : bool) (file : string)
  (w : world) :
  no_container_in sd (fs w) ->
  no_container_in sd
    (fs (snd (try_body medium root important stream_dir data_dir file w))).
Proof.
  intros H. unfold try_body.
  destruct (String.eqb (file_ext file) "rpf") eqn:Eext; [exact H|].
  apply String.eqb_neq in Eext.
  destruct (destination important (file_ext file) file stream_dir data_dir)
    as [[dest0 b]|] eqn:Ed; [|exact H].
  apply destination_in_bucket in Ed. subst dest0.
  apply copy_checked_spares; [|exact H].
  destruct (Names.unique_dest_name (fs w)
              (bucket_dir stream_dir data_dir b) file)
    as [->|(k & _ & _ & ->)].
  - now apply Names.plain_not_container.
  - now apply Names.numbered_not_container.
Qed.

Lemma move_file_spares (root : path) (important : bool) (st : mover)
  (file : string) :
  no_container_in sd (fs (mworld st)) ->
  no_container_in sd
    (fs (mworld
           (move_file medium root important stream_dir data_dir total cb st
              file))).
Proof.
  intros H. unfold move_file.
  pose proof (try_body_spares root important file
                (report cb (processed st + 1) total ("Processing: " ++ file)
                   (mworld st))) as Ht.
  rewrite fs_report in Ht. specialize (Ht H).
  destruct (try_body medium root important stream_dir data_dir file _)
    as [[|b|e] w']; exact Ht.
Qed.

Lemma fold_move_file_spares (root : path) (important : bool)
  (files : list string) :
  forall st,
    no_container_in sd (fs (mworld st)) ->
    no_container_in sd
      (fs (mworld
             (fold_left
                (move_file medium root important stream_dir data_dir total cb)
                files st))).
Proof.
  induction files as [|file files IH]; intros st H; [exact H|].
  cbn [fold_left]. apply IH. now apply move_file_spares.
Qed.

Lemma fold_move_dir_spares
  (entries : list (path * list string * list string)) :
  forall st,
    no_container_in sd (fs (mworld st)) ->
    no_container_in sd
      (fs (mworld
             (fold_left (move_dir medium stream_dir data_dir total cb)
                entries st))).
Proof.
  induction entries as [|[[root dirs] files] entries IH]; intros st H;
    [exact H|].
  cbn [fold_left]. apply IH. unfold move_dir.
  destruct (is_ignored root); [exact H|].
  now apply fold_move_file_spares.
Qed.

End Mover.

Lemma move_files_spares (medium : path -> list byte -> copy_outcome)
  (base_dir stream_dir data_dir : path) (cb : bool) (w : world) :
  no_container_in sd (fs w) ->
  no_container_in sd
    (fs (snd (move_files medium base_dir stream_dir data_dir cb w))).
Proof.
  intros H. unfold move_files.
  destruct (total_files base_dir (fs w) =? 0); [exact H|].
  cbn [snd]. now apply fold_move_dir_spares.
Qed.

Section Recursion.

Variable medium : path -> list byte -> copy_outcome.
Variable self : path -> world -> outcome result * world.
Hypothesis self_spares :
  forall nested_rpf w,
    no_container_in sd (fs w) ->
    no_container_in sd (fs (snd (self nested_rpf w))).

Lemma nested_loop_spares (cb : bool) (count : nat) (nested_rpfs : list path) :
  forall idx acc w,
    no_container_in sd (fs w) ->
    no_container_in sd
      (fs (snd (nested_loop self cb count idx nested_rpfs acc w))).
Proof.
  induction nested_rpfs as [|rpf rest IH]; intros idx acc w H; [exact H|].
  cbn [nested_loop].
  match goal with
  | |- context [self rpf ?w1] =>
      pose proof (self_spares rpf w1) as Hs;
      rewrite fs_report in Hs; specialize (Hs H);
      destruct (self rpf w1) as [[[[res err] ex]| |] w2]
  end; cbn [snd] in *; [|exact Hs|exact Hs].
  apply IH. now apply cleanup_nested_spares.
Qed.

Lemma organize_spares (base_dir stream_dir data_dir : path) (cb : bool)
  (w2 : world) :
  no_container_in sd (fs w2) ->
  no_container_in sd
    (fs (snd (organize_and_recurse medium self base_dir stream_dir data_dir
                cb w2))).
Proof.
  intros H. unfold organize_and_recurse.
  pose proof (move_files_spares medium base_dir stream_dir data_dir cb
                (report cb 0 100 "Organizing extracted files..." w2)) as Hm.
  rewrite fs_report in Hm. specialize (Hm H).
  destruct (move_files medium base_dir stream_dir data_dir cb _)
    as [moved w4]. cbn [snd] in Hm.
  match goal with
  | |- context [nested_loop self cb ?count 0 ?rpfs (moved, []) ?w5] =>
      assert (H5 : no_container_in sd (fs w5))
        by (destruct rpfs; [exact Hm|now rewrite fs_report]);
      pose proof (nested_loop_spares cb count rpfs 0 (moved, []) w5 H5)
        as Hl;
      destruct (nested_loop self cb count 0 rpfs (moved, []) w5)
        as [[[m l]| |] w6]
  end; exact Hl.
Qed.

End Recursion.

Lemma nested_call_spares (medium : path -> list byte -> copy_outcome)
  (subprocess_run : string -> path -> Fs.t -> run_outcome * Fs.t)
  (decode_utf8 : list byte -> string)
  (rpf_cli : string) (output_dir : path) (fuel : nat) :
  spares subprocess_run sd ->
  forall rpf_file cb w,
    no_container_in sd (fs w) ->
    no_container_in sd
      (fs (snd (extract_rpf_recursive medium subprocess_run decode_utf8 fuel
                  rpf_file rpf_cli output_dir cb true w))).
Proof.
  intros Hsp. induction fuel as [|fuel IH]; intros rpf_file cb w H;
    [exact H|].
  cbn [extract_rpf_recursive].
  pose proof (Hsp rpf_cli rpf_file
                (fs (report cb 0 100 ("Extracting: " ++ basename rpf_file) w)))
    as H1.
  rewrite fs_report in *. specialize (H1 H).
  destruct (subprocess_run rpf_cli rpf_file (fs w)) as [ran f1].
  cbn [snd] in H1.
  destruct ran; cbn [snd fs emit set_fs]; try exact H1.
  destruct (locate_base_dir rpf_file _ _) as [[base_dir|]| |];
    cbn [snd fs emit set_fs]; try exact H1.
  cbn [negb]. apply organize_spares; [|exact H1].
  intros nested_rpf w'. apply IH.
Qed.

Lemma fold_prune_idle (extracted_rpfs : list path) (f : Fs.t) :
  no_container_in sd f -> containers extracted_rpfs ->
  fold_left (Gui.prune_step sd) extracted_rpfs f = f.
Proof.
  intros H Hc. induction Hc as [|r l Hr _ IH]; [reflexivity|].
  cbn [fold_left]. unfold Gui.prune_step at 2.
  now rewrite (H _ Hr).
Qed.

End Watched.

(** What is done below one top-level entry leaves the others alone. *)
Lemma lookup_makedirs_top (a b : string) (p q : path) (n n' : Fs.node) :
  b <> a ->
  Fs.makedirs (a :: p) n = Some n' ->
  Fs.lookup (b :: q) n' = Fs.lookup (b :: q) n.
Proof.
  intros Hne H. destruct n as [x|es]; [discriminate|]. cbn [Fs.makedirs] in H.
  assert (exists y, n' = Fs.Dir (Fs.set_entry a y es)) as [y ->].
  { destruct (Fs.assoc a es) as [n1|]; [|inversion H; eauto].
    destruct (Fs.makedirs p n1); inversion H; eauto. }
  cbn [Fs.lookup]. now rewrite FsFacts.assoc_set_other.
Qed.

Lemma lookup_write_top (a b : string) (p q : path) (x : list byte)
  (n n' : Fs.node) :
  b <> a ->
  Fs.write_file (a :: p) x n = Some n' ->
  Fs.lookup (b :: q) n' = Fs.lookup (b :: q) n.
Proof.
  intros Hne H.
  destruct n as [y|es]; [now rewrite FsFacts.write_file_on_file in H|].
  assert (exists y, n' = Fs.Dir (Fs.set_entry a y es)) as [y ->].
  { destruct p as [|c2 p].
    - rewrite FsFacts.write_file_leaf in H.
      destruct (Fs.assoc a es) as [[|]|]; inversion H; eauto.
    - rewrite FsFacts.write_file_inner in H.
      destruct (Fs.assoc a es) as [n1|]; [|discriminate].
      destruct (Fs.write_file (c2 :: p) x n1); inversion H; eauto. }
  cbn [Fs.lookup]. now rewrite FsFacts.assoc_set_other.
Qed.

(** The unpacking decoder works below [w] only. *)
Lemma unpacking_decoder_top (rpf_cli : string) (rpf_file : path) (f : Fs.t)
  (b : string) (q : path) :
  b <> "w" ->
  Fs.lookup (b :: q) (snd (Examples.unpacking_decoder rpf_cli rpf_file f))
  = Fs.lookup (b :: q) f.
Proof.
  intros Hne. unfold Examples.unpacking_decoder.
  destruct rpf_file as [|c [|c2 r]]; try reflexivity.
  destruct (String.eqb_spec c "w") as [->|_]; [|reflexivity].
  unfold Examples.scratch_decoder, temp_extract_dir, join.
  change (dirname ("w" :: c2 :: r)) with ("w" :: dirname (c2 :: r)).
  rewrite <- !app_comm_cons.
  destruct (Fs.makedirs _ f) as [f1|] eqn:Em; [|reflexivity].
  destruct (Fs.write_file _ _ f1) as [f2|] eqn:Ew; [|reflexivity].
  cbn [snd].
  rewrite (lookup_write_top _ _ _ _ _ _ _ Hne Ew).
  exact (lookup_makedirs_top _ _ _ _ _ _ Hne Em).
Qed.

Lemma unpacking_decoder_spares (d : path) :
  spares Examples.unpacking_decoder ("out" :: d).
Proof.
  intros rpf_cli rpf_file f H name Hn. specialize (H name Hn).
  unfold Fs.exists_, join in *. rewrite <- app_comm_cons in *.
  rewrite unpacking_decoder_top by discriminate. exact H.
Qed.

End Spared.

(** X21: after a top-level call the pruning of the stream bucket finds
    nothing to remove.  The buckets are emptied by the call, the mover never
    writes a file under a container name and only containers are recorded
    as absorbed; so, as long as the decoder itself puts no container into
    the stream bucket, no absorbed name exists there when the call has
    returned, and the file system is the same after the pruning as
    before. *)
Theorem pruning_finds_nothing_to_remove
  (medium : path -> list byte -> copy_outcome)
  (subprocess_run : string -> path -> Fs.t -> run_outcome * Fs.t)
  (decode_utf8 : list byte -> string)
  (rpf_cli : string) (output_dir : path) (fuel : nat)
  (rpf_file : path) (cb : bool) (w : world) :
  spares subprocess_run (join output_dir "stream") ->
  match
    extract_rpf_recursive medium subprocess_run decode_utf8 fuel rpf_file
      rpf_cli output_dir cb false w
  with
  | (Return (result, _, extracted_rpfs), w') =>
      (forall r,
          In r extracted_rpfs ->
          Fs.exists_ (join (join output_dir "stream") (basename r)) (fs w')
          = false)
      /\ Gui.prune_absorbed output_dir result extracted_rpfs (fs w') = fs w'
  | _ => True
  end.
Proof.
  intros Hsp. destruct fuel as [|fuel]; [exact I|].
  cbn [extract_rpf_recursive].
  destruct (subprocess_run rpf_cli rpf_file _) as [ran f1].
  destruct ran; try (split; [intros r []|reflexivity]).
  destruct (locate_base_dir rpf_file _ _) as [[base_dir|]| |];
    try exact I; try (split; [intros r []|reflexivity]).
  cbn [negb].
  destruct (ensure_clean_dirs output_dir _) as [[[sd dd]| |] w2] eqn:Hclean;
    try exact I.
  destruct (Reset.ensure_clean_dirs_spec _ _ _ _ _ Hclean)
    as (-> & -> & Hl1 & _).
  apply Spared.empty_spares in Hl1.
  match goal with
  | |- context [organize_and_recurse medium ?self ?b ?s ?d cb w2] =>
      pose proof (Spared.organize_spares (join output_dir "stream") medium
                    self
                    (fun nested_rpf w' =>
                       Spared.nested_call_spares _ medium subprocess_run
                         decode_utf8 rpf_cli output_dir fuel Hsp nested_rpf
                         false w')
                    b s d cb w2 Hl1) as Hf;
      pose proof (Absorbed.organize_containers medium self b s d cb w2
                    (fun nested_rpf w' =>
                       Absorbed.call_containers medium subprocess_run
                         decode_utf8 rpf_cli output_dir fuel nested_rpf
                         false true w')) as Hc;
      destruct (organize_and_recurse medium self b s d cb w2)
        as [[[[res err] l]| |] w'']
  end; try exact I.
  cbn [fst snd] in *. split.
  - intros r Hr. apply Hf.
    unfold containers in Hc. rewrite Forall_forall in Hc. now apply Hc.
  - unfold Gui.prune_absorbed. destruct (moved_any res); [|reflexivity].
    now apply Spared.fold_prune_idle.
Qed.

Lemma pruning_finds_nothing_to_remove_witness :
  match
    extract_rpf_recursive faithful_medium Examples.unpacking_decoder
      Examples.decode_ascii 3 ["w"; "top.rpf"] "rpf-cli.exe" ["out"] false
      false (mkWorld Examples.mixed_tree [])
  with
  | (Return (result, _, extracted_rpfs), w') =>
      (forall r,
          In r extracted_rpfs ->
          Fs.exists_ (join (join ["out"] "stream") (basename r)) (fs w')
          = false)
      /\ Gui.prune_absorbed ["out"] result extracted_rpfs (fs w') = fs w'
  | _ => True
  end.
Proof.
  apply (pruning_finds_nothing_to_remove faithful_medium
           Examples.unpacking_decoder Examples.decode_ascii "rpf-cli.exe"
           ["out"] 3 ["w"; "top.rpf"] false
           (mkWorld Examples.mixed_tree [])).
  exact (Spared.unpacking_decoder_spares ["stream"]).
Defined.

(** ** The mover and the files that are already there *)

Module Overwrite.

(** What holds an entry is a directory. *)
Lemma parent_is_dir (d : path) (a : string) (f : Fs.t) :
  Fs.exists_ (join d a) f = true ->
  exists es, Fs.lookup d f = Some (Fs.Dir es).
Proof.
  unfold Fs.exists_, join. rewrite FsFacts.lookup_app.
  destruct (Fs.lookup d f) as [[x|es]|]; simpl; try discriminate. eauto.
Qed.

(** In a directory, a name that is not taken by a directory can be
    written. *)
Lemma write_in_dir (a : string) (x : list byte) (d : path) :
  forall n es,
    Fs.lookup d n = Some (Fs.Dir es) ->
    (forall es', Fs.assoc a es <> Some (Fs.Dir es')) ->
    exists n', Fs.write_file (d ++ [a]) x n = Some n'.
Proof.
  induction d as [|c d IH]; intros n es H Ha.
  - simpl in H. inversion H; subst. rewrite app_nil_l.
    rewrite FsFacts.write_file_leaf.
    destruct (Fs.assoc a es) as [[y|es']|]; eauto.
    exfalso. now apply (Ha es').
  - destruct n as [y|es0]; [discriminate|]. cbn [Fs.lookup] in H.
    destruct (Fs.assoc c es0) as [n1|] eqn:Ea; [|discriminate].
    rewrite <- app_comm_cons.
    destruct (IH n1 es H Ha) as [n1' Hw].
    destruct (d ++ [a]) as [|c2 p] eqn:E; [now destruct d|].
    rewrite FsFacts.write_file_inner, Ea, Hw. cbn [option_map]. eauto.
Qed.

Lemma write_fresh (d : path) (a b : string) (x : list byte) (f : Fs.t) :
  Fs.exists_ (join d a) f = true ->
  Fs.exists_ (join d b) f = false ->
  exists f', Fs.write_file (join d b) x f = Some f'.
Proof.
  intros Ha Hb. destruct (parent_is_dir d a f Ha) as [es Hd].
  apply (write_in_dir b x d f es Hd).
  intros es' He. unfold Fs.exists_, join in Hb.
  rewrite (FsMore.lookup_entry b d f es Hd), He in Hb. discriminate.
Qed.

Lemma read_exists (q : path) (x : list byte) (f : Fs.t) :
  Fs.read q f = Some x -> Fs.exists_ q f = true.
Proof.
  unfold Fs.read, Fs.exists_. now destruct (Fs.lookup q f).
Qed.

Section Mover.

Variable medium : path -> list byte -> copy_outcome.

(** Once the source is read and the destination opened, the destination
    is the one file that comes into being. *)
Lemma copy_checked_creates (file : string) (src dest : path) (b : bucket)
  (w : world) (bytes : list byte) (opened : Fs.t) :
  Fs.read src (fs w) = Some bytes ->
  Fs.write_file dest [] (fs w) = Some opened ->
  let w' := snd (copy_checked medium file src dest b w) in
  trace w' = trace w ++ [EvCreate dest]
  /\ (exists y, Fs.read dest (fs w') = Some y)
  /\ forall q,
      q <> dest -> Fs.lookup q (fs w) = None -> Fs.lookup q (fs w') = None.
Proof.
  intros Hr Ho.
  assert (Hs : forall d,
             let w2 := store dest d (emit (EvCreate dest) (set_fs opened w)) in
             trace w2 = trace w ++ [EvCreate dest]
             /\ (exists y, Fs.read dest (fs w2) = Some y)
             /\ forall q,
                 q <> dest ->
                 Fs.lookup q (fs w) = None -> Fs.lookup q (fs w2) = None).
  { intros d. cbv zeta. unfold store. cbn [fs emit set_fs].
    destruct (FsFacts.write_again dest [] d _ _ Ho) as [f2 Hw]. rewrite Hw.
    cbn [fs trace set_fs emit]. split; [reflexivity|]. split.
    - exists d. unfold Fs.read.
      now rewrite (FsFacts.lookup_write_same _ _ _ _ Hw).
    - intros q Hq Hn. apply (Spared.lookup_write_none _ _ _ _ _ Hw Hq).
      exact (Spared.lookup_write_none _ _ _ _ _ Ho Hq Hn). }
  cbv zeta. unfold copy_checked, Fs.getsize. rewrite Hr, Ho.
  cbn [option_map].
  destruct (medium dest bytes) as [stored|partial]; [|apply Hs].
  destruct (option_map _ _); [destruct (negb _)|]; apply Hs.
Qed.

(** The copy creates the destination or nothing at all. *)
Lemma copy_checked_trace (file : string) (src dest : path) (b : bucket)
  (w : world) :
  let w' := snd (copy_checked medium file src dest b w) in
  trace w' = trace w
  \/ (trace w' = trace w ++ [EvCreate dest]
      /\ exists y, Fs.read dest (fs w') = Some y).
Proof.
  cbv zeta.
  destruct (Fs.read src (fs w)) as [bytes|] eqn:Hr.
  - destruct (Fs.write_file dest [] (fs w)) as [opened|] eqn:Ho.
    + right.
      destruct (copy_checked_creates file src dest b w bytes opened Hr Ho)
        as (Ht & He & _).
      auto.
    + left. unfold copy_checked, Fs.getsize. now rewrite Hr, Ho.
  - left. unfold copy_checked, Fs.getsize. now rewrite Hr.
Qed.

(** A file whose plain name is taken in its bucket is stored under the
    first numbered name that is free, and nothing else comes into
    being. *)
Lemma try_body_collision (root stream_dir data_dir : path) (important : bool)
  (file : string) (d : path) (b : bucket) (bytes : list byte) (w : world) :
  file_ext file <> "rpf" ->
  destination important (file_ext file) file stream_dir data_dir
  = Some (join d file, b) ->
  Fs.read (join root file) (fs w) = Some bytes ->
  Fs.exists_ (join d file) (fs w) = true ->
  exists j,
    1 <= j
    /\ let dest :=
         join d
           (numbered_name (fst (splitext file)) (snd (splitext file)) j) in
       let w' :=
         snd (try_body medium root important stream_dir data_dir file w) in
       Fs.exists_ dest (fs w) = false
       /\ (forall i,
              1 <= i < j ->
              Fs.exists_
                (join d
                   (numbered_name (fst (splitext file))
                      (snd (splitext file)) i)) (fs w) = true)
       /\ trace w' = trace w ++ [EvCreate dest]
       /\ (exists y, Fs.read dest (fs w') = Some y)
       /\ forall q,
           q <> dest ->
           Fs.lookup q (fs w) = None -> Fs.lookup q (fs w') = None.
Proof.
  intros Hext Hdest Hr Hex.
  destruct (Collision.unique_dest_least (fs w) d file Hex)
    as (j & Hj & Hp & Hall).
  pose proof (Collision.unique_dest_free (fs w) d file) as Hfree.
  rewrite Hp in Hfree.
  exists j. split; [exact Hj|]. cbv zeta.
  split; [exact Hfree|]. split; [exact Hall|].
  destruct (write_fresh d file _ [] (fs w) Hex Hfree) as [opened Ho].
  unfold try_body. apply String.eqb_neq in Hext. rewrite Hext, Hdest, Hp.
  exact (copy_checked_creates file _ _ b w bytes opened Hr Ho).
Qed.

(** A file called [x.ydr] always has the stream bucket as its
    destination. *)
Lemma destination_x_ydr (important : bool) (stream_dir data_dir : path) :
  destination important (file_ext "x.ydr") "x.ydr" stream_dir data_dir
  = Some (join stream_dir "x.ydr", BStream).
Proof.
  unfold destination. change (file_ext "x.ydr") with "ydr".
  change (Str.mem "ydr" STREAM_EXTENSIONS) with true.
  now rewrite orb_true_r.
Qed.

(** The second [x.ydr]. *)
Lemma second_x_ydr (root stream_dir data_dir : path) (important : bool)
  (bytes old : list byte) (w : world) :
  Fs.read (join root "x.ydr") (fs w) = Some bytes ->
  Fs.read (join stream_dir "x.ydr") (fs w) = Some old ->
  Fs.exists_ (join stream_dir "x_1.ydr") (fs w) = false ->
  let w' :=
    snd (try_body medium root important stream_dir data_dir "x.ydr" w) in
  trace w' = trace w ++ [EvCreate (join stream_dir "x_1.ydr")]
  /\ (exists y, Fs.read (join stream_dir "x_1.ydr") (fs w') = Some y)
  /\ forall q,
      q <> join stream_dir "x_1.ydr" ->
      Fs.lookup q (fs w) = None -> Fs.lookup q (fs w') = None.
Proof.
  intros Hr Hold H1.
  pose proof (read_exists _ _ _ Hold) as Hex.
  destruct (try_body_collision root stream_dir data_dir important "x.ydr"
              stream_dir BStream bytes w ltac:(discriminate)
              (destination_x_ydr _ _ _) Hr Hex)
    as (j & Hj & _ & Hall & Ht & He & Hq).
  change (splitext "x.ydr") with ("x", ".ydr") in *.
  cbn [fst snd] in *.
  assert (j = 1) as ->.
  { destruct (Nat.eq_dec j 1) as [|Hne]; [assumption|].
    specialize (Hall 1 ltac:(lia)).
    change (numbered_name "x" ".ydr" 1) with "x_1.ydr" in Hall. congruence. }
  change (numbered_name "x" ".ydr" 1) with "x_1.ydr" in *. auto.
Qed.

(** The third [x.ydr]. *)
Lemma third_x_ydr (root stream_dir data_dir : path) (important : bool)
  (bytes old : list byte) (w : world) :
  Fs.read (join root "x.ydr") (fs w) = Some bytes ->
  Fs.read (join stream_dir "x.ydr") (fs w) = Some old ->
  Fs.exists_ (join stream_dir "x_1.ydr") (fs w) = true ->
  Fs.exists_ (join stream_dir "x_2.ydr") (fs w) = false ->
  let w' :=
    snd (try_body medium root important stream_dir data_dir "x.ydr" w) in
  trace w' = trace w ++ [EvCreate (join stream_dir "x_2.ydr")]
  /\ exists y, Fs.read (join stream_dir "x_2.ydr") (fs w') = Some y.
Proof.
  intros Hr Hold H1 H2.
  pose proof (read_exists _ _ _ Hold) as Hex.
  destruct (try_body_collision root stream_dir data_dir important "x.ydr"
              stream_dir BStream bytes w ltac:(discriminate)
              (destination_x_ydr _ _ _) Hr Hex)
    as (j & Hj & Hfree & Hall & Ht & He & _).
  change (splitext "x.ydr") with ("x", ".ydr") in *.
  cbn [fst snd] in *.
  assert (j = 2) as ->.
  { destruct (Nat.eq_dec j 1) as [->|Hne1].
    - change (numbered_name "x" ".ydr" 1) with "x_1.ydr" in Hfree.
      congruence.
    - destruct (Nat.eq_dec j 2) as [|Hne2]; [assumption|].
      specialize (Hall 2 ltac:(lia)).
      change (numbered_name "x" ".ydr" 2) with "x_2.ydr" in Hall.
      congruence. }
  change (numbered_name "x" ".ydr" 2) with "x_2.ydr" in *. auto.
Qed.

End Mover.

End Overwrite.

(** C2, as the program has it: the mover never overwrites.  Whatever the
    file, the body of [try] leaves every file that is there with its
    content, and the one file it may create lies at a path where nothing
    was; the whole consolidation keeps every file as well.  A file whose
    name is taken in its bucket is stored under the first numbered name
    that is free: the counter goes up from 1 past the names that are
    taken.  So, in a bucket that holds [x.ydr] and no [x_1.ydr], a second
    [x.ydr] is stored as [x_1.ydr]; where [x_1.ydr] is there as well and
    [x_2.ydr] is not, it is stored as [x_2.ydr]; and two files called
    [x.ydr] moved one after the other into a bucket that holds [x.ydr] and
    neither numbered name are stored as [x_1.ydr] and [x_2.ydr]. *)
Theorem mover_never_overwrites
  (medium : path -> list byte -> copy_outcome)
  (root stream_dir data_dir : path) (important : bool) (w : world) :
  (forall file,
      let w' :=
        snd (try_body medium root important stream_dir data_dir file w) in
      (forall q x, Fs.read q (fs w) = Some x -> Fs.read q (fs w') = Some x)
      /\ (trace w' = trace w
          \/ exists dest,
              trace w' = trace w ++ [EvCreate dest]
              /\ Fs.exists_ dest (fs w) = false
              /\ exists y, Fs.read dest (fs w') = Some y))
  /\ (forall base_dir cb q x,
         Fs.read q (fs w) = Some x ->
         Fs.read q
           (fs (snd (move_files medium base_dir stream_dir data_dir cb w)))
         = Some x)
  /\ (forall file d b bytes,
         file_ext file <> "rpf" ->
         destination important (file_ext file) file stream_dir data_dir
         = Some (join d file, b) ->
         Fs.read (join root file) (fs w) = Some bytes ->
         Fs.exists_ (join d file) (fs w) = true ->
         exists j,
           1 <= j
           /\ let dest :=
                join d
                  (numbered_name (fst (splitext file)) (snd (splitext file))
                     j) in
              let w' :=
                snd (try_body medium root important stream_dir data_dir file
                       w) in
              Fs.exists_ dest (fs w) = false
              /\ (forall i,
                     1 <= i < j ->
                     Fs.exists_
                       (join d
                          (numbered_name (fst (splitext file))
                             (snd (splitext file)) i)) (fs w) = true)
              /\ trace w' = trace w ++ [EvCreate dest]
              /\ exists y, Fs.read dest (fs w') = Some y)
  /\ (forall bytes old,
         Fs.read (join root "x.ydr") (fs w) = Some bytes ->
         Fs.read (join stream_dir "x.ydr") (fs w) = Some old ->
         Fs.exists_ (join stream_dir "x_1.ydr") (fs w) = false ->
         let w' :=
           snd (try_body medium root important stream_dir data_dir "x.ydr"
                  w) in
         trace w' = trace w ++ [EvCreate (join stream_dir "x_1.ydr")]
         /\ (exists y, Fs.read (join stream_dir "x_1.ydr") (fs w') = Some y)
         /\ Fs.read (join stream_dir "x.ydr") (fs w') = Some old)
  /\ (forall bytes old,
         Fs.read (join root "x.ydr") (fs w) = Some bytes ->
         Fs.read (join stream_dir "x.ydr") (fs w) = Some old ->
         Fs.exists_ (join stream_dir "x_1.ydr") (fs w) = true ->
         Fs.exists_ (join stream_dir "x_2.ydr") (fs w) = false ->
         let w' :=
           snd (try_body medium root important stream_dir data_dir "x.ydr"
                  w) in
         trace w' = trace w ++ [EvCreate (join stream_dir "x_2.ydr")]
         /\ (exists y, Fs.read (join stream_dir "x_2.ydr") (fs w') = Some y)
         /\ Fs.read (join stream_dir "x.ydr") (fs w') = Some old)
  /\ (forall root2 bytes bytes2 old,
         Fs.read (join root "x.ydr") (fs w) = Some bytes ->
         Fs.read (join root2 "x.ydr") (fs w) = Some bytes2 ->
         Fs.read (join stream_dir "x.ydr") (fs w) = Some old ->
         Fs.exists_ (join stream_dir "x_1.ydr") (fs w) = false ->
         Fs.exists_ (join stream_dir "x_2.ydr") (fs w) = false ->
         let w1 :=
           snd (try_body medium root important stream_dir data_dir "x.ydr"
                  w) in
         let w2 :=
           snd (try_body medium root2 important stream_dir data_dir "x.ydr"
                  w1) in
         trace w2
         = trace w ++ [EvCreate (join stream_dir "x_1.ydr");
                       EvCreate (join stream_dir "x_2.ydr")]
         /\ (exists y, Fs.read (join stream_dir "x_1.ydr") (fs w2) = Some y)
         /\ (exists y, Fs.read (join stream_dir "x_2.ydr") (fs w2) = Some y)
         /\ Fs.read (join stream_dir "x.ydr") (fs w2) = Some old).
Proof.
  assert (Hkeep : forall r file w0 q x,
             Fs.read q (fs w0) = Some x ->
             Fs.read q
               (fs (snd (try_body medium r important stream_dir data_dir
                           file w0)))
             = Some x)
    by (intros; now apply try_body_preserves).
  split; [|split; [|split; [|split; [|split]]]].
  - intros file. cbv zeta. split; [intros; now apply Hkeep|].
    unfold try_body.
    destruct (String.eqb (file_ext file) "rpf"); [now left|].
    destruct (destination important (file_ext file) file stream_dir data_dir)
      as [[dest0 b]|] eqn:Ed; [|now left].
    apply destination_in_bucket in Ed. subst dest0.
    destruct (Overwrite.copy_checked_trace medium file (join root file)
                (unique_dest (fs w) file
                   (join (bucket_dir stream_dir data_dir b) file)) b w)
      as [Ht|[Ht He]]; [now left|right].
    eexists. split; [exact Ht|]. split; [|exact He].
    apply Collision.unique_dest_free.
  - intros. now apply move_files_preserves.
  - intros file d b bytes Hext Hdest Hr Hex.
    destruct (Overwrite.try_body_collision medium root stream_dir data_dir
                important file d b bytes w Hext Hdest Hr Hex)
      as (j & Hj & Hfree & Hall & Ht & He & _).
    exists j. cbv zeta. auto.
  - intros bytes old Hr Hold H1. cbv zeta.
    destruct (Overwrite.second_x_ydr medium root stream_dir data_dir
                important bytes old w Hr Hold H1) as (Ht & He & _).
    auto.
  - intros bytes old Hr Hold H1 H2. cbv zeta.
    destruct (Overwrite.third_x_ydr medium root stream_dir data_dir
                important bytes old w Hr Hold H1 H2) as (Ht & He).
    auto.
  - intros root2 bytes bytes2 old Hr Hr2 Hold H1 H2 w1 w2.
    destruct (Overwrite.second_x_ydr medium root stream_dir data_dir
                important bytes old w Hr Hold H1) as (Ht1 & [y1 He1] & Hq1).
    fold w1 in Ht1, He1, Hq1.
    assert (H2' : Fs.exists_ (join stream_dir "x_2.ydr") (fs w1) = false).
    { unfold Fs.exists_ in *. rewrite Hq1; [reflexivity| |].
      - unfold join. intros Heq. apply app_inv_head in Heq. discriminate.
      - now destruct (Fs.lookup (join stream_dir "x_2.ydr") (fs w)). }
    destruct (Overwrite.third_x_ydr medium root2 stream_dir data_dir
                important bytes2 old w1 (Hkeep _ _ _ _ _ Hr2)
                (Hkeep _ _ _ _ _ Hold) (Overwrite.read_exists _ _ _ He1) H2')
      as (Ht2 & He2).
    fold w2 in Ht2, He2.
    split; [now rewrite Ht2, Ht1, <- app_assoc|].
    split; [exists y1; now apply Hkeep|].
    split; [exact He2|].
    apply Hkeep. now apply Hkeep.
Qed.

Lemma mover_never_overwrites_witness :
  let w := mkWorld Examples.collision_tree [] in
  let w1 :=
    snd (try_body faithful_medium ["w"; "a"] false ["out"; "stream"]
           ["out"; "data"] "x.ydr" w) in
  let w2 :=
    snd (try_body faithful_medium ["w"; "b"] false ["out"; "stream"]
           ["out"; "data"] "x.ydr" w1) in
  trace w2
  = [EvCreate ["out"; "stream"; "x_1.ydr"];
     EvCreate ["out"; "stream"; "x_2.ydr"]]
  /\ Fs.read ["out"; "stream"; "x.ydr"] (fs w2) = Some [x09]%byte.
Proof.
  intros w w1 w2.
  destruct
    (proj2 (proj2 (proj2 (proj2 (proj2
       (mover_never_overwrites faithful_medium ["w"; "a"] ["out"; "stream"]
          ["out"; "data"] false w)))))
       ["w"; "b"] Examples.two_bytes [x03]%byte [x09]%byte
       eq_refl eq_refl eq_refl eq_refl eq_refl)
    as (Ht & _ & _ & Hold).
  split; [exact Ht|exact Hold].
Defined.

(** The claim as stated fails where [x_1.ydr] is taken too: in a bucket
    that holds [x.ydr] and [x_1.ydr] the next [x.ydr] is stored as
    [x_2.ydr], not as [x_1.ydr], and the file [x_1.ydr] that was there keeps
    its content. *)
Lemma second_file_is_not_always_x_1 :
  let w := mkWorld Examples.taken_tree [] in
  let w' :=
    snd (try_body faithful_medium ["w"; "a"] false ["out"; "stream"]
           ["out"; "data"] "x.ydr" w) in
  Fs.read ["out"; "stream"; "x.ydr"] (fs w) = Some [x09]%byte
  /\ trace w' = [EvCreate ["out"; "stream"; "x_2.ydr"]]
  /\ trace w' <> [EvCreate ["out"; "stream"; "x_1.ydr"]]
  /\ Fs.read ["out"; "stream"; "x_2.ydr"] (fs w') = Some Examples.two_bytes
  /\ Fs.read ["out"; "stream"; "x_1.ydr"] (fs w') = Some [x08]%byte.
Proof.
  vm_compute. repeat split; auto. discriminate.
Qed.

(** ** What a nested call leaves of the buckets *)

Module Kept.

Lemma bucket_kept_refl (d : path) (f : Fs.t) : bucket_kept d f f.
Proof. split; auto. Qed.

Lemma bucket_kept_trans (d : path) (f1 f2 f3 : Fs.t) :
  bucket_kept d f1 f2 -> bucket_kept d f2 f3 -> bucket_kept d f1 f3.
Proof.
  intros [Hd1 Hf1] [Hd2 Hf2]. split; [auto|].
  intros name x H. apply Hf2. now apply Hf1.
Qed.

(** Writing a file leaves every directory a directory. *)
Lemma isdir_write (p : path) (x : list byte) :
  forall n n' d,
    Fs.write_file p x n = Some n' ->
    Fs.isdir d n = true -> Fs.isdir d n' = true.
Proof.
  unfold Fs.isdir.
  induction p as [|c p IH]; intros n n' d H Hd; [discriminate|].
  destruct n as [y|es]; [now rewrite FsFacts.write_file_on_file in H|].
  assert (Hn' : exists y, n' = Fs.Dir (Fs.set_entry c y es)).
  { destruct p as [|c2 p].
    - rewrite FsFacts.write_file_leaf in H.
      destruct (Fs.assoc c es) as [[|]|]; inversion H; eauto.
    - rewrite FsFacts.write_file_inner in H.
      destruct (Fs.assoc c es) as [n1|]; [|discriminate].
      destruct (Fs.write_file (c2 :: p) x n1); inversion H; eauto. }
  destruct d as [|c' d]; [destruct Hn' as [y ->]; reflexivity|].
  destruct (String.eqb_spec c' c) as [->|Hc].
  - destruct p as [|c2 p].
    + exfalso. rewrite FsFacts.write_file_leaf in H. cbn [Fs.lookup] in Hd.
      destruct (Fs.assoc c es) as [[y|es1]|]; try discriminate.
      destruct d; simpl in Hd; discriminate.
    + rewrite FsFacts.write_file_inner in H. cbn [Fs.lookup] in Hd.
      destruct (Fs.assoc c es) as [n1|]; [|discriminate].
      destruct (Fs.write_file (c2 :: p) x n1) as [n1'|] eqn:E;
        [|discriminate].
      cbn [option_map] in H. inversion H; subst.
      cbn [Fs.lookup]. rewrite FsFacts.assoc_set_same.
      now apply (IH n1 n1' d E).
  - destruct Hn' as [y ->]. cbn [Fs.lookup] in *.
    now rewrite FsFacts.assoc_set_other.
Qed.

(** Removing a tree leaves every directory that is not in it a
    directory. *)
Lemma isdir_rmtree (p : path) :
  forall n d,
    ~ below p d -> Fs.isdir d n = true -> Fs.isdir d (Fs.rmtree p n) = true.
Proof.
  unfold Fs.isdir.
  induction p as [|c p IH]; intros n d Hout Hd.
  - exfalso. apply Hout. now exists d.
  - destruct n as [y|es]; [now rewrite FsFacts.rmtree_on_file|].
    destruct d as [|c' d].
    + destruct (FsMore.rmtree_dir_is_dir (c :: p) es) as [es' ->].
      reflexivity.
    + destruct (String.eqb_spec c' c) as [->|Hc].
      * destruct p as [|c2 p].
        -- exfalso. apply Hout. now exists d.
        -- rewrite FsFacts.rmtree_inner. cbn [Fs.lookup] in Hd.
           destruct (Fs.assoc c es) as [n1|] eqn:Ea; [|discriminate].
           cbn [Fs.lookup]. rewrite FsFacts.assoc_set_same.
           apply IH; [|exact Hd]. intros [r Hr]. apply Hout. exists r.
           simpl. now rewrite Hr.
      * destruct p as [|c2 p].
        -- simpl. rewrite FsFacts.assoc_del_other by exact Hc. exact Hd.
        -- rewrite FsFacts.rmtree_inner. cbn [Fs.lookup] in *.
           destruct (Fs.assoc c es) as [n1|]; cbn [Fs.lookup]; [|exact Hd].
           now rewrite FsFacts.assoc_set_other.
Qed.

Lemma prefix_of_parent (d s r : path) (a : string) :
  d ++ [a] = s ++ r -> r <> [] -> exists r', d = s ++ r'.
Proof.
  intros H Hr. destruct (exists_last Hr) as (r' & z & ->).
  rewrite app_assoc in H. apply app_inj_tail in H as [H _]. eauto.
Qed.

(** What every successful write to a good destination keeps, the mover
    keeps, when the destinations it chooses are good. *)
Section Invariant.

Variable Inv : Fs.t -> Prop.
Variable Good : path -> Prop.
Hypothesis write_inv :
  forall p x f f',
    Fs.write_file p x f = Some f' -> Good p -> Inv f -> Inv f'.

Variable medium : path -> list byte -> copy_outcome.
Variables stream_dir data_dir : path.
Variable total : nat.
Variable cb : bool.

Hypothesis dest_good :
  forall f file b,
    Inv f ->
    Good (unique_dest f file (join (bucket_dir stream_dir data_dir b) file)).

Lemma copy_checked_inv (file : string) (src dest : path) (b : bucket)
  (w : world) :
  Good dest ->
  Inv (fs w) -> Inv (fs (snd (copy_checked medium file src dest b w))).
Proof.
  intros Hg H.
  assert (Hstore : forall d opened,
             Fs.write_file dest [] (fs w) = Some opened ->
             Inv (fs (store dest d (emit (EvCreate dest) (set_fs opened w))))).
  { intros d opened Ho. unfold store. cbn [fs emit set_fs].
    pose proof (write_inv _ _ _ _ Ho Hg H) as H1.
    destruct (Fs.write_file dest d opened) as [f2|] eqn:Hw; cbn [fs set_fs].
    - exact (write_inv _ _ _ _ Hw Hg H1).
    - exact H1. }
  unfold copy_checked.
  destruct (Fs.getsize src (fs w)); [|exact H].
  destruct (Fs.read src (fs w)); [|exact H].
  destruct (Fs.write_file dest [] (fs w)) as [opened|] eqn:Ho; [|exact H].
  destruct (medium dest l) as [stored|partial].
  - destruct (Fs.getsize dest _); [destruct (negb _)|]; cbn [snd];
      now apply Hstore.
  - cbn [snd]. now apply Hstore.
Qed.

Lemma move_file_inv (root : path) (important : bool) (st : mover)
  (file : string) :
  Inv (fs (mworld st)) ->
  Inv (fs (mworld
             (move_file medium root important stream_dir data_dir total cb st
                file))).
Proof.
  intros H. unfold move_file.
  set (w := report cb (processed st + 1) total ("Processing: " ++ file)
              (mworld st)).
  assert (Hw : Inv (fs w)) by (unfold w; now rewrite fs_report).
  assert (Ht : Inv (fs (snd (try_body medium root important stream_dir
                               data_dir file w)))).
  { unfold try_body.
    destruct (String.eqb (file_ext file) "rpf"); [exact Hw|].
    destruct (destination important (file_ext file) file stream_dir
                data_dir) as [[dest0 b]|] eqn:Ed; [|exact Hw].
    apply destination_in_bucket in Ed. subst dest0.
    apply copy_checked_inv; [|exact Hw]. now apply dest_good. }
  destruct (try_body medium root important stream_dir data_dir file w)
    as [[|b|e] w']; exact Ht.
Qed.

Lemma fold_move_dir_inv
  (entries : list (path * list string * list string)) :
  forall st,
    Inv (fs (mworld st)) ->
    Inv (fs (mworld
               (fold_left (move_dir medium stream_dir data_dir total cb)
                  entries st))).
Proof.
  induction entries as [|[[root dirs] files] entries IH]; intros st H;
    [exact H|].
  cbn [fold_left]. apply IH. unfold move_dir.
  destruct (is_ignored root); [exact H|].
  clear IH. revert st H.
  induction files as [|file files IHf]; intros st H; [exact H|].
  cbn [fold_left]. apply IHf. now apply move_file_inv.
Qed.

End Invariant.

Lemma move_files_keeps (medium : path -> list byte -> copy_outcome)
  (base_dir stream_dir data_dir : path) (cb : bool) (w : world) (d : path) :
  bucket_kept d (fs w)
    (fs (snd (move_files medium base_dir stream_dir data_dir cb w))).
Proof.
  split.
  - intros Hd. unfold move_files.
    destruct (total_files base_dir (fs w) =? 0); [exact Hd|].
    cbn [snd].
    apply (fold_move_dir_inv (fun f => Fs.isdir d f = true)
             (fun _ => True)); [| |exact Hd].
    + intros p x f f' Hw _. exact (isdir_write p x f f' d Hw).
    + intros; exact I.
  - intros name x H. now apply move_files_preserves.
Qed.

Section Recursion.

Variable medium : path -> list byte -> copy_outcome.
Variable output_dir : path.
Hypothesis output_free : scratch_free output_dir.
Variable name : string.
Hypothesis bucket_name : name = "stream" \/ name = "data".

Local Abbreviation d := (join output_dir name).

Lemma cleanup_nested_keeps (nested_rpf : path) (w : world) :
  bucket_kept d (fs w) (fs (cleanup_nested nested_rpf w)).
Proof.
  unfold cleanup_nested.
  destruct (Fs.exists_ _ (fs w)); [|apply bucket_kept_refl].
  destruct (Fs.isdir _ (fs w)) eqn:Hsd; [|apply bucket_kept_refl].
  cbn [fs emit set_fs].
  pose proof (Trace.bucket_outside_scratch output_dir nested_rpf name
                output_free bucket_name) as Hout.
  split.
  - intros Hd. now apply isdir_rmtree.
  - intros nm x Hq. rewrite FsMore.read_rmtree_outside; [exact Hq|].
    intros [r Hr]. destruct r as [|c r].
    + rewrite app_nil_r in Hr. rewrite Hr in Hq.
      unfold Fs.read, Fs.isdir in *.
      destruct (Fs.lookup (temp_extract_dir nested_rpf) (fs w)) as [[|]|];
        discriminate.
    + apply Hout. unfold join in Hr.
      apply prefix_of_parent in Hr; [exact Hr|discriminate].
Qed.

Variable self : path -> world -> outcome result * world.
Hypothesis self_keeps :
  forall nested_rpf w, bucket_kept d (fs w) (fs (snd (self nested_rpf w))).

Lemma nested_loop_keeps (cb : bool) (count : nat) (nested_rpfs : list path) :
  forall idx acc w,
    bucket_kept d (fs w)
      (fs (snd (nested_loop self cb count idx nested_rpfs acc w))).
Proof.
  induction nested_rpfs as [|rpf rest IH]; intros idx acc w;
    [apply bucket_kept_refl|].
  cbn [nested_loop].
  match goal with
  | |- context [self rpf ?w1] =>
      pose proof (self_keeps rpf w1) as Hs;
      rewrite fs_report in Hs;
      destruct (self rpf w1) as [[[[res err] ex]| |] w2]
  end; cbn [snd] in *; [|exact Hs|exact Hs].
  eapply bucket_kept_trans; [exact Hs|].
  eapply bucket_kept_trans; [apply cleanup_nested_keeps|apply IH].
Qed.

Lemma organize_keeps (base_dir stream_dir data_dir : path) (cb : bool)
  (w2 : world) :
  bucket_kept d (fs w2)
    (fs (snd (organize_and_recurse medium self base_dir stream_dir data_dir
                cb w2))).
Proof.
  unfold organize_and_recurse.
  pose proof (move_files_keeps medium base_dir stream_dir data_dir cb
                (report cb 0 100 "Organizing extracted files..." w2) d)
    as Hm.
  rewrite fs_report in Hm.
  destruct (move_files medium base_dir stream_dir data_dir cb _)
    as [moved w4]. cbn [snd] in Hm.
  match goal with
  | |- context [nested_loop self cb ?count 0 ?rpfs (moved, []) ?w5] =>
      assert (H5 : fs w5 = fs w4)
        by (destruct rpfs; [reflexivity|apply fs_report]);
      pose proof (nested_loop_keeps cb count rpfs 0 (moved, []) w5) as Hl;
      rewrite H5 in Hl;
      destruct (nested_loop self cb count 0 rpfs (moved, []) w5)
        as [[[m l]| |] w6]
  end; cbn [snd] in *; eapply bucket_kept_trans; eassumption.
Qed.

End Recursion.

(** A nested call, at any depth, keeps what is in a bucket, as long as
    the decoder does. *)
Lemma nested_call_keeps (medium : path -> list byte -> copy_outcome)
  (subprocess_run : string -> path -> Fs.t -> run_outcome * Fs.t)
  (decode_utf8 : list byte -> string)
  (rpf_cli : string) (output_dir : path) (name : string) (fuel : nat) :
  scratch_free output_dir ->
  name = "stream" \/ name = "data" ->
  decoder_keeps subprocess_run (join output_dir name) ->
  forall rpf_file cb w,
    bucket_kept (join output_dir name) (fs w)
      (fs (snd (extract_rpf_recursive medium subprocess_run decode_utf8 fuel
                  rpf_file rpf_cli output_dir cb true w))).
Proof.
  intros Hfree Hname Hdec.
  induction fuel as [|fuel IH]; intros rpf_file cb w;
    [apply bucket_kept_refl|].
  cbn [extract_rpf_recursive].
  pose proof (Hdec rpf_cli rpf_file
                (fs (report cb 0 100 ("Extracting: " ++ basename rpf_file) w)))
    as H1.
  rewrite fs_report in *.
  destruct (subprocess_run rpf_cli rpf_file (fs w)) as [ran f1].
  cbn [snd] in H1.
  destruct ran; cbn [snd fs emit set_fs]; try exact H1.
  destruct (locate_base_dir rpf_file _ _) as [[base_dir|]| |];
    cbn [snd fs emit set_fs]; try exact H1.
  cbn [negb]. eapply bucket_kept_trans; [exact H1|].
  match goal with
  | |- bucket_kept _ _
         (fs (snd (organize_and_recurse _ ?self ?b ?s ?dd _ ?w2))) =>
      exact (organize_keeps medium output_dir Hfree name Hname self
               (fun nested_rpf w' => IH nested_rpf false w') b s dd cb w2)
  end.
Qed.

(** The unpacking decoder leaves what is below [out] alone. *)
Lemma unpacking_decoder_keeps (d : path) :
  decoder_keeps Examples.unpacking_decoder ("out" :: d).
Proof.
  intros rpf_cli rpf_file f. unfold bucket_kept, Fs.isdir, Fs.read, join.
  split.
  - now rewrite Spared.unpacking_decoder_top by discriminate.
  - intros name x. rewrite <- app_comm_cons.
    now rewrite Spared.unpacking_decoder_top by discriminate.
Qed.

End Kept.

(** C3, as the program has it.  The output directory is taken to have no
    scratch name ([_temp_..._extract]) among the components of its path.
    Then a nested call, however deep the nesting, never removes or creates
    a bucket directory: besides running the decoder and reporting
    progress, it only removes scratch directories that hold neither
    bucket and creates files directly in [output_dir/stream] and
    [output_dir/data], the same two paths at every level; and, as long as
    the decoder leaves the buckets alone, each bucket that is a directory
    before the call is one after it and every file that lies directly in
    it is still there with its content.  The top-level call, in an output
    directory that is there and where neither bucket path is a regular
    file, resets the buckets once: each bucket is made, after having been
    removed if it was there, both are empty, and the call goes on from
    there with the consolidation and the nested calls, which only add. *)
Theorem only_top_level_resets_buckets
  (medium : path -> list byte -> copy_outcome)
  (subprocess_run : string -> path -> Fs.t -> run_outcome * Fs.t)
  (decode_utf8 : list byte -> string)
  (rpf_cli : string) (output_dir : path) :
  scratch_free output_dir ->
  (forall fuel rpf_file cb w,
      exists new,
        trace (snd (extract_rpf_recursive medium subprocess_run decode_utf8
                      fuel rpf_file rpf_cli output_dir cb true w))
        = trace w ++ new
        /\ Forall (adds_only output_dir) new
        /\ Forall (fun e => ~ resets_bucket output_dir e) new)
  /\ (decoder_keeps subprocess_run (join output_dir "stream") ->
      decoder_keeps subprocess_run (join output_dir "data") ->
      forall fuel rpf_file cb w,
        let w' :=
          snd (extract_rpf_recursive medium subprocess_run decode_utf8 fuel
                 rpf_file rpf_cli output_dir cb true w) in
        bucket_kept (join output_dir "stream") (fs w) (fs w')
        /\ bucket_kept (join output_dir "data") (fs w) (fs w'))
  /\ (forall fuel rpf_file cb w f1 base_dir es,
         subprocess_run rpf_cli rpf_file (fs w) = (Completed, f1) ->
         locate_base_dir rpf_file (join (dirname rpf_file) "dlc") f1
         = Return (Some base_dir) ->
         Fs.lookup output_dir f1 = Some (Fs.Dir es) ->
         Fs.read (join output_dir "stream") f1 = None ->
         Fs.read (join output_dir "data") f1 = None ->
         let stream_dir := join output_dir "stream" in
         let data_dir := join output_dir "data" in
         let w1 :=
           emit (EvDecode rpf_file)
             (set_fs f1
                (report cb 0 100 ("Extracting: " ++ basename rpf_file) w)) in
         let r :=
           extract_rpf_recursive medium subprocess_run decode_utf8 (S fuel)
             rpf_file rpf_cli output_dir cb false w in
         exists w2 clean,
           ensure_clean_dirs output_dir w1
           = (Return (stream_dir, data_dir), w2)
           /\ r = organize_and_recurse medium
                    (fun nested_rpf =>
                       extract_rpf_recursive medium subprocess_run
                         decode_utf8 fuel nested_rpf rpf_cli output_dir false
                         true)
                    base_dir stream_dir data_dir cb w2
           /\ Fs.listdir stream_dir (fs w2) = Some []
           /\ Fs.listdir data_dir (fs w2) = Some []
           /\ trace w2 = trace w1 ++ clean
           /\ Forall (resets_bucket output_dir) clean
           /\ In (EvMakedirs stream_dir) clean
           /\ In (EvMakedirs data_dir) clean
           /\ (Fs.isdir stream_dir f1 = true -> In (EvRmtree stream_dir) clean)
           /\ (Fs.isdir data_dir f1 = true -> In (EvRmtree data_dir) clean)
           /\ continues (adds_only output_dir) w2 (snd r)).
Proof.
  intros Hfree. split; [|split].
  - intros fuel rpf_file cb w.
    destruct (Trace.nested_call_continues medium output_dir Hfree
                subprocess_run decode_utf8 rpf_cli fuel rpf_file cb w)
      as (new & Ht & Hf).
    exists new. split; [exact Ht|]. split; [exact Hf|].
    eapply Forall_impl; [|exact Hf].
    intros e. apply Trace.adds_only_no_reset.
  - intros Hs Hd fuel rpf_file cb w. cbv zeta. split.
    + apply Kept.nested_call_keeps; auto.
    + apply Kept.nested_call_keeps; auto.
  - intros fuel rpf_file cb w f1 base_dir es Hrun Hloc Hd Hs Hdt
      stream_dir data_dir w1 r.
    destruct (ResetMore.ensure_clean_dirs_ok output_dir w1 es Hd Hs Hdt)
      as [w2 Hclean].
    destruct (ResetMore.ensure_clean_dirs_events _ _ _ _ _ Hclean)
      as (clean & Ht & Hf & Hm1 & Hm2 & Hr1 & Hr2).
    destruct (Reset.ensure_clean_dirs_spec _ _ _ _ _ Hclean)
      as (_ & _ & Hl1 & Hl2 & _).
    assert (Hr : r = organize_and_recurse medium
                       (fun nested_rpf =>
                          extract_rpf_recursive medium subprocess_run
                            decode_utf8 fuel nested_rpf rpf_cli output_dir
                            false true)
                       base_dir stream_dir data_dir cb w2).
    { unfold r. cbn [extract_rpf_recursive].
      rewrite fs_report, Hrun. fold w1.
      change (fs w1) with f1. rewrite Hloc. cbn [negb].
      now rewrite Hclean. }
    exists w2, clean.
    repeat (split; [assumption|]).
    rewrite Hr.
    apply (Trace.organize_continues medium output_dir Hfree).
    intros nested_rpf w'.
    apply (Trace.nested_call_continues medium output_dir Hfree).
Qed.

Lemma only_top_level_resets_buckets_witness :
  let w := mkWorld Examples.mixed_tree [] in
  let r :=
    extract_rpf_recursive faithful_medium Examples.unpacking_decoder
      Examples.decode_ascii 3 ["w"; "top.rpf"] "rpf-cli.exe" ["out"] true
      false w in
  let nested :=
    extract_rpf_recursive faithful_medium Examples.unpacking_decoder
      Examples.decode_ascii 2 ["w"; "dlc"; "c.rpf"] "rpf-cli.exe" ["out"]
      false true w in
  (exists clean rest,
      trace (snd r)
      = [EvProgress 0 100 "Extracting: top.rpf"; EvDecode ["w"; "top.rpf"]]
        ++ clean ++ rest
      /\ In (EvRmtree ["out"; "stream"]) clean
      /\ In (EvMakedirs ["out"; "stream"]) clean
      /\ In (EvMakedirs ["out"; "data"]) clean
      /\ Forall (resets_bucket ["out"]) clean
      /\ Forall (adds_only ["out"]) rest)
  /\ Fs.read ["out"; "stream"; "old.ydr"] (fs (snd nested))
     = Some Examples.two_bytes
  /\ Fs.isdir ["out"; "data"] (fs (snd nested)) = true.
Proof.
  intros w r nested.
  assert (Hfree : scratch_free ["out"]) by (repeat constructor).
  pose proof
    (only_top_level_resets_buckets faithful_medium Examples.unpacking_decoder
       Examples.decode_ascii "rpf-cli.exe" ["out"] Hfree)
    as (_ & Hkept & Htop).
  split.
  - destruct
      (Htop 2 ["w"; "top.rpf"] true w
         (snd (Examples.unpacking_decoder "rpf-cli.exe" ["w"; "top.rpf"]
                 Examples.mixed_tree))
         ["w"; "dlc"]
         [("stream", Fs.Dir [("old.ydr", Fs.File Examples.two_bytes)]);
          ("data", Fs.Dir []);
          ("notes.txt", Fs.File Examples.two_bytes)]
         eq_refl eq_refl eq_refl eq_refl eq_refl)
      as (w2 & clean & _ & _ & _ & _ & Ht & Hf & Hm1 & Hm2 & Hr1 & _ & Hc).
    destruct Hc as (rest & Hrest & Hadds).
    exists clean, rest. fold r in Hrest.
    split; [rewrite Hrest, Ht; now rewrite <- app_assoc|].
    split; [now apply Hr1|]. auto.
  - destruct
      (Hkept (Kept.unpacking_decoder_keeps ["stream"])
         (Kept.unpacking_decoder_keeps ["data"])
         2 ["w"; "dlc"; "c.rpf"] false w) as [[_ Hs] [Hd _]].
    split; [now apply (Hs "old.ydr")|now apply Hd].
Defined.

(** The claim as stated fails for an output directory that lies in the
    scratch directory of a nested container: the nested call for [c.rpf]
    removes the scratch directory of [d.rpf] when it is done with it, and
    both buckets, which were there with a file, are gone with it. *)
Lemma nested_call_can_remove_the_buckets :
  let out := ["w"; "_temp_c.rpf_extract"; "_temp_d.rpf_extract"; "out"] in
  let w := mkWorld Examples.scratch_output_tree [] in
  let w' :=
    snd (extract_rpf_recursive faithful_medium Examples.idle_decoder
           Examples.decode_ascii 3 ["w"; "c.rpf"] "rpf-cli.exe" out false
           true w) in
  Fs.read (join (join out "stream") "old.txt") (fs w)
  = Some Examples.two_bytes
  /\ Fs.isdir (join out "stream") (fs w) = true
  /\ Fs.isdir (join out "data") (fs w) = true
  /\ Fs.exists_ (join out "stream") (fs w') = false
  /\ Fs.exists_ (join out "data") (fs w') = false
  /\ trace w'
     = [EvDecode ["w"; "c.rpf"];
        EvDecode ["w"; "_temp_c.rpf_extract"; "d.rpf"];
        EvRmtree ["w"; "_temp_c.rpf_extract"; "_temp_d.rpf_extract"]].
Proof.
  vm_compute. repeat split.
Qed.

(** ** The decoded tree during the walk *)

Module Untouched.

(** Writing a file changes nothing at a path that the file is not
    below. *)
Lemma lookup_write_outside (p : path) (x : list byte) :
  forall n n' q,
    Fs.write_file p x n = Some n' ->
    ~ below q p -> Fs.lookup q n' = Fs.lookup q n.
Proof.
  induction p as [|c p IH]; intros n n' q H Hout; [discriminate|].
  destruct n as [y|es]; [now rewrite FsFacts.write_file_on_file in H|].
  destruct q as [|c' q]; [exfalso; apply Hout; now exists (c :: p)|].
  destruct (String.eqb_spec c' c) as [->|Hc].
  - destruct p as [|c2 p].
    + assert (Hq : q <> []) by (intros ->; apply Hout; now exists []).
      rewrite FsFacts.write_file_leaf in H. cbn [Fs.lookup].
      destruct (Fs.assoc c es) as [[y|es1]|] eqn:Ea; inversion H; subst;
        cbn [Fs.lookup]; rewrite FsFacts.assoc_set_same;
        now rewrite !FsFacts.lookup_file_below by exact Hq.
    + rewrite FsFacts.write_file_inner in H. cbn [Fs.lookup].
      destruct (Fs.assoc c es) as [n1|] eqn:Ea; [|discriminate].
      destruct (Fs.write_file (c2 :: p) x n1) as [n1'|] eqn:E;
        [|discriminate].
      cbn [option_map] in H. inversion H; subst.
      cbn [Fs.lookup]. rewrite FsFacts.assoc_set_same.
      apply (IH n1 n1' q E). intros [r Hr]. apply Hout. exists r.
      simpl. now rewrite Hr.
  - assert (exists y, n' = Fs.Dir (Fs.set_entry c y es)) as [y ->].
    { destruct p as [|c2 p].
      - rewrite FsFacts.write_file_leaf in H.
        destruct (Fs.assoc c es) as [[|]|]; inversion H; eauto.
      - rewrite FsFacts.write_file_inner in H.
        destruct (Fs.assoc c es) as [n1|]; [|discriminate].
        destruct (Fs.write_file (c2 :: p) x n1); inversion H; eauto. }
    cbn [Fs.lookup]. now rewrite FsFacts.assoc_set_other.
Qed.

(** The destination that is chosen lies directly in the bucket. *)
Lemma unique_dest_in_dir (f : Fs.t) (d : path) (file : string) :
  exists nm, unique_dest f file (join d file) = join d nm.
Proof.
  destruct (Fs.exists_ (join d file) f) eqn:E.
  - destruct (Collision.unique_dest_least f d file E) as (j & _ & Hp & _).
    eauto.
  - exists file. unfold unique_dest. now rewrite E.
Qed.

Section Walk.

Variable medium : path -> list byte -> copy_outcome.
Variables base_dir stream_dir data_dir : path.
Hypothesis stream_outside : ~ below base_dir stream_dir.
Hypothesis data_outside : ~ below base_dir data_dir.
Variable es0 : list (string * Fs.node).

(** A destination is never in the decoded tree. *)
Lemma dest_outside (f : Fs.t) (file : string) (b : bucket) :
  Fs.lookup base_dir f = Some (Fs.Dir es0) ->
  ~ below base_dir
      (unique_dest f file (join (bucket_dir stream_dir data_dir b) file)).
Proof.
  intros Hb [r Hr].
  pose proof (Collision.unique_dest_free f
                (bucket_dir stream_dir data_dir b) file) as Hfree.
  destruct (unique_dest_in_dir f (bucket_dir stream_dir data_dir b) file)
    as [nm Hnm].
  rewrite Hnm in *. destruct r as [|c r].
  - rewrite app_nil_r in Hr. rewrite Hr in Hfree.
    unfold Fs.exists_ in Hfree. rewrite Hb in Hfree. discriminate.
  - unfold join in Hr.
    apply Kept.prefix_of_parent in Hr; [|discriminate].
    destruct b; [now apply stream_outside|now apply data_outside].
Qed.

Lemma fold_untouched (total : nat) (cb : bool)
  (entries : list (path * list string * list string)) (st : mover) :
  Fs.lookup base_dir (fs (mworld st)) = Some (Fs.Dir es0) ->
  Fs.lookup base_dir
    (fs (mworld
           (fold_left (move_dir medium stream_dir data_dir total cb) entries
              st)))
  = Some (Fs.Dir es0).
Proof.
  apply (Kept.fold_move_dir_inv
           (fun f => Fs.lookup base_dir f = Some (Fs.Dir es0))
           (fun p => ~ below base_dir p)).
  - intros p x f f' Hw Hout H.
    now rewrite (lookup_write_outside p x f f' base_dir Hw Hout).
  - intros f file b H. now apply dest_outside.
Qed.

End Walk.

End Untouched.

(** X22: when neither bucket lies in or below the decoded tree, the
    consolidation leaves the decoded tree as it is: after any number of
    turns of the walk what is at [base_dir] is what was there at the
    start, so that a directory listed when the walk comes to it holds what
    it held when the walk began; and a walk made after [move_files] meets
    the same directories and files as the one made before. *)
Theorem consolidation_leaves_the_decoded_tree
  (medium : path -> list byte -> copy_outcome)
  (base_dir stream_dir data_dir : path) (cb : bool) (w : world) :
  ~ below base_dir stream_dir ->
  ~ below base_dir data_dir ->
  let w' := snd (move_files medium base_dir stream_dir data_dir cb w) in
  (forall n,
      Fs.lookup base_dir
        (fs (mworld
               (fold_left
                  (move_dir medium stream_dir data_dir
                     (total_files base_dir (fs w)) cb)
                  (firstn n (Fs.os_walk base_dir (fs w)))
                  (mkMover no_moves 0 w))))
      = Fs.lookup base_dir (fs w))
  /\ Fs.lookup base_dir (fs w') = Fs.lookup base_dir (fs w)
  /\ Fs.os_walk base_dir (fs w') = Fs.os_walk base_dir (fs w).
Proof.
  intros Hs Hd. cbv zeta.
  assert (Hwalk : forall n0,
             Fs.walk base_dir n0 = [] \/ exists es, n0 = Fs.Dir es).
  { intros [y|es]; [now left|right; eauto]. }
  assert (Hfold : forall entries,
             (Fs.os_walk base_dir (fs w) = [] -> entries = []) ->
             Fs.lookup base_dir
               (fs (mworld
                      (fold_left
                         (move_dir medium stream_dir data_dir
                            (total_files base_dir (fs w)) cb)
                         entries (mkMover no_moves 0 w))))
             = Fs.lookup base_dir (fs w)).
  { intros entries Hnil. unfold Fs.os_walk in Hnil.
    destruct (Fs.lookup base_dir (fs w)) as [n0|] eqn:E;
      [|now rewrite (Hnil eq_refl)].
    destruct (Hwalk n0) as [Hw|[es ->]]; [now rewrite (Hnil Hw)|].
    now apply (Untouched.fold_untouched medium base_dir stream_dir data_dir
                 Hs Hd es). }
  assert (Hall : Fs.lookup base_dir
                   (fs (snd (move_files medium base_dir stream_dir data_dir
                               cb w)))
                 = Fs.lookup base_dir (fs w)).
  { unfold move_files.
    destruct (total_files base_dir (fs w) =? 0); [reflexivity|].
    cbn [snd]. now apply Hfold. }
  split; [|split; [exact Hall|]].
  - intros n. apply Hfold. intros ->. now destruct n.
  - unfold Fs.os_walk. now rewrite Hall.
Qed.

Lemma consolidation_leaves_the_decoded_tree_witness :
  Fs.os_walk ["w"; "dlc"]
    (fs (snd (move_files faithful_medium ["w"; "dlc"] ["out"; "stream"]
                ["out"; "data"] false (mkWorld Examples.mixed_tree []))))
  = Fs.os_walk ["w"; "dlc"] Examples.mixed_tree.
Proof.
  refine (proj2 (proj2
    (consolidation_leaves_the_decoded_tree faithful_medium ["w"; "dlc"]
       ["out"; "stream"] ["out"; "data"] false
       (mkWorld Examples.mixed_tree []) _ _)));
    intros [r Hr]; discriminate Hr.
Defined.
